(** * Voice-to-text: the transcript pipeline and the tab store of [src/App.tsx]

    The development embeds the [App] component of the repository:
    the command table, the speech-recognition result handler (normalisation,
    command lookup, punctuation and capitalisation rules), the operations on
    the tab list, the silence watchdog and the copy button.  React state is
    passed explicitly; values that a closure captures at render time are
    explicit arguments of the handler that closes over them.

    A JavaScript string is a sequence of UTF-16 code units.  Here a string is
    the UTF-8 encoding of its code points, so that the literals of the source
    read the same: a character of the ASCII range is one byte, and a byte
    below 128 is never part of the encoding of another character.  Strings
    with unpaired surrogates have no encoding and are outside the model. *)

From Stdlib Require Import Bool List ZArith NArith Lia Ascii String.
From Stdlib Require Import DecimalString.
From Stdlib Require DecimalZ DecimalPos.
Import ListNotations.
Open Scope string_scope.

(** ** JavaScript strings and values *)

Module JS.

(** Line feed, the character written ['\n'] in the source. *)
Definition LF : ascii := "010"%char.
Definition nl : string := String LF "".

(** *** Code points and their encoding *)

Definition code (c : ascii) : N := N_of_ascii c.
Definition byte (n : N) : ascii := ascii_of_N n.

(** A byte of the form [10xxxxxx]. *)
Definition continuation (c : ascii) : bool :=
  (0x80 <=? code c)%N && (code c <=? 0xBF)%N.

(** The UTF-8 encoding of a code point. *)
Definition encode (cp : N) : string :=
  (if cp <? 0x80 then String (byte cp) ""
   else if cp <? 0x800 then
     String (byte (0xC0 + cp / 0x40))
       (String (byte (0x80 + cp mod 0x40)) "")
   else if cp <? 0x10000 then
     String (byte (0xE0 + cp / 0x1000))
       (String (byte (0x80 + (cp / 0x40) mod 0x40))
          (String (byte (0x80 + cp mod 0x40)) ""))
   else
     String (byte (0xF0 + cp / 0x40000))
       (String (byte (0x80 + (cp / 0x1000) mod 0x40))
          (String (byte (0x80 + (cp / 0x40) mod 0x40))
             (String (byte (0x80 + cp mod 0x40)) ""))))%N.

Fixpoint encode_all (l : list N) : string :=
  match l with
  | [] => ""
  | cp :: l' => encode cp ++ encode_all l'
  end.

(** The first code point of a string, the bytes that encode it, and the rest
    of the string.  A byte that does not begin a well-formed sequence is taken
    by itself, under a number above the code points. *)
Definition first_code_point (s : string) : option (N * string * string) :=
  match s with
  | EmptyString => None
  | String b1 s1 =>
      let alone := Some (0x110000 + code b1, String b1 "", s1)%N in
      if (code b1 <? 0x80)%N then Some (code b1, String b1 "", s1)
      else
        match s1 with
        | String b2 s2 =>
            let cp2 := ((code b1 - 0xC0) * 0x40 + (code b2 - 0x80))%N in
            if negb (continuation b2) then alone
            else if (0xC2 <=? code b1)%N && (code b1 <=? 0xDF)%N then
              Some (cp2, String b1 (String b2 ""), s2)
            else
              match s2 with
              | String b3 s3 =>
                  let cp3 :=
                    ((code b1 - 0xE0) * 0x1000 + (code b2 - 0x80) * 0x40
                     + (code b3 - 0x80))%N in
                  if negb (continuation b3) then alone
                  else if (0xE0 <=? code b1)%N && (code b1 <=? 0xEF)%N
                          && (0x800 <=? cp3)%N then
                    Some (cp3, String b1 (String b2 (String b3 "")), s3)
                  else
                    match s3 with
                    | String b4 s4 =>
                        let cp4 :=
                          ((code b1 - 0xF0) * 0x40000
                           + (code b2 - 0x80) * 0x1000
                           + (code b3 - 0x80) * 0x40 + (code b4 - 0x80))%N in
                        if continuation b4 && (0xF0 <=? code b1)%N
                           && (code b1 <=? 0xF4)%N && (0x10000 <=? cp4)%N
                           && (cp4 <=? 0x10FFFF)%N
                        then
                          Some (cp4,
                                String b1
                                  (String b2 (String b3 (String b4 ""))),
                                s4)
                        else alone
                    | EmptyString => alone
                    end
              | EmptyString => alone
              end
        | EmptyString => alone
        end
  end.

(** *** Case mapping

    [toLowerCase] and [toUpperCase] convert a string code point by code
    point, with the mappings of the Unicode Character Database (version
    14.0): the simple mappings and those of [SpecialCasing.txt] that depend
    on no language. *)

(** The code points above U+007F with a lower-case mapping of one code point:
    [(first, last, stride, target)] maps [first], [first + stride], ... up to
    [last] to [target], [target + stride], ... *)
Definition lower_runs : list (N * N * N * N) :=
  [ (0xC0, 0xD6, 1, 0xE0); (0xD8, 0xDE, 1, 0xF8); (0x100, 0x12E, 2, 0x101);
    (0x132, 0x136, 2, 0x133); (0x139, 0x147, 2, 0x13A);
    (0x14A, 0x176, 2, 0x14B); (0x178, 0x178, 1, 0xFF);
    (0x179, 0x17D, 2, 0x17A); (0x181, 0x181, 1, 0x253);
    (0x182, 0x184, 2, 0x183); (0x186, 0x186, 1, 0x254);
    (0x187, 0x187, 1, 0x188); (0x189, 0x18A, 1, 0x256);
    (0x18B, 0x18B, 1, 0x18C); (0x18E, 0x18E, 1, 0x1DD);
    (0x18F, 0x18F, 1, 0x259); (0x190, 0x190, 1, 0x25B);
    (0x191, 0x191, 1, 0x192); (0x193, 0x193, 1, 0x260);
    (0x194, 0x194, 1, 0x263); (0x196, 0x196, 1, 0x269);
    (0x197, 0x197, 1, 0x268); (0x198, 0x198, 1, 0x199);
    (0x19C, 0x19C, 1, 0x26F); (0x19D, 0x19D, 1, 0x272);
    (0x19F, 0x19F, 1, 0x275); (0x1A0, 0x1A4, 2, 0x1A1);
    (0x1A6, 0x1A6, 1, 0x280); (0x1A7, 0x1A7, 1, 0x1A8);
    (0x1A9, 0x1A9, 1, 0x283); (0x1AC, 0x1AC, 1, 0x1AD);
    (0x1AE, 0x1AE, 1, 0x288); (0x1AF, 0x1AF, 1, 0x1B0);
    (0x1B1, 0x1B2, 1, 0x28A); (0x1B3, 0x1B5, 2, 0x1B4);
    (0x1B7, 0x1B7, 1, 0x292); (0x1B8, 0x1B8, 1, 0x1B9);
    (0x1BC, 0x1BC, 1, 0x1BD); (0x1C4, 0x1C4, 1, 0x1C6);
    (0x1C5, 0x1C5, 1, 0x1C6); (0x1C7, 0x1C7, 1, 0x1C9);
    (0x1C8, 0x1C8, 1, 0x1C9); (0x1CA, 0x1CA, 1, 0x1CC);
    (0x1CB, 0x1DB, 2, 0x1CC); (0x1DE, 0x1EE, 2, 0x1DF);
    (0x1F1, 0x1F1, 1, 0x1F3); (0x1F2, 0x1F4, 2, 0x1F3);
    (0x1F6, 0x1F6, 1, 0x195); (0x1F7, 0x1F7, 1, 0x1BF);
    (0x1F8, 0x21E, 2, 0x1F9); (0x220, 0x220, 1, 0x19E);
    (0x222, 0x232, 2, 0x223); (0x23A, 0x23A, 1, 0x2C65);
    (0x23B, 0x23B, 1, 0x23C); (0x23D, 0x23D, 1, 0x19A);
    (0x23E, 0x23E, 1, 0x2C66); (0x241, 0x241, 1, 0x242);
    (0x243, 0x243, 1, 0x180); (0x244, 0x244, 1, 0x289);
    (0x245, 0x245, 1, 0x28C); (0x246, 0x24E, 2, 0x247);
    (0x370, 0x372, 2, 0x371); (0x376, 0x376, 1, 0x377);
    (0x37F, 0x37F, 1, 0x3F3); (0x386, 0x386, 1, 0x3AC);
    (0x388, 0x38A, 1, 0x3AD); (0x38C, 0x38C, 1, 0x3CC);
    (0x38E, 0x38F, 1, 0x3CD); (0x391, 0x3A1, 1, 0x3B1);
    (0x3A3, 0x3AB, 1, 0x3C3); (0x3CF, 0x3CF, 1, 0x3D7);
    (0x3D8, 0x3EE, 2, 0x3D9); (0x3F4, 0x3F4, 1, 0x3B8);
    (0x3F7, 0x3F7, 1, 0x3F8); (0x3F9, 0x3F9, 1, 0x3F2);
    (0x3FA, 0x3FA, 1, 0x3FB); (0x3FD, 0x3FF, 1, 0x37B);
    (0x400, 0x40F, 1, 0x450); (0x410, 0x42F, 1, 0x430);
    (0x460, 0x480, 2, 0x461); (0x48A, 0x4BE, 2, 0x48B);
    (0x4C0, 0x4C0, 1, 0x4CF); (0x4C1, 0x4CD, 2, 0x4C2);
    (0x4D0, 0x52E, 2, 0x4D1); (0x531, 0x556, 1, 0x561);
    (0x10A0, 0x10C5, 1, 0x2D00); (0x10C7, 0x10C7, 1, 0x2D27);
    (0x10CD, 0x10CD, 1, 0x2D2D); (0x13A0, 0x13EF, 1, 0xAB70);
    (0x13F0, 0x13F5, 1, 0x13F8); (0x1C90, 0x1CBA, 1, 0x10D0);
    (0x1CBD, 0x1CBF, 1, 0x10FD); (0x1E00, 0x1E94, 2, 0x1E01);
    (0x1E9E, 0x1E9E, 1, 0xDF); (0x1EA0, 0x1EFE, 2, 0x1EA1);
    (0x1F08, 0x1F0F, 1, 0x1F00); (0x1F18, 0x1F1D, 1, 0x1F10);
    (0x1F28, 0x1F2F, 1, 0x1F20); (0x1F38, 0x1F3F, 1, 0x1F30);
    (0x1F48, 0x1F4D, 1, 0x1F40); (0x1F59, 0x1F5F, 2, 0x1F51);
    (0x1F68, 0x1F6F, 1, 0x1F60); (0x1F88, 0x1F8F, 1, 0x1F80);
    (0x1F98, 0x1F9F, 1, 0x1F90); (0x1FA8, 0x1FAF, 1, 0x1FA0);
    (0x1FB8, 0x1FB9, 1, 0x1FB0); (0x1FBA, 0x1FBB, 1, 0x1F70);
    (0x1FBC, 0x1FBC, 1, 0x1FB3); (0x1FC8, 0x1FCB, 1, 0x1F72);
    (0x1FCC, 0x1FCC, 1, 0x1FC3); (0x1FD8, 0x1FD9, 1, 0x1FD0);
    (0x1FDA, 0x1FDB, 1, 0x1F76); (0x1FE8, 0x1FE9, 1, 0x1FE0);
    (0x1FEA, 0x1FEB, 1, 0x1F7A); (0x1FEC, 0x1FEC, 1, 0x1FE5);
    (0x1FF8, 0x1FF9, 1, 0x1F78); (0x1FFA, 0x1FFB, 1, 0x1F7C);
    (0x1FFC, 0x1FFC, 1, 0x1FF3); (0x2126, 0x2126, 1, 0x3C9);
    (0x212A, 0x212A, 1, 0x6B); (0x212B, 0x212B, 1, 0xE5);
    (0x2132, 0x2132, 1, 0x214E); (0x2160, 0x216F, 1, 0x2170);
    (0x2183, 0x2183, 1, 0x2184); (0x24B6, 0x24CF, 1, 0x24D0);
    (0x2C00, 0x2C2F, 1, 0x2C30); (0x2C60, 0x2C60, 1, 0x2C61);
    (0x2C62, 0x2C62, 1, 0x26B); (0x2C63, 0x2C63, 1, 0x1D7D);
    (0x2C64, 0x2C64, 1, 0x27D); (0x2C67, 0x2C6B, 2, 0x2C68);
    (0x2C6D, 0x2C6D, 1, 0x251); (0x2C6E, 0x2C6E, 1, 0x271);
    (0x2C6F, 0x2C6F, 1, 0x250); (0x2C70, 0x2C70, 1, 0x252);
    (0x2C72, 0x2C72, 1, 0x2C73); (0x2C75, 0x2C75, 1, 0x2C76);
    (0x2C7E, 0x2C7F, 1, 0x23F); (0x2C80, 0x2CE2, 2, 0x2C81);
    (0x2CEB, 0x2CED, 2, 0x2CEC); (0x2CF2, 0x2CF2, 1, 0x2CF3);
    (0xA640, 0xA66C, 2, 0xA641); (0xA680, 0xA69A, 2, 0xA681);
    (0xA722, 0xA72E, 2, 0xA723); (0xA732, 0xA76E, 2, 0xA733);
    (0xA779, 0xA77B, 2, 0xA77A); (0xA77D, 0xA77D, 1, 0x1D79);
    (0xA77E, 0xA786, 2, 0xA77F); (0xA78B, 0xA78B, 1, 0xA78C);
    (0xA78D, 0xA78D, 1, 0x265); (0xA790, 0xA792, 2, 0xA791);
    (0xA796, 0xA7A8, 2, 0xA797); (0xA7AA, 0xA7AA, 1, 0x266);
    (0xA7AB, 0xA7AB, 1, 0x25C); (0xA7AC, 0xA7AC, 1, 0x261);
    (0xA7AD, 0xA7AD, 1, 0x26C); (0xA7AE, 0xA7AE, 1, 0x26A);
    (0xA7B0, 0xA7B0, 1, 0x29E); (0xA7B1, 0xA7B1, 1, 0x287);
    (0xA7B2, 0xA7B2, 1, 0x29D); (0xA7B3, 0xA7B3, 1, 0xAB53);
    (0xA7B4, 0xA7C2, 2, 0xA7B5); (0xA7C4, 0xA7C4, 1, 0xA794);
    (0xA7C5, 0xA7C5, 1, 0x282); (0xA7C6, 0xA7C6, 1, 0x1D8E);
    (0xA7C7, 0xA7C9, 2, 0xA7C8); (0xA7D0, 0xA7D0, 1, 0xA7D1);
    (0xA7D6, 0xA7D8, 2, 0xA7D7); (0xA7F5, 0xA7F5, 1, 0xA7F6);
    (0xFF21, 0xFF3A, 1, 0xFF41); (0x10400, 0x10427, 1, 0x10428);
    (0x104B0, 0x104D3, 1, 0x104D8); (0x10570, 0x10594, 2, 0x10597);
    (0x10571, 0x10579, 2, 0x10598); (0x1057D, 0x10589, 2, 0x105A4);
    (0x1058D, 0x10591, 2, 0x105B4); (0x10595, 0x10595, 1, 0x105BC);
    (0x10C80, 0x10CB2, 1, 0x10CC0); (0x118A0, 0x118BF, 1, 0x118C0);
    (0x16E40, 0x16E5F, 1, 0x16E60); (0x1E900, 0x1E921, 1, 0x1E922) ]%N.

(** The lower-case mappings of more than one code point. *)
Definition lower_special : list (N * list N) :=
  [ (0x130, [0x69; 0x307]) ]%N.

(** The upper-case mappings of one code point, above U+007F. *)
Definition upper_runs : list (N * N * N * N) :=
  [ (0xB5, 0xB5, 1, 0x39C); (0xE0, 0xF6, 1, 0xC0); (0xF8, 0xFE, 1, 0xD8);
    (0xFF, 0xFF, 1, 0x178); (0x101, 0x12F, 2, 0x100); (0x131, 0x131, 1, 0x49);
    (0x133, 0x137, 2, 0x132); (0x13A, 0x148, 2, 0x139);
    (0x14B, 0x177, 2, 0x14A); (0x17A, 0x17E, 2, 0x179);
    (0x17F, 0x17F, 1, 0x53); (0x180, 0x180, 1, 0x243);
    (0x183, 0x185, 2, 0x182); (0x188, 0x188, 1, 0x187);
    (0x18C, 0x18C, 1, 0x18B); (0x192, 0x192, 1, 0x191);
    (0x195, 0x195, 1, 0x1F6); (0x199, 0x199, 1, 0x198);
    (0x19A, 0x19A, 1, 0x23D); (0x19E, 0x19E, 1, 0x220);
    (0x1A1, 0x1A5, 2, 0x1A0); (0x1A8, 0x1A8, 1, 0x1A7);
    (0x1AD, 0x1AD, 1, 0x1AC); (0x1B0, 0x1B0, 1, 0x1AF);
    (0x1B4, 0x1B6, 2, 0x1B3); (0x1B9, 0x1B9, 1, 0x1B8);
    (0x1BD, 0x1BD, 1, 0x1BC); (0x1BF, 0x1BF, 1, 0x1F7);
    (0x1C5, 0x1C5, 1, 0x1C4); (0x1C6, 0x1C6, 1, 0x1C4);
    (0x1C8, 0x1C8, 1, 0x1C7); (0x1C9, 0x1C9, 1, 0x1C7);
    (0x1CB, 0x1CB, 1, 0x1CA); (0x1CC, 0x1CC, 1, 0x1CA);
    (0x1CE, 0x1DC, 2, 0x1CD); (0x1DD, 0x1DD, 1, 0x18E);
    (0x1DF, 0x1EF, 2, 0x1DE); (0x1F2, 0x1F2, 1, 0x1F1);
    (0x1F3, 0x1F3, 1, 0x1F1); (0x1F5, 0x1F5, 1, 0x1F4);
    (0x1F9, 0x21F, 2, 0x1F8); (0x223, 0x233, 2, 0x222);
    (0x23C, 0x23C, 1, 0x23B); (0x23F, 0x240, 1, 0x2C7E);
    (0x242, 0x242, 1, 0x241); (0x247, 0x24F, 2, 0x246);
    (0x250, 0x250, 1, 0x2C6F); (0x251, 0x251, 1, 0x2C6D);
    (0x252, 0x252, 1, 0x2C70); (0x253, 0x253, 1, 0x181);
    (0x254, 0x254, 1, 0x186); (0x256, 0x257, 1, 0x189);
    (0x259, 0x259, 1, 0x18F); (0x25B, 0x25B, 1, 0x190);
    (0x25C, 0x25C, 1, 0xA7AB); (0x260, 0x260, 1, 0x193);
    (0x261, 0x261, 1, 0xA7AC); (0x263, 0x263, 1, 0x194);
    (0x265, 0x265, 1, 0xA78D); (0x266, 0x266, 1, 0xA7AA);
    (0x268, 0x268, 1, 0x197); (0x269, 0x269, 1, 0x196);
    (0x26A, 0x26A, 1, 0xA7AE); (0x26B, 0x26B, 1, 0x2C62);
    (0x26C, 0x26C, 1, 0xA7AD); (0x26F, 0x26F, 1, 0x19C);
    (0x271, 0x271, 1, 0x2C6E); (0x272, 0x272, 1, 0x19D);
    (0x275, 0x275, 1, 0x19F); (0x27D, 0x27D, 1, 0x2C64);
    (0x280, 0x280, 1, 0x1A6); (0x282, 0x282, 1, 0xA7C5);
    (0x283, 0x283, 1, 0x1A9); (0x287, 0x287, 1, 0xA7B1);
    (0x288, 0x288, 1, 0x1AE); (0x289, 0x289, 1, 0x244);
    (0x28A, 0x28B, 1, 0x1B1); (0x28C, 0x28C, 1, 0x245);
    (0x292, 0x292, 1, 0x1B7); (0x29D, 0x29D, 1, 0xA7B2);
    (0x29E, 0x29E, 1, 0xA7B0); (0x345, 0x345, 1, 0x399);
    (0x371, 0x373, 2, 0x370); (0x377, 0x377, 1, 0x376);
    (0x37B, 0x37D, 1, 0x3FD); (0x3AC, 0x3AC, 1, 0x386);
    (0x3AD, 0x3AF, 1, 0x388); (0x3B1, 0x3C1, 1, 0x391);
    (0x3C2, 0x3C2, 1, 0x3A3); (0x3C3, 0x3CB, 1, 0x3A3);
    (0x3CC, 0x3CC, 1, 0x38C); (0x3CD, 0x3CE, 1, 0x38E);
    (0x3D0, 0x3D0, 1, 0x392); (0x3D1, 0x3D1, 1, 0x398);
    (0x3D5, 0x3D5, 1, 0x3A6); (0x3D6, 0x3D6, 1, 0x3A0);
    (0x3D7, 0x3D7, 1, 0x3CF); (0x3D9, 0x3EF, 2, 0x3D8);
    (0x3F0, 0x3F0, 1, 0x39A); (0x3F1, 0x3F1, 1, 0x3A1);
    (0x3F2, 0x3F2, 1, 0x3F9); (0x3F3, 0x3F3, 1, 0x37F);
    (0x3F5, 0x3F5, 1, 0x395); (0x3F8, 0x3F8, 1, 0x3F7);
    (0x3FB, 0x3FB, 1, 0x3FA); (0x430, 0x44F, 1, 0x410);
    (0x450, 0x45F, 1, 0x400); (0x461, 0x481, 2, 0x460);
    (0x48B, 0x4BF, 2, 0x48A); (0x4C2, 0x4CE, 2, 0x4C1);
    (0x4CF, 0x4CF, 1, 0x4C0); (0x4D1, 0x52F, 2, 0x4D0);
    (0x561, 0x586, 1, 0x531); (0x10D0, 0x10FA, 1, 0x1C90);
    (0x10FD, 0x10FF, 1, 0x1CBD); (0x13F8, 0x13FD, 1, 0x13F0);
    (0x1C80, 0x1C80, 1, 0x412); (0x1C81, 0x1C81, 1, 0x414);
    (0x1C82, 0x1C82, 1, 0x41E); (0x1C83, 0x1C84, 1, 0x421);
    (0x1C85, 0x1C85, 1, 0x422); (0x1C86, 0x1C86, 1, 0x42A);
    (0x1C87, 0x1C87, 1, 0x462); (0x1C88, 0x1C88, 1, 0xA64A);
    (0x1D79, 0x1D79, 1, 0xA77D); (0x1D7D, 0x1D7D, 1, 0x2C63);
    (0x1D8E, 0x1D8E, 1, 0xA7C6); (0x1E01, 0x1E95, 2, 0x1E00);
    (0x1E9B, 0x1E9B, 1, 0x1E60); (0x1EA1, 0x1EFF, 2, 0x1EA0);
    (0x1F00, 0x1F07, 1, 0x1F08); (0x1F10, 0x1F15, 1, 0x1F18);
    (0x1F20, 0x1F27, 1, 0x1F28); (0x1F30, 0x1F37, 1, 0x1F38);
    (0x1F40, 0x1F45, 1, 0x1F48); (0x1F51, 0x1F57, 2, 0x1F59);
    (0x1F60, 0x1F67, 1, 0x1F68); (0x1F70, 0x1F71, 1, 0x1FBA);
    (0x1F72, 0x1F75, 1, 0x1FC8); (0x1F76, 0x1F77, 1, 0x1FDA);
    (0x1F78, 0x1F79, 1, 0x1FF8); (0x1F7A, 0x1F7B, 1, 0x1FEA);
    (0x1F7C, 0x1F7D, 1, 0x1FFA); (0x1FB0, 0x1FB1, 1, 0x1FB8);
    (0x1FBE, 0x1FBE, 1, 0x399); (0x1FD0, 0x1FD1, 1, 0x1FD8);
    (0x1FE0, 0x1FE1, 1, 0x1FE8); (0x1FE5, 0x1FE5, 1, 0x1FEC);
    (0x214E, 0x214E, 1, 0x2132); (0x2170, 0x217F, 1, 0x2160);
    (0x2184, 0x2184, 1, 0x2183); (0x24D0, 0x24E9, 1, 0x24B6);
    (0x2C30, 0x2C5F, 1, 0x2C00); (0x2C61, 0x2C61, 1, 0x2C60);
    (0x2C65, 0x2C65, 1, 0x23A); (0x2C66, 0x2C66, 1, 0x23E);
    (0x2C68, 0x2C6C, 2, 0x2C67); (0x2C73, 0x2C73, 1, 0x2C72);
    (0x2C76, 0x2C76, 1, 0x2C75); (0x2C81, 0x2CE3, 2, 0x2C80);
    (0x2CEC, 0x2CEE, 2, 0x2CEB); (0x2CF3, 0x2CF3, 1, 0x2CF2);
    (0x2D00, 0x2D25, 1, 0x10A0); (0x2D27, 0x2D27, 1, 0x10C7);
    (0x2D2D, 0x2D2D, 1, 0x10CD); (0xA641, 0xA66D, 2, 0xA640);
    (0xA681, 0xA69B, 2, 0xA680); (0xA723, 0xA72F, 2, 0xA722);
    (0xA733, 0xA76F, 2, 0xA732); (0xA77A, 0xA77C, 2, 0xA779);
    (0xA77F, 0xA787, 2, 0xA77E); (0xA78C, 0xA78C, 1, 0xA78B);
    (0xA791, 0xA793, 2, 0xA790); (0xA794, 0xA794, 1, 0xA7C4);
    (0xA797, 0xA7A9, 2, 0xA796); (0xA7B5, 0xA7C3, 2, 0xA7B4);
    (0xA7C8, 0xA7CA, 2, 0xA7C7); (0xA7D1, 0xA7D1, 1, 0xA7D0);
    (0xA7D7, 0xA7D9, 2, 0xA7D6); (0xA7F6, 0xA7F6, 1, 0xA7F5);
    (0xAB53, 0xAB53, 1, 0xA7B3); (0xAB70, 0xABBF, 1, 0x13A0);
    (0xFF41, 0xFF5A, 1, 0xFF21); (0x10428, 0x1044F, 1, 0x10400);
    (0x104D8, 0x104FB, 1, 0x104B0); (0x10597, 0x105BB, 2, 0x10570);
    (0x10598, 0x105A0, 2, 0x10571); (0x105A4, 0x105B0, 2, 0x1057D);
    (0x105B4, 0x105B8, 2, 0x1058D); (0x105BC, 0x105BC, 1, 0x10595);
    (0x10CC0, 0x10CF2, 1, 0x10C80); (0x118C0, 0x118DF, 1, 0x118A0);
    (0x16E60, 0x16E7F, 1, 0x16E40); (0x1E922, 0x1E943, 1, 0x1E900) ]%N.

(** The upper-case mappings of more than one code point. *)
Definition upper_special : list (N * list N) :=
  [ (0xDF, [0x53; 0x53]); (0x149, [0x2BC; 0x4E]); (0x1F0, [0x4A; 0x30C]);
    (0x390, [0x399; 0x308; 0x301]); (0x3B0, [0x3A5; 0x308; 0x301]);
    (0x587, [0x535; 0x552]); (0x1E96, [0x48; 0x331]); (0x1E97, [0x54; 0x308]);
    (0x1E98, [0x57; 0x30A]); (0x1E99, [0x59; 0x30A]); (0x1E9A, [0x41; 0x2BE]);
    (0x1F50, [0x3A5; 0x313]); (0x1F52, [0x3A5; 0x313; 0x300]);
    (0x1F54, [0x3A5; 0x313; 0x301]); (0x1F56, [0x3A5; 0x313; 0x342]);
    (0x1F80, [0x1F08; 0x399]); (0x1F81, [0x1F09; 0x399]);
    (0x1F82, [0x1F0A; 0x399]); (0x1F83, [0x1F0B; 0x399]);
    (0x1F84, [0x1F0C; 0x399]); (0x1F85, [0x1F0D; 0x399]);
    (0x1F86, [0x1F0E; 0x399]); (0x1F87, [0x1F0F; 0x399]);
    (0x1F88, [0x1F08; 0x399]); (0x1F89, [0x1F09; 0x399]);
    (0x1F8A, [0x1F0A; 0x399]); (0x1F8B, [0x1F0B; 0x399]);
    (0x1F8C, [0x1F0C; 0x399]); (0x1F8D, [0x1F0D; 0x399]);
    (0x1F8E, [0x1F0E; 0x399]); (0x1F8F, [0x1F0F; 0x399]);
    (0x1F90, [0x1F28; 0x399]); (0x1F91, [0x1F29; 0x399]);
    (0x1F92, [0x1F2A; 0x399]); (0x1F93, [0x1F2B; 0x399]);
    (0x1F94, [0x1F2C; 0x399]); (0x1F95, [0x1F2D; 0x399]);
    (0x1F96, [0x1F2E; 0x399]); (0x1F97, [0x1F2F; 0x399]);
    (0x1F98, [0x1F28; 0x399]); (0x1F99, [0x1F29; 0x399]);
    (0x1F9A, [0x1F2A; 0x399]); (0x1F9B, [0x1F2B; 0x399]);
    (0x1F9C, [0x1F2C; 0x399]); (0x1F9D, [0x1F2D; 0x399]);
    (0x1F9E, [0x1F2E; 0x399]); (0x1F9F, [0x1F2F; 0x399]);
    (0x1FA0, [0x1F68; 0x399]); (0x1FA1, [0x1F69; 0x399]);
    (0x1FA2, [0x1F6A; 0x399]); (0x1FA3, [0x1F6B; 0x399]);
    (0x1FA4, [0x1F6C; 0x399]); (0x1FA5, [0x1F6D; 0x399]);
    (0x1FA6, [0x1F6E; 0x399]); (0x1FA7, [0x1F6F; 0x399]);
    (0x1FA8, [0x1F68; 0x399]); (0x1FA9, [0x1F69; 0x399]);
    (0x1FAA, [0x1F6A; 0x399]); (0x1FAB, [0x1F6B; 0x399]);
    (0x1FAC, [0x1F6C; 0x399]); (0x1FAD, [0x1F6D; 0x399]);
    (0x1FAE, [0x1F6E; 0x399]); (0x1FAF, [0x1F6F; 0x399]);
    (0x1FB2, [0x1FBA; 0x399]); (0x1FB3, [0x391; 0x399]);
    (0x1FB4, [0x386; 0x399]); (0x1FB6, [0x391; 0x342]);
    (0x1FB7, [0x391; 0x342; 0x399]); (0x1FBC, [0x391; 0x399]);
    (0x1FC2, [0x1FCA; 0x399]); (0x1FC3, [0x397; 0x399]);
    (0x1FC4, [0x389; 0x399]); (0x1FC6, [0x397; 0x342]);
    (0x1FC7, [0x397; 0x342; 0x399]); (0x1FCC, [0x397; 0x399]);
    (0x1FD2, [0x399; 0x308; 0x300]); (0x1FD3, [0x399; 0x308; 0x301]);
    (0x1FD6, [0x399; 0x342]); (0x1FD7, [0x399; 0x308; 0x342]);
    (0x1FE2, [0x3A5; 0x308; 0x300]); (0x1FE3, [0x3A5; 0x308; 0x301]);
    (0x1FE4, [0x3A1; 0x313]); (0x1FE6, [0x3A5; 0x342]);
    (0x1FE7, [0x3A5; 0x308; 0x342]); (0x1FF2, [0x1FFA; 0x399]);
    (0x1FF3, [0x3A9; 0x399]); (0x1FF4, [0x38F; 0x399]);
    (0x1FF6, [0x3A9; 0x342]); (0x1FF7, [0x3A9; 0x342; 0x399]);
    (0x1FFC, [0x3A9; 0x399]); (0xFB00, [0x46; 0x46]); (0xFB01, [0x46; 0x49]);
    (0xFB02, [0x46; 0x4C]); (0xFB03, [0x46; 0x46; 0x49]);
    (0xFB04, [0x46; 0x46; 0x4C]); (0xFB05, [0x53; 0x54]);
    (0xFB06, [0x53; 0x54]); (0xFB13, [0x544; 0x546]);
    (0xFB14, [0x544; 0x535]); (0xFB15, [0x544; 0x53B]);
    (0xFB16, [0x54E; 0x546]); (0xFB17, [0x544; 0x53D]) ]%N.

(** The code points with the property [Case_Ignorable], as ranges. *)
Definition Case_Ignorable : list (N * N) :=
  [ (0x27, 0x27); (0x2E, 0x2E); (0x3A, 0x3A); (0x5E, 0x5E); (0x60, 0x60);
    (0xA8, 0xA8); (0xAD, 0xAD); (0xAF, 0xAF); (0xB4, 0xB4); (0xB7, 0xB8);
    (0x2B0, 0x36F); (0x374, 0x375); (0x37A, 0x37A); (0x384, 0x385);
    (0x387, 0x387); (0x483, 0x489); (0x559, 0x559); (0x55F, 0x55F);
    (0x591, 0x5BD); (0x5BF, 0x5BF); (0x5C1, 0x5C2); (0x5C4, 0x5C5);
    (0x5C7, 0x5C7); (0x5F4, 0x5F4); (0x600, 0x605); (0x610, 0x61A);
    (0x61C, 0x61C); (0x640, 0x640); (0x64B, 0x65F); (0x670, 0x670);
    (0x6D6, 0x6DD); (0x6DF, 0x6E8); (0x6EA, 0x6ED); (0x70F, 0x70F);
    (0x711, 0x711); (0x730, 0x74A); (0x7A6, 0x7B0); (0x7EB, 0x7F5);
    (0x7FA, 0x7FA); (0x7FD, 0x7FD); (0x816, 0x82D); (0x859, 0x85B);
    (0x888, 0x888); (0x890, 0x891); (0x898, 0x89F); (0x8C9, 0x902);
    (0x93A, 0x93A); (0x93C, 0x93C); (0x941, 0x948); (0x94D, 0x94D);
    (0x951, 0x957); (0x962, 0x963); (0x971, 0x971); (0x981, 0x981);
    (0x9BC, 0x9BC); (0x9C1, 0x9C4); (0x9CD, 0x9CD); (0x9E2, 0x9E3);
    (0x9FE, 0x9FE); (0xA01, 0xA02); (0xA3C, 0xA3C); (0xA41, 0xA42);
    (0xA47, 0xA48); (0xA4B, 0xA4D); (0xA51, 0xA51); (0xA70, 0xA71);
    (0xA75, 0xA75); (0xA81, 0xA82); (0xABC, 0xABC); (0xAC1, 0xAC5);
    (0xAC7, 0xAC8); (0xACD, 0xACD); (0xAE2, 0xAE3); (0xAFA, 0xAFF);
    (0xB01, 0xB01); (0xB3C, 0xB3C); (0xB3F, 0xB3F); (0xB41, 0xB44);
    (0xB4D, 0xB4D); (0xB55, 0xB56); (0xB62, 0xB63); (0xB82, 0xB82);
    (0xBC0, 0xBC0); (0xBCD, 0xBCD); (0xC00, 0xC00); (0xC04, 0xC04);
    (0xC3C, 0xC3C); (0xC3E, 0xC40); (0xC46, 0xC48); (0xC4A, 0xC4D);
    (0xC55, 0xC56); (0xC62, 0xC63); (0xC81, 0xC81); (0xCBC, 0xCBC);
    (0xCBF, 0xCBF); (0xCC6, 0xCC6); (0xCCC, 0xCCD); (0xCE2, 0xCE3);
    (0xD00, 0xD01); (0xD3B, 0xD3C); (0xD41, 0xD44); (0xD4D, 0xD4D);
    (0xD62, 0xD63); (0xD81, 0xD81); (0xDCA, 0xDCA); (0xDD2, 0xDD4);
    (0xDD6, 0xDD6); (0xE31, 0xE31); (0xE34, 0xE3A); (0xE46, 0xE4E);
    (0xEB1, 0xEB1); (0xEB4, 0xEBC); (0xEC6, 0xEC6); (0xEC8, 0xECD);
    (0xF18, 0xF19); (0xF35, 0xF35); (0xF37, 0xF37); (0xF39, 0xF39);
    (0xF71, 0xF7E); (0xF80, 0xF84); (0xF86, 0xF87); (0xF8D, 0xF97);
    (0xF99, 0xFBC); (0xFC6, 0xFC6); (0x102D, 0x1030); (0x1032, 0x1037);
    (0x1039, 0x103A); (0x103D, 0x103E); (0x1058, 0x1059); (0x105E, 0x1060);
    (0x1071, 0x1074); (0x1082, 0x1082); (0x1085, 0x1086); (0x108D, 0x108D);
    (0x109D, 0x109D); (0x10FC, 0x10FC); (0x135D, 0x135F); (0x1712, 0x1714);
    (0x1732, 0x1733); (0x1752, 0x1753); (0x1772, 0x1773); (0x17B4, 0x17B5);
    (0x17B7, 0x17BD); (0x17C6, 0x17C6); (0x17C9, 0x17D3); (0x17D7, 0x17D7);
    (0x17DD, 0x17DD); (0x180B, 0x180F); (0x1843, 0x1843); (0x1885, 0x1886);
    (0x18A9, 0x18A9); (0x1920, 0x1922); (0x1927, 0x1928); (0x1932, 0x1932);
    (0x1939, 0x193B); (0x1A17, 0x1A18); (0x1A1B, 0x1A1B); (0x1A56, 0x1A56);
    (0x1A58, 0x1A5E); (0x1A60, 0x1A60); (0x1A62, 0x1A62); (0x1A65, 0x1A6C);
    (0x1A73, 0x1A7C); (0x1A7F, 0x1A7F); (0x1AA7, 0x1AA7); (0x1AB0, 0x1ACE);
    (0x1B00, 0x1B03); (0x1B34, 0x1B34); (0x1B36, 0x1B3A); (0x1B3C, 0x1B3C);
    (0x1B42, 0x1B42); (0x1B6B, 0x1B73); (0x1B80, 0x1B81); (0x1BA2, 0x1BA5);
    (0x1BA8, 0x1BA9); (0x1BAB, 0x1BAD); (0x1BE6, 0x1BE6); (0x1BE8, 0x1BE9);
    (0x1BED, 0x1BED); (0x1BEF, 0x1BF1); (0x1C2C, 0x1C33); (0x1C36, 0x1C37);
    (0x1C78, 0x1C7D); (0x1CD0, 0x1CD2); (0x1CD4, 0x1CE0); (0x1CE2, 0x1CE8);
    (0x1CED, 0x1CED); (0x1CF4, 0x1CF4); (0x1CF8, 0x1CF9); (0x1D2C, 0x1D6A);
    (0x1D78, 0x1D78); (0x1D9B, 0x1DFF); (0x1FBD, 0x1FBD); (0x1FBF, 0x1FC1);
    (0x1FCD, 0x1FCF); (0x1FDD, 0x1FDF); (0x1FED, 0x1FEF); (0x1FFD, 0x1FFE);
    (0x200B, 0x200F); (0x2018, 0x2019); (0x2024, 0x2024); (0x2027, 0x2027);
    (0x202A, 0x202E); (0x2060, 0x2064); (0x2066, 0x206F); (0x2071, 0x2071);
    (0x207F, 0x207F); (0x2090, 0x209C); (0x20D0, 0x20F0); (0x2C7C, 0x2C7D);
    (0x2CEF, 0x2CF1); (0x2D6F, 0x2D6F); (0x2D7F, 0x2D7F); (0x2DE0, 0x2DFF);
    (0x2E2F, 0x2E2F); (0x3005, 0x3005); (0x302A, 0x302D); (0x3031, 0x3035);
    (0x303B, 0x303B); (0x3099, 0x309E); (0x30FC, 0x30FE); (0xA015, 0xA015);
    (0xA4F8, 0xA4FD); (0xA60C, 0xA60C); (0xA66F, 0xA672); (0xA674, 0xA67D);
    (0xA67F, 0xA67F); (0xA69C, 0xA69F); (0xA6F0, 0xA6F1); (0xA700, 0xA721);
    (0xA770, 0xA770); (0xA788, 0xA78A); (0xA7F2, 0xA7F4); (0xA7F8, 0xA7F9);
    (0xA802, 0xA802); (0xA806, 0xA806); (0xA80B, 0xA80B); (0xA825, 0xA826);
    (0xA82C, 0xA82C); (0xA8C4, 0xA8C5); (0xA8E0, 0xA8F1); (0xA8FF, 0xA8FF);
    (0xA926, 0xA92D); (0xA947, 0xA951); (0xA980, 0xA982); (0xA9B3, 0xA9B3);
    (0xA9B6, 0xA9B9); (0xA9BC, 0xA9BD); (0xA9CF, 0xA9CF); (0xA9E5, 0xA9E6);
    (0xAA29, 0xAA2E); (0xAA31, 0xAA32); (0xAA35, 0xAA36); (0xAA43, 0xAA43);
    (0xAA4C, 0xAA4C); (0xAA70, 0xAA70); (0xAA7C, 0xAA7C); (0xAAB0, 0xAAB0);
    (0xAAB2, 0xAAB4); (0xAAB7, 0xAAB8); (0xAABE, 0xAABF); (0xAAC1, 0xAAC1);
    (0xAADD, 0xAADD); (0xAAEC, 0xAAED); (0xAAF3, 0xAAF4); (0xAAF6, 0xAAF6);
    (0xAB5B, 0xAB5F); (0xAB69, 0xAB6B); (0xABE5, 0xABE5); (0xABE8, 0xABE8);
    (0xABED, 0xABED); (0xFB1E, 0xFB1E); (0xFBB2, 0xFBC2); (0xFE00, 0xFE0F);
    (0xFE13, 0xFE13); (0xFE20, 0xFE2F); (0xFE52, 0xFE52); (0xFE55, 0xFE55);
    (0xFEFF, 0xFEFF); (0xFF07, 0xFF07); (0xFF0E, 0xFF0E); (0xFF1A, 0xFF1A);
    (0xFF3E, 0xFF3E); (0xFF40, 0xFF40); (0xFF70, 0xFF70); (0xFF9E, 0xFF9F);
    (0xFFE3, 0xFFE3); (0xFFF9, 0xFFFB); (0x101FD, 0x101FD);
    (0x102E0, 0x102E0); (0x10376, 0x1037A); (0x10780, 0x10785);
    (0x10787, 0x107B0); (0x107B2, 0x107BA); (0x10A01, 0x10A03);
    (0x10A05, 0x10A06); (0x10A0C, 0x10A0F); (0x10A38, 0x10A3A);
    (0x10A3F, 0x10A3F); (0x10AE5, 0x10AE6); (0x10D24, 0x10D27);
    (0x10EAB, 0x10EAC); (0x10F46, 0x10F50); (0x10F82, 0x10F85);
    (0x11001, 0x11001); (0x11038, 0x11046); (0x11070, 0x11070);
    (0x11073, 0x11074); (0x1107F, 0x11081); (0x110B3, 0x110B6);
    (0x110B9, 0x110BA); (0x110BD, 0x110BD); (0x110C2, 0x110C2);
    (0x110CD, 0x110CD); (0x11100, 0x11102); (0x11127, 0x1112B);
    (0x1112D, 0x11134); (0x11173, 0x11173); (0x11180, 0x11181);
    (0x111B6, 0x111BE); (0x111C9, 0x111CC); (0x111CF, 0x111CF);
    (0x1122F, 0x11231); (0x11234, 0x11234); (0x11236, 0x11237);
    (0x1123E, 0x1123E); (0x112DF, 0x112DF); (0x112E3, 0x112EA);
    (0x11300, 0x11301); (0x1133B, 0x1133C); (0x11340, 0x11340);
    (0x11366, 0x1136C); (0x11370, 0x11374); (0x11438, 0x1143F);
    (0x11442, 0x11444); (0x11446, 0x11446); (0x1145E, 0x1145E);
    (0x114B3, 0x114B8); (0x114BA, 0x114BA); (0x114BF, 0x114C0);
    (0x114C2, 0x114C3); (0x115B2, 0x115B5); (0x115BC, 0x115BD);
    (0x115BF, 0x115C0); (0x115DC, 0x115DD); (0x11633, 0x1163A);
    (0x1163D, 0x1163D); (0x1163F, 0x11640); (0x116AB, 0x116AB);
    (0x116AD, 0x116AD); (0x116B0, 0x116B5); (0x116B7, 0x116B7);
    (0x1171D, 0x1171F); (0x11722, 0x11725); (0x11727, 0x1172B);
    (0x1182F, 0x11837); (0x11839, 0x1183A); (0x1193B, 0x1193C);
    (0x1193E, 0x1193E); (0x11943, 0x11943); (0x119D4, 0x119D7);
    (0x119DA, 0x119DB); (0x119E0, 0x119E0); (0x11A01, 0x11A0A);
    (0x11A33, 0x11A38); (0x11A3B, 0x11A3E); (0x11A47, 0x11A47);
    (0x11A51, 0x11A56); (0x11A59, 0x11A5B); (0x11A8A, 0x11A96);
    (0x11A98, 0x11A99); (0x11C30, 0x11C36); (0x11C38, 0x11C3D);
    (0x11C3F, 0x11C3F); (0x11C92, 0x11CA7); (0x11CAA, 0x11CB0);
    (0x11CB2, 0x11CB3); (0x11CB5, 0x11CB6); (0x11D31, 0x11D36);
    (0x11D3A, 0x11D3A); (0x11D3C, 0x11D3D); (0x11D3F, 0x11D45);
    (0x11D47, 0x11D47); (0x11D90, 0x11D91); (0x11D95, 0x11D95);
    (0x11D97, 0x11D97); (0x11EF3, 0x11EF4); (0x13430, 0x13438);
    (0x16AF0, 0x16AF4); (0x16B30, 0x16B36); (0x16B40, 0x16B43);
    (0x16F4F, 0x16F4F); (0x16F8F, 0x16F9F); (0x16FE0, 0x16FE1);
    (0x16FE3, 0x16FE4); (0x1AFF0, 0x1AFF3); (0x1AFF5, 0x1AFFB);
    (0x1AFFD, 0x1AFFE); (0x1BC9D, 0x1BC9E); (0x1BCA0, 0x1BCA3);
    (0x1CF00, 0x1CF2D); (0x1CF30, 0x1CF46); (0x1D167, 0x1D169);
    (0x1D173, 0x1D182); (0x1D185, 0x1D18B); (0x1D1AA, 0x1D1AD);
    (0x1D242, 0x1D244); (0x1DA00, 0x1DA36); (0x1DA3B, 0x1DA6C);
    (0x1DA75, 0x1DA75); (0x1DA84, 0x1DA84); (0x1DA9B, 0x1DA9F);
    (0x1DAA1, 0x1DAAF); (0x1E000, 0x1E006); (0x1E008, 0x1E018);
    (0x1E01B, 0x1E021); (0x1E023, 0x1E024); (0x1E026, 0x1E02A);
    (0x1E130, 0x1E13D); (0x1E2AE, 0x1E2AE); (0x1E2EC, 0x1E2EF);
    (0x1E8D0, 0x1E8D6); (0x1E944, 0x1E94B); (0x1F3FB, 0x1F3FF);
    (0xE0001, 0xE0001); (0xE0020, 0xE007F); (0xE0100, 0xE01EF) ]%N.

(** The code points with the property [Cased] that are not
    [Case_Ignorable], as ranges. *)
Definition Cased : list (N * N) :=
  [ (0x41, 0x5A); (0x61, 0x7A); (0xAA, 0xAA); (0xB5, 0xB5); (0xBA, 0xBA);
    (0xC0, 0xD6); (0xD8, 0xF6); (0xF8, 0x1BA); (0x1BC, 0x1BF); (0x1C4, 0x293);
    (0x295, 0x2AF); (0x370, 0x373); (0x376, 0x377); (0x37B, 0x37D);
    (0x37F, 0x37F); (0x386, 0x386); (0x388, 0x38A); (0x38C, 0x38C);
    (0x38E, 0x3A1); (0x3A3, 0x3F5); (0x3F7, 0x481); (0x48A, 0x52F);
    (0x531, 0x556); (0x560, 0x588); (0x10A0, 0x10C5); (0x10C7, 0x10C7);
    (0x10CD, 0x10CD); (0x10D0, 0x10FA); (0x10FD, 0x10FF); (0x13A0, 0x13F5);
    (0x13F8, 0x13FD); (0x1C80, 0x1C88); (0x1C90, 0x1CBA); (0x1CBD, 0x1CBF);
    (0x1D00, 0x1D2B); (0x1D6B, 0x1D77); (0x1D79, 0x1D9A); (0x1E00, 0x1F15);
    (0x1F18, 0x1F1D); (0x1F20, 0x1F45); (0x1F48, 0x1F4D); (0x1F50, 0x1F57);
    (0x1F59, 0x1F59); (0x1F5B, 0x1F5B); (0x1F5D, 0x1F5D); (0x1F5F, 0x1F7D);
    (0x1F80, 0x1FB4); (0x1FB6, 0x1FBC); (0x1FBE, 0x1FBE); (0x1FC2, 0x1FC4);
    (0x1FC6, 0x1FCC); (0x1FD0, 0x1FD3); (0x1FD6, 0x1FDB); (0x1FE0, 0x1FEC);
    (0x1FF2, 0x1FF4); (0x1FF6, 0x1FFC); (0x2102, 0x2102); (0x2107, 0x2107);
    (0x210A, 0x2113); (0x2115, 0x2115); (0x2119, 0x211D); (0x2124, 0x2124);
    (0x2126, 0x2126); (0x2128, 0x2128); (0x212A, 0x212D); (0x212F, 0x2134);
    (0x2139, 0x2139); (0x213C, 0x213F); (0x2145, 0x2149); (0x214E, 0x214E);
    (0x2160, 0x217F); (0x2183, 0x2184); (0x24B6, 0x24E9); (0x2C00, 0x2C7B);
    (0x2C7E, 0x2CE4); (0x2CEB, 0x2CEE); (0x2CF2, 0x2CF3); (0x2D00, 0x2D25);
    (0x2D27, 0x2D27); (0x2D2D, 0x2D2D); (0xA640, 0xA66D); (0xA680, 0xA69B);
    (0xA722, 0xA76F); (0xA771, 0xA787); (0xA78B, 0xA78E); (0xA790, 0xA7CA);
    (0xA7D0, 0xA7D1); (0xA7D3, 0xA7D3); (0xA7D5, 0xA7D9); (0xA7F5, 0xA7F6);
    (0xA7FA, 0xA7FA); (0xAB30, 0xAB5A); (0xAB60, 0xAB68); (0xAB70, 0xABBF);
    (0xFB00, 0xFB06); (0xFB13, 0xFB17); (0xFF21, 0xFF3A); (0xFF41, 0xFF5A);
    (0x10400, 0x1044F); (0x104B0, 0x104D3); (0x104D8, 0x104FB);
    (0x10570, 0x1057A); (0x1057C, 0x1058A); (0x1058C, 0x10592);
    (0x10594, 0x10595); (0x10597, 0x105A1); (0x105A3, 0x105B1);
    (0x105B3, 0x105B9); (0x105BB, 0x105BC); (0x10C80, 0x10CB2);
    (0x10CC0, 0x10CF2); (0x118A0, 0x118DF); (0x16E40, 0x16E7F);
    (0x1D400, 0x1D454); (0x1D456, 0x1D49C); (0x1D49E, 0x1D49F);
    (0x1D4A2, 0x1D4A2); (0x1D4A5, 0x1D4A6); (0x1D4A9, 0x1D4AC);
    (0x1D4AE, 0x1D4B9); (0x1D4BB, 0x1D4BB); (0x1D4BD, 0x1D4C3);
    (0x1D4C5, 0x1D505); (0x1D507, 0x1D50A); (0x1D50D, 0x1D514);
    (0x1D516, 0x1D51C); (0x1D51E, 0x1D539); (0x1D53B, 0x1D53E);
    (0x1D540, 0x1D544); (0x1D546, 0x1D546); (0x1D54A, 0x1D550);
    (0x1D552, 0x1D6A5); (0x1D6A8, 0x1D6C0); (0x1D6C2, 0x1D6DA);
    (0x1D6DC, 0x1D6FA); (0x1D6FC, 0x1D714); (0x1D716, 0x1D734);
    (0x1D736, 0x1D74E); (0x1D750, 0x1D76E); (0x1D770, 0x1D788);
    (0x1D78A, 0x1D7A8); (0x1D7AA, 0x1D7C2); (0x1D7C4, 0x1D7CB);
    (0x1DF00, 0x1DF09); (0x1DF0B, 0x1DF1E); (0x1E900, 0x1E943);
    (0x1F130, 0x1F149); (0x1F150, 0x1F169); (0x1F170, 0x1F189) ]%N.

Definition in_range (cp : N) (r : N * N) : bool :=
  (fst r <=? cp)%N && (cp <=? snd r)%N.

Definition case_ignorable (cp : N) : bool :=
  existsb (in_range cp) Case_Ignorable.

Definition cased (cp : N) : bool := existsb (in_range cp) Cased.

Definition in_run (cp : N) (r : N * N * N * N) : bool :=
  let '(first, last, stride, _) := r in
  (first <=? cp)%N && (cp <=? last)%N && ((cp - first) mod stride =? 0)%N.

Definition run_target (cp : N) (r : N * N * N * N) : N :=
  let '(first, _, _, target) := r in (target + (cp - first))%N.

(** The mapping of a code point by a table, when it has one. *)
Definition mapping (runs : list (N * N * N * N))
  (special : list (N * list N)) (cp : N) : option (list N) :=
  match find (fun e => (fst e =? cp)%N) special with
  | Some e => Some (snd e)
  | None =>
      match find (in_run cp) runs with
      | Some r => Some [run_target cp r]
      | None => None
      end
  end.

(** The lower-case and the upper-case mapping of a code point: the ASCII
    letters by their distance of 32, the others by the tables. *)
Definition lower_code_point (cp : N) : option (list N) :=
  if (cp <? 0x80)%N then
    if (0x41 <=? cp)%N && (cp <=? 0x5A)%N then Some [cp + 0x20]%N else None
  else mapping lower_runs lower_special cp.

Definition upper_code_point (cp : N) : option (list N) :=
  if (cp <? 0x80)%N then
    if (0x61 <=? cp)%N && (cp <=? 0x7A)%N then Some [cp - 0x20]%N else None
  else mapping upper_runs upper_special cp.

(** The second half of the condition [Final_Sigma]: a cased letter follows,
    after any number of case-ignorable code points. *)
Fixpoint cased_letter_follows (fuel : nat) (s : string) : bool :=
  match fuel with
  | O => false
  | S fuel' =>
      match first_code_point s with
      | None => false
      | Some (cp, _, rest) =>
          if case_ignorable cp then cased_letter_follows fuel' rest
          else cased cp
      end
  end.

(** Lower-casing from left to right.  [after_cased] is the first half of
    [Final_Sigma]: a cased letter precedes, before any number of
    case-ignorable code points.  A capital sigma (U+03A3) becomes a final
    sigma (U+03C2) where [Final_Sigma] holds and a small sigma (U+03C3)
    elsewhere.  Every round takes at least one byte, so the length of the
    string is fuel enough. *)
Fixpoint lower_from (fuel : nat) (after_cased : bool) (s : string) : string :=
  match fuel with
  | O => ""
  | S fuel' =>
      match first_code_point s with
      | None => ""
      | Some (cp, bytes, rest) =>
          (if (cp =? 0x3A3)%N then
             if after_cased
                && negb (cased_letter_follows (String.length rest) rest)
             then encode 0x3C2 else encode 0x3C3
           else
             match lower_code_point cp with
             | Some l => encode_all l
             | None => bytes
             end)
          ++ lower_from fuel'
               (if case_ignorable cp then after_cased else cased cp) rest
      end
  end.

(** [s.toLowerCase()] *)
Definition toLowerCase (s : string) : string :=
  lower_from (String.length s) false s.

Fixpoint upper_from (fuel : nat) (s : string) : string :=
  match fuel with
  | O => ""
  | S fuel' =>
      match first_code_point s with
      | None => ""
      | Some (cp, bytes, rest) =>
          match upper_code_point cp with
          | Some l => encode_all l
          | None => bytes
          end ++ upper_from fuel' rest
      end
  end.

(** [s.toUpperCase()] *)
Definition toUpperCase (s : string) : string :=
  upper_from (String.length s) s.

(** *** White space

    [trim] removes the code points of [WhiteSpace] and [LineTerminator]:
    U+0009 to U+000D, U+0020, U+00A0, U+1680, U+2000 to U+200A, U+2028,
    U+2029, U+202F, U+205F, U+3000 and U+FEFF. *)

(** TAB, LF, VT, FF, CR and SPACE, the white space of one byte. *)
Definition is_space (c : ascii) : bool :=
  let n := nat_of_ascii c in
  ((9 <=? n)%nat && (n <=? 13)%nat) || (n =? 32)%nat.

(** U+00A0, the white space of two bytes. *)
Definition is_space2 (b1 b2 : ascii) : bool :=
  (code b1 =? 0xC2)%N && (code b2 =? 0xA0)%N.

(** The white space of three bytes: U+1680; U+2000 to U+200A, U+2028,
    U+2029 and U+202F; U+205F; U+3000; U+FEFF. *)
Definition is_space3 (b1 b2 b3 : ascii) : bool :=
  ((code b1 =? 0xE1) && (code b2 =? 0x9A) && (code b3 =? 0x80))%N
  || ((code b1 =? 0xE2) && (code b2 =? 0x80)
      && (((0x80 <=? code b3) && (code b3 <=? 0x8A)) || (code b3 =? 0xA8)
          || (code b3 =? 0xA9) || (code b3 =? 0xAF)))%N
  || ((code b1 =? 0xE2) && (code b2 =? 0x81) && (code b3 =? 0x9F))%N
  || ((code b1 =? 0xE3) && (code b2 =? 0x80) && (code b3 =? 0x80))%N
  || ((code b1 =? 0xEF) && (code b2 =? 0xBB) && (code b3 =? 0xBF))%N.

(** [s.trimStart()] *)
Fixpoint trimStart (s : string) : string :=
  match s with
  | EmptyString => EmptyString
  | String b1 s1 =>
      if is_space b1 then trimStart s1
      else
        match s1 with
        | String b2 s2 =>
            if is_space2 b1 b2 then trimStart s2
            else
              match s2 with
              | String b3 s3 =>
                  if is_space3 b1 b2 b3 then trimStart s3 else s
              | EmptyString => s
              end
        | EmptyString => s
        end
  end.

(** [s] is white space from start to end. *)
Definition blank (s : string) : bool := trimStart s =? "".

(** [s.trimEnd()]: what comes before the white space that reaches to the
    end. *)
Fixpoint trimEnd (s : string) : string :=
  match s with
  | EmptyString => EmptyString
  | String c s' => if blank s then EmptyString else String c (trimEnd s')
  end.

(** [s.trim()] *)
Definition trim (s : string) : string := trimEnd (trimStart s).

(** *** The ASCII range

    On strings of ASCII characters, case mapping and trimming work byte by
    byte. *)

Definition is_upper (c : ascii) : bool :=
  let n := nat_of_ascii c in (65 <=? n)%nat && (n <=? 90)%nat.

Definition is_lower (c : ascii) : bool :=
  let n := nat_of_ascii c in (97 <=? n)%nat && (n <=? 122)%nat.

Definition lower_char (c : ascii) : ascii :=
  if is_upper c then ascii_of_nat (nat_of_ascii c + 32) else c.

Definition upper_char (c : ascii) : ascii :=
  if is_lower c then ascii_of_nat (nat_of_ascii c - 32) else c.

Fixpoint ascii_only (s : string) : bool :=
  match s with
  | EmptyString => true
  | String c s' => (code c <? 0x80)%N && ascii_only s'
  end.

Fixpoint lower_ascii (s : string) : string :=
  match s with
  | EmptyString => EmptyString
  | String c s' => String (lower_char c) (lower_ascii s')
  end.

Fixpoint upper_ascii (s : string) : string :=
  match s with
  | EmptyString => EmptyString
  | String c s' => String (upper_char c) (upper_ascii s')
  end.

Fixpoint trimStart_ascii (s : string) : string :=
  match s with
  | EmptyString => EmptyString
  | String c s' => if is_space c then trimStart_ascii s' else s
  end.

Fixpoint trimEnd_ascii (s : string) : string :=
  match s with
  | EmptyString => EmptyString
  | String c s' =>
      match trimEnd_ascii s' with
      | EmptyString => if is_space c then EmptyString else String c EmptyString
      | t => String c t
      end
  end.

Definition trim_ascii (s : string) : string :=
  trimEnd_ascii (trimStart_ascii s).

(** *** Other operations on strings *)

(** [s.startsWith(p)] *)
Definition startsWith (s p : string) : bool := prefix p s.

(** [s.endsWith(p)]: [s] is [p], or the tail of [s] ends with [p]. *)
Fixpoint endsWith (s p : string) : bool :=
  (s =? p) ||
  match s with
  | EmptyString => false
  | String _ s' => endsWith s' p
  end.

(** A string used as a condition: only the empty string is falsy. *)
Definition truthy (s : string) : bool := negb (s =? "").

(** A code point above U+FFFF, which takes two code units. *)
Definition two_units (cp : N) : bool :=
  (0x10000 <=? cp)%N && (cp <? 0x110000)%N.

(** [s.charAt(0)] and [s.slice(1)]: the first code unit and what follows
    it.  When the first code point takes two code units, the first of them is
    half of a surrogate pair: it has no encoding of its own, no case mapping
    changes it, and [s.charAt(0) + s.slice(1)] puts the pair together again.
    For such a string [charAt0] is the empty string and [slice1] the whole
    string. *)
Definition charAt0 (s : string) : string :=
  match first_code_point s with
  | Some (cp, bytes, _) => if two_units cp then "" else bytes
  | None => ""
  end.

Definition slice1 (s : string) : string :=
  match first_code_point s with
  | Some (cp, _, rest) => if two_units cp then s else rest
  | None => ""
  end.

(** [s.slice(0, -1)] for a string that ends with a character of one byte;
    the handler takes it of content that ends with a space. *)
Fixpoint dropLast (s : string) : string :=
  match s with
  | EmptyString => EmptyString
  | String c s' =>
      match s' with
      | EmptyString => EmptyString
      | String _ _ => String c (dropLast s')
      end
  end.

(** The last byte of a string. *)
Fixpoint lastChar (s : string) : option ascii :=
  match s with
  | EmptyString => None
  | String c s' =>
      match s' with
      | EmptyString => Some c
      | String _ _ => lastChar s'
      end
  end.

(** Values a property read can produce here: [undefined], a string, or
    one of the built-in objects reachable through the prototype. *)
Inductive Value : Type :=
| Undefined
| Str (s : string)
| Builtin (name : string).

Definition truthy_value (v : Value) : bool :=
  match v with
  | Undefined => false
  | Str s => truthy s
  | Builtin _ => true
  end.

(** The property names every object literal inherits from
    [Object.prototype]. *)
Definition Object_prototype : list string :=
  [ "constructor"; "__defineGetter__"; "__defineSetter__"; "hasOwnProperty";
    "__lookupGetter__"; "__lookupSetter__"; "isPrototypeOf";
    "propertyIsEnumerable"; "toString"; "valueOf"; "__proto__";
    "toLocaleString" ].

(** [a || b] on values of type [string | undefined]. *)
Definition or_else (a b : option string) : option string :=
  match a with
  | Some s => if truthy s then a else b
  | None => b
  end.

(** What a callback leaves behind: it completes with a value, or throws a
    [TypeError]. *)
Inductive Outcome (A : Type) : Type :=
| Done (a : A)
| TypeError.
Arguments Done {A} a.
Arguments TypeError {A}.

Definition bind {A B} (o : Outcome A) (k : A -> Outcome B) : Outcome B :=
  match o with
  | Done a => k a
  | TypeError => TypeError
  end.

(** [Array.prototype.map] with a callback that may throw. *)
Fixpoint map_outcome {A B} (f : A -> Outcome B) (l : list A)
  : Outcome (list B) :=
  match l with
  | [] => Done []
  | x :: l' =>
      bind (f x) (fun y => bind (map_outcome f l') (fun ys => Done (y :: ys)))
  end.

End JS.
Import JS.

(** ** The command table *)

Definition DICTATION_COMMANDS : list (string * string) :=
  [ ("period", ".");
    ("comma", ",");
    ("question mark", "?");
    ("colon", ":");
    ("semi colon", ";");
    ("semicolon", ";");
    ("exclamation mark", "!");
    ("exclamation point", "!");
    ("dash", "-");
    ("hyphen", "-");
    ("new line", nl);
    ("new paragraph", nl ++ nl);
    ("open parentheses", "(");
    ("close parentheses", ")");
    ("smiley", ":-)");
    ("smiley face", ":-)");
    ("sad face", ":-(") ].

(** The own property [key] of an object literal. *)
Fixpoint own_property (o : list (string * string)) (key : string)
  : option string :=
  match o with
  | [] => None
  | (k, v) :: o' => if k =? key then Some v else own_property o' key
  end.

(** [o[key]]: the own property when there is one, else the property
    inherited from [Object.prototype], else [undefined]. *)
Definition get_property (o : list (string * string)) (key : string)
  : Value :=
  match own_property o key with
  | Some v => Str v
  | None =>
      if existsb (String.eqb key) Object_prototype then Builtin key
      else Undefined
  end.

(** ** Tabs *)

Record Tab : Type := mkTab { id : string; title : string; content : string }.

(** [{ ...tab, content: c }] *)
Definition with_content (tab : Tab) (c : string) : Tab :=
  mkTab (id tab) (title tab) c.

(** [{ ...tab, title: t }] *)
Definition with_title (tab : Tab) (t : string) : Tab :=
  mkTab (id tab) t (content tab).

(** [tab.id === x] where [x] may be [undefined]. *)
Definition id_is (x : option string) (tab : Tab) : bool :=
  match x with
  | Some s => id tab =? s
  | None => false
  end.

(** ** The recognition result handler *)

(** The command branch of the handler: the new content of the active tab.
    [command.startsWith] is evaluated first and exists on strings only. *)
Definition command_content (command : Value) (content : string)
  : Outcome string :=
  match command with
  | Str command =>
      if startsWith command nl && truthy content && negb (endsWith content " ")
      then Done (content ++ " " ++ command)
      else if truthy content && endsWith content " " && negb (command =? " ")
      then Done (dropLast content ++ command ++ " ")
      else Done (content ++ command ++ " ")
  | _ => TypeError
  end.

(** The dictation branch: the text to append, decided on the content of the
    tab the handler found in its captured [tabs]. *)
Definition processedText (currentContent transcriptText : string) : string :=
  if endsWith currentContent ". " || endsWith currentContent "! "
     || endsWith currentContent "? " || negb (truthy currentContent)
  then toUpperCase (charAt0 transcriptText) ++ slice1 transcriptText
  else transcriptText.

Definition dictation_content (processed content : string) : string :=
  content
  ++ (if truthy content && negb (endsWith content " ") then " " else "")
  ++ processed ++ " ".

(** [recognition.onresult].  [tabs] is the tab list the closure captured,
    [activeTabRef] the current value of the ref cell, [transcript] the
    transcript of the last result, [prevTabs] the state the updater passed to
    [setTabs] receives.  The result is the next tab list. *)
Definition onresult (tabs : list Tab) (activeTabRef : option string)
  (transcript : string) (prevTabs : list Tab) : Outcome (list Tab) :=
  let transcriptText := trim (toLowerCase transcript) in
  match find (id_is activeTabRef) tabs with
  | None => Done prevTabs
  | Some currentTab =>
      let command := get_property DICTATION_COMMANDS transcriptText in
      if truthy_value command then
        map_outcome
          (fun tab =>
             if id_is activeTabRef tab then
               bind (command_content command (content tab))
                    (fun newContent => Done (with_content tab newContent))
             else Done tab)
          prevTabs
      else
        let processed := processedText (content currentTab) transcriptText in
        Done (map
                (fun tab =>
                   if id_is activeTabRef tab then
                     with_content tab
                       (dictation_content processed (content tab))
                   else tab)
                prevTabs)
  end.

(** The content the handler gives a tab carrying the active id: [seen] is the
    content of the captured current tab, [content] the tab's content in the
    state being updated, [transcriptText] the normalised transcript. *)
Definition merge (seen content transcriptText : string) : Outcome string :=
  let command := get_property DICTATION_COMMANDS transcriptText in
  if truthy_value command then command_content command content
  else Done (dictation_content (processedText seen transcriptText) content).

(** ** The component state *)

(** A recognition object: [serial] numbers the objects in the order of their
    creation, [handler_tabs] is the tab list its [onresult] handler
    captured. *)
Record Recognition : Type :=
  mkRecognition { serial : nat; handler_tabs : list Tab }.

(** The state of [App] that the transcript pipeline, the tab store and the
    watchdog touch, and the part of the page around it that they depend on.
    [recognition] is the recognition object held in React state;
    [hideTimeouts] are the pending [setTimeout] callbacks that hide the
    silence notice, by due time, oldest first; [supported] tells whether the
    page offers speech recognition; [created] counts the recognition objects
    created so far; [started] are the recognition objects on which [start]
    was called and that have not been stopped since; [copiedTimeouts] are
    the pending [setTimeout] callbacks that take the copy mark back, by due
    time, oldest first; [clipboard] is the text the page has written to the
    clipboard, if any; [pendingWrites] are the texts of the calls of
    [navigator.clipboard.writeText] whose promise has not settled yet,
    oldest first. *)
Record App : Type := mkApp {
  tabs : list Tab;
  activeTabId : option string;
  activeTabRef : option string;
  isEditingTitle : option string;
  editingTitleValue : string;
  recognition : option Recognition;
  isListening : bool;
  error : string;
  showNoSpeechDetected : bool;
  lastSpeechDetected : Z;
  hideTimeouts : list Z;
  supported : bool;
  created : nat;
  started : list Recognition;
  copied : bool;
  copiedTimeouts : list Z;
  clipboard : option string;
  pendingWrites : list string
}.

Definition setTabs (v : list Tab) (st : App) : App :=
  mkApp v (activeTabId st) (activeTabRef st) (isEditingTitle st)
    (editingTitleValue st) (recognition st) (isListening st) (error st)
    (showNoSpeechDetected st) (lastSpeechDetected st) (hideTimeouts st)
    (supported st) (created st) (started st)
    (copied st) (copiedTimeouts st) (clipboard st)
    (pendingWrites st).

Definition setActiveTabId (v : option string) (st : App) : App :=
  mkApp (tabs st) v (activeTabRef st) (isEditingTitle st)
    (editingTitleValue st) (recognition st) (isListening st) (error st)
    (showNoSpeechDetected st) (lastSpeechDetected st) (hideTimeouts st)
    (supported st) (created st) (started st)
    (copied st) (copiedTimeouts st) (clipboard st)
    (pendingWrites st).

Definition set_activeTabRef (v : option string) (st : App) : App :=
  mkApp (tabs st) (activeTabId st) v (isEditingTitle st)
    (editingTitleValue st) (recognition st) (isListening st) (error st)
    (showNoSpeechDetected st) (lastSpeechDetected st) (hideTimeouts st)
    (supported st) (created st) (started st)
    (copied st) (copiedTimeouts st) (clipboard st)
    (pendingWrites st).

Definition setIsEditingTitle (v : option string) (st : App) : App :=
  mkApp (tabs st) (activeTabId st) (activeTabRef st) v (editingTitleValue st)
    (recognition st) (isListening st) (error st) (showNoSpeechDetected st)
    (lastSpeechDetected st) (hideTimeouts st) (supported st) (created st)
    (started st) (copied st) (copiedTimeouts st) (clipboard st)
    (pendingWrites st).

Definition setEditingTitleValue (v : string) (st : App) : App :=
  mkApp (tabs st) (activeTabId st) (activeTabRef st) (isEditingTitle st) v
    (recognition st) (isListening st) (error st) (showNoSpeechDetected st)
    (lastSpeechDetected st) (hideTimeouts st) (supported st) (created st)
    (started st) (copied st) (copiedTimeouts st) (clipboard st)
    (pendingWrites st).

Definition setRecognition (v : option Recognition) (st : App) : App :=
  mkApp (tabs st) (activeTabId st) (activeTabRef st) (isEditingTitle st)
    (editingTitleValue st) v (isListening st) (error st)
    (showNoSpeechDetected st) (lastSpeechDetected st) (hideTimeouts st)
    (supported st) (created st) (started st)
    (copied st) (copiedTimeouts st) (clipboard st)
    (pendingWrites st).

Definition setIsListening (v : bool) (st : App) : App :=
  mkApp (tabs st) (activeTabId st) (activeTabRef st) (isEditingTitle st)
    (editingTitleValue st) (recognition st) v (error st)
    (showNoSpeechDetected st) (lastSpeechDetected st) (hideTimeouts st)
    (supported st) (created st) (started st)
    (copied st) (copiedTimeouts st) (clipboard st)
    (pendingWrites st).

Definition setError (v : string) (st : App) : App :=
  mkApp (tabs st) (activeTabId st) (activeTabRef st) (isEditingTitle st)
    (editingTitleValue st) (recognition st) (isListening st) v
    (showNoSpeechDetected st) (lastSpeechDetected st) (hideTimeouts st)
    (supported st) (created st) (started st)
    (copied st) (copiedTimeouts st) (clipboard st)
    (pendingWrites st).

Definition setShowNoSpeechDetected (v : bool) (st : App) : App :=
  mkApp (tabs st) (activeTabId st) (activeTabRef st) (isEditingTitle st)
    (editingTitleValue st) (recognition st) (isListening st) (error st) v
    (lastSpeechDetected st) (hideTimeouts st) (supported st) (created st)
    (started st) (copied st) (copiedTimeouts st) (clipboard st)
    (pendingWrites st).

Definition set_lastSpeechDetected (v : Z) (st : App) : App :=
  mkApp (tabs st) (activeTabId st) (activeTabRef st) (isEditingTitle st)
    (editingTitleValue st) (recognition st) (isListening st) (error st)
    (showNoSpeechDetected st) v (hideTimeouts st) (supported st) (created st)
    (started st) (copied st) (copiedTimeouts st) (clipboard st)
    (pendingWrites st).

Definition set_hideTimeouts (v : list Z) (st : App) : App :=
  mkApp (tabs st) (activeTabId st) (activeTabRef st) (isEditingTitle st)
    (editingTitleValue st) (recognition st) (isListening st) (error st)
    (showNoSpeechDetected st) (lastSpeechDetected st) v (supported st)
    (created st) (started st)
    (copied st) (copiedTimeouts st) (clipboard st)
    (pendingWrites st).

Definition set_created (v : nat) (st : App) : App :=
  mkApp (tabs st) (activeTabId st) (activeTabRef st) (isEditingTitle st)
    (editingTitleValue st) (recognition st) (isListening st) (error st)
    (showNoSpeechDetected st) (lastSpeechDetected st) (hideTimeouts st)
    (supported st) v (started st) (copied st) (copiedTimeouts st)
    (clipboard st) (pendingWrites st).

Definition set_started (v : list Recognition) (st : App) : App :=
  mkApp (tabs st) (activeTabId st) (activeTabRef st) (isEditingTitle st)
    (editingTitleValue st) (recognition st) (isListening st) (error st)
    (showNoSpeechDetected st) (lastSpeechDetected st) (hideTimeouts st)
    (supported st) (created st) v (copied st) (copiedTimeouts st)
    (clipboard st) (pendingWrites st).

Definition setCopied (v : bool) (st : App) : App :=
  mkApp (tabs st) (activeTabId st) (activeTabRef st) (isEditingTitle st)
    (editingTitleValue st) (recognition st) (isListening st) (error st)
    (showNoSpeechDetected st) (lastSpeechDetected st) (hideTimeouts st)
    (supported st) (created st) (started st) v (copiedTimeouts st)
    (clipboard st) (pendingWrites st).

Definition set_copiedTimeouts (v : list Z) (st : App) : App :=
  mkApp (tabs st) (activeTabId st) (activeTabRef st) (isEditingTitle st)
    (editingTitleValue st) (recognition st) (isListening st) (error st)
    (showNoSpeechDetected st) (lastSpeechDetected st) (hideTimeouts st)
    (supported st) (created st) (started st) (copied st) v (clipboard st)
    (pendingWrites st).

Definition set_clipboard (v : option string) (st : App) : App :=
  mkApp (tabs st) (activeTabId st) (activeTabRef st) (isEditingTitle st)
    (editingTitleValue st) (recognition st) (isListening st) (error st)
    (showNoSpeechDetected st) (lastSpeechDetected st) (hideTimeouts st)
    (supported st) (created st) (started st) (copied st)
    (copiedTimeouts st) v (pendingWrites st).

Definition set_pendingWrites (v : list string) (st : App) : App :=
  mkApp (tabs st) (activeTabId st) (activeTabRef st) (isEditingTitle st)
    (editingTitleValue st) (recognition st) (isListening st) (error st)
    (showNoSpeechDetected st) (lastSpeechDetected st) (hideTimeouts st)
    (supported st) (created st) (started st) (copied st)
    (copiedTimeouts st) (clipboard st) v.

(** *** Initialisation *)

(** What [JSON.parse(decodeURIComponent(...))] makes of the [tabs] cookie: it
    throws, or it yields the tab list that was saved. *)
Inductive Saved : Type :=
| ParseError
| Parsed (saved : list Tab).

(** The initialiser of [tabs]; [savedTabs] is [None] when no cookie row
    starts with ['tabs=']. *)
Definition initial_tabs (savedTabs : option Saved) : list Tab :=
  match savedTabs with
  | Some (Parsed saved) => saved
  | Some ParseError => [mkTab "1" "Untitled 1" ""]
  | None => [mkTab "1" "Untitled 1" ""]
  end.

(** The initialiser of [activeTabId]; [savedActiveTab] is the value of the
    [activeTab] cookie when there is one. *)
Definition initial_activeTabId (savedActiveTab : option string)
  : option string :=
  match savedActiveTab with
  | Some v => Some v
  | None => Some "1"
  end.

(** The effect that copies [activeTabId] into the ref cell after a render
    in which [activeTabId] changed. *)
Definition sync_activeTabRef (st : App) : App :=
  set_activeTabRef (activeTabId st) st.

(** The effect that depends on [tabs]: it runs after the first render and
    after every render in which [tabs] was set.  It creates a new recognition
    object, gives it a handler that closes over the [tabs] of that render,
    and stores it in React state.  A recognition object created earlier is
    left as it is. *)
Definition recognition_effect (st : App) : App :=
  if supported st then
    set_created (S (created st))
      (setRecognition (Some (mkRecognition (created st) (tabs st))) st)
  else setError "Speech recognition is not supported in this browser." st.

(** The state after the first render and its effects, at time [now]. *)
Definition mount (savedTabs : option Saved) (savedActiveTab : option string)
  (speech : bool) (now : Z) : App :=
  recognition_effect
    (sync_activeTabRef
       (mkApp (initial_tabs savedTabs) (initial_activeTabId savedActiveTab)
          (Some "1") None "" None false "" false now [] speech 0 [] false []
          None [])).

(** [tabs.find(tab => tab.id === activeTabId) || tabs[0]] *)
Definition activeTab (st : App) : option Tab :=
  match find (id_is (activeTabId st)) (tabs st) with
  | Some tab => Some tab
  | None => nth_error (tabs st) 0
  end.

(** *** Tab operations *)

Definition updateActiveTabContent (newContent : (string -> string) + string)
  (st : App) : App :=
  setTabs
    (map
       (fun tab =>
          if id_is (activeTabId st) tab then
            with_content tab
              match newContent with
              | inl f => f (content tab)
              | inr v => v
              end
          else tab)
       (tabs st))
    st.

Definition handleTextChange (value : string) (st : App) : App :=
  updateActiveTabContent (inr value) st.

(** [String(n)] for an integer [n]. *)
Definition String_of_Z (n : Z) : string := NilZero.string_of_int (Z.to_int n).

(** [addNewTab], with [now] the value of [Date.now()]. *)
Definition addNewTab (now : Z) (st : App) : App :=
  let newTabId := String_of_Z now in
  let newTabNumber := (Z.of_nat (List.length (tabs st)) + 1)%Z in
  let newTab :=
    mkTab newTabId ("Untitled " ++ String_of_Z newTabNumber) "" in
  setEditingTitleValue ("Untitled " ++ String_of_Z newTabNumber)
    (setIsEditingTitle (Some newTabId)
       (setActiveTabId (Some newTabId)
          (setTabs (tabs st ++ [newTab]) st))).

(** [tabs.findIndex(p)]: the first index where [p] holds, or [-1]. *)
Fixpoint findIndex (p : Tab -> bool) (l : list Tab) : Z :=
  match l with
  | [] => -1
  | tab :: l' =>
      if p tab then 0
      else let i := findIndex p l' in if i <? 0 then -1 else i + 1
  end%Z.

(** [tabs[i]?.id] *)
Definition id_at (l : list Tab) (i : Z) : option string :=
  if (i <? 0)%Z then None else option_map id (nth_error l (Z.to_nat i)).

Definition closeTab (tabId : string) (st : App) : App :=
  if (List.length (tabs st) =? 1)%nat then st
  else
    let st' :=
      setTabs (filter (fun tab => negb (id tab =? tabId)) (tabs st)) st in
    if match activeTabId st with
       | Some a => a =? tabId
       | None => false
       end
    then
      let tabIndex := findIndex (fun tab => id tab =? tabId) (tabs st) in
      let nextTabId :=
        or_else (id_at (tabs st) (tabIndex - 1))
                (id_at (tabs st) (tabIndex + 1)) in
      setActiveTabId nextTabId st'
    else st'.

Definition startEditingTitle (tabId currentTitle : string) (st : App) : App :=
  setEditingTitleValue currentTitle (setIsEditingTitle (Some tabId) st).

Definition handleTitleChange (value : string) (st : App) : App :=
  setEditingTitleValue value st.

Definition finishEditingTitle (st : App) : App :=
  let st' :=
    match isEditingTitle st with
    | Some editing =>
        if truthy editing then
          setTabs
            (map
               (fun tab =>
                  if id tab =? editing then
                    with_title tab
                      (if truthy (trim (editingTitleValue st))
                       then trim (editingTitleValue st)
                       else "Untitled")
                  else tab)
               (tabs st))
            st
        else st
    | None => st
    end in
  setEditingTitleValue "" (setIsEditingTitle None st').

Definition handleTitleKeyDown (key : string) (st : App) : App :=
  if key =? "Enter" then finishEditingTitle st
  else if key =? "Escape" then
    setEditingTitleValue "" (setIsEditingTitle None st)
  else st.

Definition handleTabClick (tabId : string) (st : App) : App :=
  let st' := setActiveTabId (Some tabId) st in
  if match activeTabId st with
     | Some a => tabId =? a
     | None => false
     end
  then
    match find (fun t => id t =? tabId) (tabs st) with
    | Some tab => startEditingTitle tabId (title tab) st'
    | None => st'
    end
  else st'.

(** *** Listening and the silence watchdog *)

(** The effect on [isListening]: when listening is off the interval is
    cleared and the notice hidden. *)
Definition listening_effect (st : App) : App :=
  if isListening st then st else setShowNoSpeechDetected false st.

(** [r.stop()] and the end of a session: [r] is no longer started. *)
Definition without (r : Recognition) (l : list Recognition)
  : list Recognition :=
  filter (fun x => negb (serial x =? serial r)%nat) l.

(** [toggleListening]: [start] and [stop] are called on the recognition
    object held in React state. *)
Definition toggleListening (now : Z) (st : App) : App :=
  match recognition st with
  | None => st
  | Some r =>
      let st' :=
        if isListening st then set_started (without r (started st)) st
        else set_lastSpeechDetected now
               (set_started (started st ++ [r])%list st) in
      setShowNoSpeechDetected false
        (setIsListening (negb (isListening st)) st')
  end.

(** [recognition.onerror] *)
Definition onerror (event_error : string) (st : App) : App :=
  setIsListening false
    (setError ("Error occurred in recognition: " ++ event_error) st).

(** The interval callback, with [now] the value of [Date.now()]. *)
Definition checkSpeechDetection (now : Z) (st : App) : App :=
  let timeSinceLastSpeech := (now - lastSpeechDetected st)%Z in
  if (timeSinceLastSpeech >? 5000)%Z then
    set_hideTimeouts (hideTimeouts st ++ [(now + 3000)%Z])
      (setShowNoSpeechDetected true st)
  else st.

(** The oldest pending [setTimeout] callback runs. *)
Definition hide_timeout (st : App) : App :=
  match hideTimeouts st with
  | [] => st
  | _ :: pending => set_hideTimeouts pending (setShowNoSpeechDetected false st)
  end.

(** *** The copy button *)

(** [copyToClipboard] up to its [await]: the content of the active tab is
    handed to [navigator.clipboard.writeText].  Reading [activeTab.content]
    throws when there is no tab, and so does the call when the browser has
    no [navigator.clipboard] ([available] is [false]); both happen inside
    the [try] block, and the [catch] clause sets the error at once. *)
Definition copyToClipboard (available : bool) (st : App) : App :=
  match activeTab st with
  | Some tab =>
      if available
      then set_pendingWrites (pendingWrites st ++ [content tab]) st
      else setError "Failed to copy text to clipboard" st
  | None => setError "Failed to copy text to clipboard" st
  end.

(** [copyToClipboard] after its [await], at time [now]: the promise of the
    oldest pending write is fulfilled, or it is rejected and the [catch]
    clause sets the error. *)
Definition clipboard_settled (now : Z) (written : bool) (st : App) : App :=
  match pendingWrites st with
  | [] => st
  | text :: pending =>
      let st' := set_pendingWrites pending st in
      if written then
        set_copiedTimeouts (copiedTimeouts st ++ [(now + 2000)%Z])
          (setCopied true (set_clipboard (Some text) st'))
      else setError "Failed to copy text to clipboard" st'
  end.

(** The oldest pending [setTimeout] callback of the copy button runs. *)
Definition copied_timeout (st : App) : App :=
  match copiedTimeouts st with
  | [] => st
  | _ :: pending => set_copiedTimeouts pending (setCopied false st)
  end.

(** A result event reaches the handler whose closure captured [captured]:
    the tab update of [onresult], then the reset of the watchdog; the early
    return skips both. *)
Definition result_event (captured : list Tab) (now : Z) (transcript : string)
  (st : App) : Outcome App :=
  match find (id_is (activeTabRef st)) captured with
  | None => Done st
  | Some _ =>
      bind (onresult captured (activeTabRef st) transcript (tabs st))
        (fun next =>
           Done (setShowNoSpeechDetected false
                   (set_lastSpeechDetected now (setTabs next st))))
  end.

(** *** Events *)

Inductive Event : Type :=
| AddNewTab (now : Z)
| CloseTab (tabId : string)
| TabClick (tabId : string)
| StartEditingTitle (tabId : string)
| TitleChange (value : string)
| TitleKeyDown (key : string)
| TitleBlur
| TextChange (value : string)
| ToggleListening (now : Z)
| RecognitionResult (r : Recognition) (now : Z) (transcript : string)
| RecognitionError (r : Recognition) (event_error : string)
| IntervalTick (now : Z)
| HideTimeout
| CopyToClipboard (available : bool)
| ClipboardSettled (now : Z) (written : bool)
| CopiedTimeout.

(** [finishEditingTitle] sets the tabs when a title is being edited. *)
Definition editing (st : App) : bool :=
  match isEditingTitle st with
  | Some e => truthy e
  | None => false
  end.

(** One event, followed by the effects of the render it causes: the ref cell
    follows a change of [activeTabId], a new recognition object follows a
    call of [setTabs].  A result or an error comes from a started recognition
    object [r] and goes to the handlers of that object. *)
Definition step (ev : Event) (st : App) : Outcome App :=
  match ev with
  | AddNewTab now =>
      Done (recognition_effect (sync_activeTabRef (addNewTab now st)))
  | CloseTab tabId =>
      if (List.length (tabs st) =? 1)%nat then Done st
      else Done (recognition_effect (sync_activeTabRef (closeTab tabId st)))
  | TabClick tabId => Done (sync_activeTabRef (handleTabClick tabId st))
  | StartEditingTitle tabId =>
      match find (fun t => id t =? tabId) (tabs st) with
      | Some tab => Done (startEditingTitle tabId (title tab) st)
      | None => Done st
      end
  | TitleChange value => Done (handleTitleChange value st)
  | TitleKeyDown key =>
      if (key =? "Enter") && editing st
      then Done (recognition_effect (handleTitleKeyDown key st))
      else Done (handleTitleKeyDown key st)
  | TitleBlur =>
      if editing st then Done (recognition_effect (finishEditingTitle st))
      else Done (finishEditingTitle st)
  | TextChange value => Done (recognition_effect (handleTextChange value st))
  | ToggleListening now => Done (listening_effect (toggleListening now st))
  | RecognitionResult r now transcript =>
      match find (id_is (activeTabRef st)) (handler_tabs r) with
      | None => Done st
      | Some _ =>
          bind (result_event (handler_tabs r) now transcript st)
            (fun st' => Done (recognition_effect st'))
      end
  | RecognitionError r e =>
      Done (listening_effect
              (onerror e (set_started (without r (started st)) st)))
  | IntervalTick now => Done (checkSpeechDetection now st)
  | HideTimeout => Done (hide_timeout st)
  | CopyToClipboard available => Done (copyToClipboard available st)
  | ClipboardSettled now written => Done (clipboard_settled now written st)
  | CopiedTimeout => Done (copied_timeout st)
  end.

(** What the page lets happen: tab buttons exist for the tabs shown, the
    close button only while more than one tab is open, a new tab takes its id
    from a clock value not used before, the interval runs while listening,
    results and errors come from started recognition objects, a timeout
    callback runs when one is pending, a promise settles when a write is
    pending. *)
Definition enabled (ev : Event) (st : App) : Prop :=
  match ev with
  | AddNewTab now => ~ In (String_of_Z now) (map id (tabs st))
  | CloseTab tabId =>
      In tabId (map id (tabs st)) /\ (1 < List.length (tabs st))%nat
  | TabClick tabId => In tabId (map id (tabs st))
  | StartEditingTitle tabId => In tabId (map id (tabs st))
  | RecognitionResult r _ _ => In r (started st)
  | RecognitionError r _ => In r (started st)
  | IntervalTick _ => isListening st = true
  | HideTimeout => hideTimeouts st <> []
  | ClipboardSettled _ _ => pendingWrites st <> []
  | CopiedTimeout => copiedTimeouts st <> []
  | _ => True
  end.

Inductive reachable (s0 : App) : App -> Prop :=
| reachable_start : reachable s0 s0
| reachable_step (st st' : App) (ev : Event) :
    reachable s0 st -> enabled ev st -> step ev st = Done st' ->
    reachable s0 st'.

(** Run a list of events, stopping at the first that throws. *)
Fixpoint run (evs : list Event) (st : App) : Outcome App :=
  match evs with
  | [] => Done st
  | ev :: evs' => bind (step ev st) (run evs')
  end.

(** *** Sample states and traces *)

(** Three tabs, the middle one active, on a page without speech
    recognition. *)
Definition three_tabs : App :=
  mkApp [mkTab "1" "Untitled 1" "a"; mkTab "17" "Untitled 2" "b";
         mkTab "23" "Untitled 3" "c"]
    (Some "17") (Some "17") None "" None false "" false 0 [] false 0 []
    false [] None [].

(** A fresh page with speech recognition, loaded at time 0 without saved
    state. *)
Definition fresh_page : App := mount None None true 0.

(** The recognition object created when the fresh page is mounted. *)
Definition first_recognition : Recognition :=
  mkRecognition 0 [mkTab "1" "Untitled 1" ""].

(** A new tab is opened at clock value 1700 and the first tab is closed. *)
Definition opened_then_closed : App :=
  recognition_effect
    (sync_activeTabRef
       (closeTab "1"
          (recognition_effect
             (sync_activeTabRef (addNewTab 1700 fresh_page))))).

(** Listening since time 0, with no utterance so far. *)
Definition silent_session : App :=
  listening_effect (toggleListening 0 fresh_page).

(** Listening starts on the fresh page and "hello world" is recognised
    twice. *)
Definition dictated_twice : list Event :=
  [ToggleListening 0;
   RecognitionResult first_recognition 1000 "hello world";
   RecognitionResult first_recognition 2000 "hello world"].

(** Listening starts on the fresh page, a new tab is opened, which makes it
    the active one, and "hello" is recognised. *)
Definition dictated_into_new_tab : list Event :=
  [ToggleListening 0; AddNewTab 1700;
   RecognitionResult first_recognition 2000 "hello"].

(** Every event of a trace is one the page lets happen. *)
Fixpoint trace_enabled (evs : list Event) (st : App) : Prop :=
  match evs with
  | [] => True
  | ev :: evs' =>
      enabled ev st /\
      match step ev st with
      | Done st' => trace_enabled evs' st'
      | TypeError => True
      end
  end.

(** *** Store invariants *)

(** The tab list is non-empty and its ids are distinct and non-empty. *)
Definition wf_tabs (l : list Tab) : Prop :=
  l <> [] /\ NoDup (map id l) /\ ~ In "" (map id l).


(** ** Vocabulary of the statements *)

(** The content is at the start of a sentence: it is empty or ends with a
    full stop, an exclamation mark or a question mark followed by a space. *)
Definition sentence_start (content : string) : Prop :=
  content = "" \/ (exists q, content = q ++ ". ") \/
  (exists q, content = q ++ "! ") \/ (exists q, content = q ++ "? ").

(** [P] is [T] with its first code unit in upper case. *)
Definition capitalized (T P : string) : Prop :=
  P = toUpperCase (charAt0 T) ++ slice1 T.

(** The characters of [s] at positions [i - 1] and [i] are both spaces. *)
Definition double_space_before (i : nat) (s : string) : Prop :=
  exists j, i = S j /\ String.get j s = Some " "%char /\
            String.get i s = Some " "%char.

(** [key] is a command of the table whose substitution starts with a line
    break. *)
Definition line_break_command (key : string) : Prop :=
  exists v, own_property DICTATION_COMMANDS key = Some v /\
            startsWith v nl = true.

(** ** The saved active id *)

(** The part of [s] before its first ['=']. *)
Fixpoint before_equals (s : string) : string :=
  match s with
  | EmptyString => EmptyString
  | String c s' =>
      if (c =? "=")%char then EmptyString else String c (before_equals s')
  end.

(** The part of [s] after its first ['='], when it has one. *)
Fixpoint after_equals (s : string) : option string :=
  match s with
  | EmptyString => None
  | String c s' => if (c =? "=")%char then Some s' else after_equals s'
  end.

(** [row.split('=')[1]] *)
Definition split_equals_1 (row : string) : option string :=
  option_map before_equals (after_equals row).

(** The initialiser of [activeTabId], from the rows that
    [document.cookie.split('; ')] yields: the first row that starts with
    ['activeTab='] gives the id, and ['1'] is used when there is none. *)
Definition saved_activeTabId (rows : list string) : option string :=
  match find (fun row => startsWith row "activeTab=") rows with
  | Some savedActiveTab => split_equals_1 savedActiveTab
  | None => Some "1"
  end.

(** The row the effect that saves the state writes for the active id:
    [`activeTab=${activeTabId}`], where [undefined] prints as its name. *)
Definition activeTab_row (activeTabId : option string) : string :=
  "activeTab=" ++ match activeTabId with
                  | Some a => a
                  | None => "undefined"
                  end.

(** ** More vocabulary *)

(** Every byte of [s] is white space of one byte. *)
Fixpoint all_space (s : string) : bool :=
  match s with
  | EmptyString => true
  | String c s' => is_space c && all_space s'
  end.

(** No byte of [s] is a capital letter of the ASCII range. *)
Fixpoint no_capital (s : string) : bool :=
  match s with
  | EmptyString => true
  | String c s' => negb (is_upper c) && no_capital s'
  end.

(** Every byte of [s] is above the ASCII range. *)
Fixpoint above_ascii (s : string) : bool :=
  match s with
  | EmptyString => true
  | String c s' => (0x80 <=? code c)%N && above_ascii s'
  end.

(** What follows the white space of one code point at the start of [s],
    when [s] starts with white space. *)
Definition skip_space (s : string) : option string :=
  match s with
  | String b1 s1 =>
      if is_space b1 then Some s1
      else
        match s1 with
        | String b2 s2 =>
            if is_space2 b1 b2 then Some s2
            else
              match s2 with
              | String b3 s3 => if is_space3 b1 b2 b3 then Some s3 else None
              | EmptyString => None
              end
        | EmptyString => None
        end
  | EmptyString => None
  end.

(** [s] has no ['=']. *)
Fixpoint no_equals (s : string) : bool :=
  match s with
  | EmptyString => true
  | String c s' => negb (c =? "=")%char && no_equals s'
  end.

(** The notice is shown only while listening, and then a hide is pending. *)
Definition notice_is_backed (st : App) : Prop :=
  showNoSpeechDetected st = true ->
  isListening st = true /\ hideTimeouts st <> []%list.

(** The copy mark is shown only after the page has written to the
    clipboard, and then a callback that takes it back is pending. *)
Definition copy_mark_is_backed (st : App) : Prop :=
  copied st = true ->
  copiedTimeouts st <> []%list /\ clipboard st <> None.

(** Recognition objects are numbered in the order of their creation: the
    page offers speech recognition, and the objects started and the object
    held were all created before the next one to come. *)
Definition serials_in_order (st : App) : Prop :=
  supported st = true /\
  (forall r, In r (started st) -> (serial r < created st)%nat) /\
  (forall r, recognition st = Some r -> (serial r < created st)%nat).

(** A page without speech recognition: nothing listens, and the error
    shown is the notice of the missing support or that of a failed copy. *)
Definition without_speech (st : App) : Prop :=
  supported st = false /\ isListening st = false /\
  recognition st = None /\ started st = []%list /\
  showNoSpeechDetected st = false /\
  (error st = "Speech recognition is not supported in this browser." \/
   error st = "Failed to copy text to clipboard").

(** ** Facts about strings *)

Section StringFacts.

Lemma append_empty_r (s : string) : s ++ "" = s.
Proof. induction s as [|c s IH]; simpl; [reflexivity | now rewrite IH]. Qed.

Lemma append_assoc (a b c : string) : (a ++ b) ++ c = a ++ (b ++ c).
Proof. induction a as [|x a IH]; simpl; [reflexivity | now rewrite IH]. Qed.

Lemma append_eq_empty (a b : string) : a ++ b = "" -> a = "" /\ b = "".
Proof. destruct a; simpl; [auto | discriminate]. Qed.

Lemma truthy_true (s : string) : truthy s = true <-> s <> "".
Proof.
  unfold truthy. rewrite negb_true_iff. apply String.eqb_neq.
Qed.

Lemma truthy_false (s : string) : truthy s = false <-> s = "".
Proof.
  unfold truthy. rewrite negb_false_iff. apply String.eqb_eq.
Qed.

(** [endsWith] against its specification. *)
Lemma endsWith_spec (s p : string) :
  endsWith s p = true <-> exists q, s = q ++ p.
Proof.
  induction s as [|c s IH]; cbn [endsWith].
  - rewrite orb_false_r, String.eqb_eq. split.
    + intros <-. now exists "".
    + intros [q Hq]. symmetry in Hq.
      apply append_eq_empty in Hq. symmetry. tauto.
  - rewrite orb_true_iff, String.eqb_eq, IH. split.
    + intros [<- | [q ->]]; [now exists "" | now exists (String c q)].
    + intros [[|d q] Hq]; simpl in Hq; [now left |].
      injection Hq as _ ->. right. now exists q.
Qed.

Lemma endsWith_append (q p : string) : endsWith (q ++ p) p = true.
Proof. apply endsWith_spec. now exists q. Qed.

Lemma lastChar_append (a b : string) :
  b <> "" -> lastChar (a ++ b) = lastChar b.
Proof.
  intros Hb. induction a as [|c a IH]; simpl; [reflexivity |].
  destruct (a ++ b) eqn:E; [|exact IH].
  apply append_eq_empty in E. tauto.
Qed.

Lemma lastChar_snoc (a : string) (c : ascii) :
  lastChar (a ++ String c "") = Some c.
Proof. rewrite lastChar_append; [reflexivity | discriminate]. Qed.

Lemma lastChar_none (s : string) : lastChar s = None -> s = "".
Proof.
  induction s as [|c s IH]; [reflexivity |]. simpl.
  destruct s; [discriminate |]. intros H. now apply IH in H.
Qed.

Lemma snoc_inj (a b : string) (c d : ascii) :
  a ++ String c "" = b ++ String d "" -> a = b /\ c = d.
Proof.
  revert b. induction a as [|x a IH]; intros [|y b]; simpl; intros H.
  - now injection H.
  - injection H as _ H. destruct b; discriminate.
  - injection H as _ H. destruct a; discriminate.
  - injection H as -> H. apply IH in H. destruct H as [-> ->]. auto.
Qed.

Lemma unsnoc (s : string) :
  s <> "" -> exists q c, s = q ++ String c "".
Proof.
  induction s as [|x s IH]; [congruence |]. intros _.
  destruct s as [|y s].
  - now exists "", x.
  - destruct IH as (q & c & E); [discriminate |].
    exists (String x q), c. simpl. now rewrite <- E.
Qed.

Lemma endsWith_char (s : string) (c : ascii) :
  endsWith s (String c "") = true <-> lastChar s = Some c.
Proof.
  rewrite endsWith_spec. split.
  - intros [q ->]. apply lastChar_snoc.
  - intros H. destruct s as [|x s]; [discriminate |].
    destruct (unsnoc (String x s)) as (q & d & E); [discriminate |].
    rewrite E in H. rewrite lastChar_snoc in H. injection H as ->.
    now exists q.
Qed.

Lemma endsWith_char_false (s : string) (c : ascii) :
  endsWith s (String c "") = false <-> lastChar s <> Some c.
Proof.
  rewrite <- endsWith_char. destruct (endsWith s (String c "")); split;
    congruence.
Qed.

(** A suffix of two characters fixes the last character and the one before
    it. *)
Lemma endsWith_snoc2 (x : string) (c d e : ascii) :
  endsWith (x ++ String e "") (String c (String d "")) = true ->
  e = d /\ lastChar x = Some c.
Proof.
  rewrite endsWith_spec. intros [q H].
  change (String c (String d "")) with (String c "" ++ String d "") in H.
  rewrite <- append_assoc in H. apply snoc_inj in H. destruct H as [-> ->].
  split; [reflexivity | apply lastChar_snoc].
Qed.

Lemma dropLast_snoc (q : string) (c : ascii) :
  dropLast (q ++ String c "") = q.
Proof.
  induction q as [|x q IH]; [reflexivity |].
  change (String x q ++ String c "") with (String x (q ++ String c "")).
  cbn [dropLast]. destruct (q ++ String c "") eqn:E.
  - apply append_eq_empty in E. destruct E; discriminate.
  - now rewrite IH.
Qed.

Lemma length_append (a b : string) :
  String.length (a ++ b) = (String.length a + String.length b)%nat.
Proof. induction a as [|c a IH]; simpl; [reflexivity | now rewrite IH]. Qed.

Lemma get_append_right (a b : string) (n : nat) :
  String.get (String.length a + n) (a ++ b) = String.get n b.
Proof. induction a as [|c a IH]; simpl; [reflexivity | exact IH]. Qed.

End StringFacts.

(** *** Bytes *)

Section Bytes.

Lemma code_byte (n : N) : (n < 256)%N -> code (byte n) = n.
Proof. apply N_ascii_embedding. Qed.

Lemma is_upper_code (c : ascii) :
  is_upper c = ((0x41 <=? code c) && (code c <=? 0x5A))%N.
Proof. destruct c as [[] [] [] [] [] [] [] []]; reflexivity. Qed.

Lemma is_space_code (c : ascii) :
  is_space c
  = (((0x09 <=? code c) && (code c <=? 0x0D)) || (code c =? 0x20))%N.
Proof. destruct c as [[] [] [] [] [] [] [] []]; reflexivity. Qed.

Lemma space_upper_char (c : ascii) : is_space (upper_char c) = is_space c.
Proof. destruct c as [[] [] [] [] [] [] [] []]; reflexivity. Qed.

Lemma space_lower_char (c : ascii) : is_space (lower_char c) = is_space c.
Proof. destruct c as [[] [] [] [] [] [] [] []]; reflexivity. Qed.

Lemma is_space_ascii (c : ascii) :
  is_space c = true -> (code c <? 0x80)%N = true.
Proof.
  rewrite is_space_code. intros H. apply N.ltb_lt.
  apply orb_true_iff in H. destruct H as [H | H].
  - apply andb_true_iff in H. destruct H as [_ H]. apply N.leb_le in H. lia.
  - apply N.eqb_eq in H. lia.
Qed.

Lemma is_space2_ascii (b1 b2 : ascii) :
  (code b1 <? 0x80)%N = true -> is_space2 b1 b2 = false.
Proof.
  intros H. apply N.ltb_lt in H. unfold is_space2.
  destruct (N.eqb_spec (code b1) 0xC2); [lia | reflexivity].
Qed.

Lemma is_space3_ascii (b1 b2 b3 : ascii) :
  (code b1 <? 0x80)%N = true -> is_space3 b1 b2 b3 = false.
Proof.
  intros H. apply N.ltb_lt in H. unfold is_space3.
  destruct (N.eqb_spec (code b1) 0xE1); [lia |].
  destruct (N.eqb_spec (code b1) 0xE2); [lia |].
  destruct (N.eqb_spec (code b1) 0xE3); [lia |].
  destruct (N.eqb_spec (code b1) 0xEF); [lia | reflexivity].
Qed.

End Bytes.

(** *** Trimming *)

Section Trim.

Lemma trimStart_unfold (s : string) :
  trimStart s = match skip_space s with
                | Some r => trimStart r
                | None => s
                end.
Proof.
  destruct s as [|b1 [|b2 [|b3 s3]]]; cbn [trimStart skip_space];
    try reflexivity.
  - now destruct (is_space b1).
  - destruct (is_space b1); [reflexivity |].
    now destruct (is_space2 b1 b2).
  - destruct (is_space b1); [reflexivity |].
    destruct (is_space2 b1 b2); [reflexivity |].
    now destruct (is_space3 b1 b2 b3).
Qed.

(** What [skip_space] takes away is a non-empty piece at the start, which
    is white space in front of anything. *)
Lemma skip_space_piece (s r : string) :
  skip_space s = Some r ->
  exists w, s = w ++ r /\ w <> "" /\
            forall t, skip_space (w ++ t) = Some t.
Proof.
  destruct s as [|b1 s1]; cbn [skip_space]; [discriminate |].
  destruct (is_space b1) eqn:E1.
  { intros H. injection H as <-. exists (String b1 "").
    split; [reflexivity |]. split; [discriminate |].
    intros t. cbn. now rewrite E1. }
  destruct s1 as [|b2 s2]; [discriminate |].
  destruct (is_space2 b1 b2) eqn:E2.
  { intros H. injection H as <-. exists (String b1 (String b2 "")).
    split; [reflexivity |]. split; [discriminate |].
    intros t. cbn. now rewrite E1, E2. }
  destruct s2 as [|b3 s3]; [discriminate |].
  destruct (is_space3 b1 b2 b3) eqn:E3; [| discriminate].
  intros H. injection H as <-.
  exists (String b1 (String b2 (String b3 ""))).
  split; [reflexivity |]. split; [discriminate |].
  intros t. cbn. now rewrite E1, E2, E3.
Qed.

Lemma skip_space_shorter (s r : string) :
  skip_space s = Some r -> (String.length r < String.length s)%nat.
Proof.
  intros H. apply skip_space_piece in H. destruct H as (w & -> & Hw & _).
  rewrite length_append. destruct w; [congruence | simpl; lia].
Qed.

Lemma skip_space_app (a b r : string) :
  skip_space a = Some r -> skip_space (a ++ b) = Some (r ++ b).
Proof.
  intros H. apply skip_space_piece in H. destruct H as (w & -> & _ & Hw).
  rewrite append_assoc. apply Hw.
Qed.

(** Induction on the length of a string. *)
Lemma string_length_ind (P : string -> Prop) :
  (forall s, (forall r, (String.length r < String.length s)%nat -> P r) ->
             P s) ->
  forall s, P s.
Proof.
  intros H s. remember (String.length s) as n eqn:E.
  revert s E. induction n as [n IH] using lt_wf_ind.
  intros s ->. apply H. intros r Hr. now apply (IH (String.length r)).
Qed.

Lemma trimStart_suffix (s : string) : exists p, s = p ++ trimStart s.
Proof.
  induction s as [s IH] using string_length_ind.
  rewrite trimStart_unfold. destruct (skip_space s) as [r|] eqn:E.
  - destruct (IH r (skip_space_shorter _ _ E)) as [p Hp].
    apply skip_space_piece in E. destruct E as (w & -> & _).
    exists (w ++ p). now rewrite append_assoc, <- Hp.
  - now exists "".
Qed.

Lemma trimStart_length (s : string) :
  (String.length (trimStart s) <= String.length s)%nat.
Proof.
  destruct (trimStart_suffix s) as [p Hp]. rewrite Hp at 2.
  rewrite length_append. lia.
Qed.

Lemma trimStart_skips_none (s : string) : skip_space (trimStart s) = None.
Proof.
  induction s as [s IH] using string_length_ind.
  rewrite trimStart_unfold. destruct (skip_space s) as [r|] eqn:E.
  - apply IH. now apply skip_space_shorter.
  - exact E.
Qed.

Lemma trimStart_fixed (s : string) : skip_space s = None -> trimStart s = s.
Proof. intros H. rewrite trimStart_unfold. now rewrite H. Qed.

Lemma trimStart_fixed_inv (s : string) : trimStart s = s -> skip_space s = None.
Proof. intros H. rewrite <- H. apply trimStart_skips_none. Qed.

Lemma trimStart_idem (s : string) : trimStart (trimStart s) = trimStart s.
Proof. apply trimStart_fixed, trimStart_skips_none. Qed.

(** White space in front of a string does not count. *)
Lemma trimStart_blank_app (a b : string) :
  blank a = true -> trimStart (a ++ b) = trimStart b.
Proof.
  unfold blank. induction a as [a IH] using string_length_ind.
  intros H. apply String.eqb_eq in H.
  rewrite trimStart_unfold in H.
  destruct (skip_space a) as [r|] eqn:E.
  - rewrite (trimStart_unfold (a ++ b)), (skip_space_app _ b _ E).
    apply IH; [now apply skip_space_shorter |]. now apply String.eqb_eq.
  - subst a. reflexivity.
Qed.

Lemma blank_app (a b : string) :
  blank a = true -> blank (a ++ b) = blank b.
Proof. intros H. unfold blank. now rewrite (trimStart_blank_app _ _ H). Qed.

Lemma blank_space (c : ascii) : is_space c = true -> blank (String c "") = true.
Proof. intros H. unfold blank. cbn. now rewrite H. Qed.

(** A string that does not start with white space has no prefix that
    does. *)
Lemma trimStart_prefix (y q : string) :
  trimStart (y ++ q) = y ++ q -> trimStart y = y.
Proof.
  intros H. apply trimStart_fixed. apply trimStart_fixed_inv in H.
  destruct (skip_space y) as [r|] eqn:E; [| reflexivity].
  rewrite (skip_space_app _ q _ E) in H. discriminate.
Qed.

Lemma trimEnd_split (s : string) :
  exists q, s = trimEnd s ++ q /\ blank q = true.
Proof.
  induction s as [|c s IH]; [now exists "" |]. cbn [trimEnd].
  destruct (blank (String c s)) eqn:E.
  - now exists (String c s).
  - destruct IH as (q & Hq & Bq). exists q. split; [| exact Bq].
    cbn. now rewrite <- Hq.
Qed.

(** No white space reaches to the end of what [trimEnd] leaves. *)
Lemma trimEnd_no_blank_suffix (s p w : string) :
  trimEnd s = p ++ w -> w <> "" -> blank w = false.
Proof.
  revert p. induction s as [|c s IH]; intros p H Hw.
  - cbn in H. symmetry in H. apply append_eq_empty in H. tauto.
  - cbn [trimEnd] in H. destruct (blank (String c s)) eqn:E.
    + symmetry in H. apply append_eq_empty in H. tauto.
    + destruct p as [|x p]; cbn in H.
      * destruct (blank w) eqn:Bw; [| reflexivity].
        destruct (trimEnd_split s) as (q & Hq & Bq).
        assert (Es : String c s = w ++ q).
        { rewrite <- H. cbn. now rewrite <- Hq. }
        rewrite Es, (blank_app _ _ Bw), Bq in E. discriminate.
      * injection H as -> H. now apply (IH p).
Qed.



Lemma trimStart_trim (s : string) : trimStart (trim s) = trim s.
Proof.
  unfold trim. destruct (trimEnd_split (trimStart s)) as (q & Hq & _).
  apply (trimStart_prefix _ q). rewrite <- Hq. apply trimStart_idem.
Qed.


(** What [trim] leaves neither starts nor ends with white space. *)
Lemma trim_no_blank_prefix (s w r : string) :
  trim s = w ++ r -> w <> "" -> blank w = false.
Proof.
  intros H Hw. destruct (blank w) eqn:B; [| reflexivity]. exfalso.
  pose proof (trimStart_trim s) as F. rewrite H in F.
  rewrite (trimStart_blank_app _ _ B) in F.
  pose proof (trimStart_length r) as L. rewrite F, length_append in L.
  destruct w; [congruence | simpl in L; lia].
Qed.

Lemma trim_no_blank_suffix (s p w : string) :
  trim s = p ++ w -> w <> "" -> blank w = false.
Proof. apply trimEnd_no_blank_suffix. Qed.

Lemma trim_first (s : string) (c : ascii) (t : string) :
  trim s = String c t -> is_space c = false.
Proof.
  intros H. destruct (is_space c) eqn:E; [| reflexivity].
  pose proof (trim_no_blank_prefix s (String c "") t H) as B.
  rewrite (blank_space _ E) in B. now apply B.
Qed.

Lemma trim_last (s : string) (c : ascii) :
  lastChar (trim s) = Some c -> is_space c = false.
Proof.
  intros H. destruct (is_space c) eqn:E; [| reflexivity].
  apply endsWith_char, endsWith_spec in H. destruct H as [q H].
  pose proof (trim_no_blank_suffix s q (String c "") H) as B.
  rewrite (blank_space _ E) in B. now apply B.
Qed.

(** [trim] takes a piece out of the string. *)
Lemma trim_piece (s : string) : exists p q, s = p ++ trim s ++ q.
Proof.
  destruct (trimStart_suffix s) as [p Hp].
  destruct (trimEnd_split (trimStart s)) as (q & Hq & _).
  exists p, q. unfold trim. now rewrite <- Hq.
Qed.

End Trim.

(** *** Code points and case mappings *)

Section CodePoints.

Ltac props :=
  repeat match goal with
         | H : (_ && _) = true |- _ => apply andb_true_iff in H; destruct H
         | H : negb _ = false |- _ => apply negb_false_iff in H
         | H : continuation _ = true |- _ => unfold continuation in H
         | H : (_ <? _)%N = true |- _ => apply N.ltb_lt in H
         | H : (_ <? _)%N = false |- _ => apply N.ltb_ge in H
         | H : (_ <=? _)%N = true |- _ => apply N.leb_le in H
         | H : (_ <=? _)%N = false |- _ => apply N.leb_gt in H
         end.

Lemma above_ascii_byte (c : ascii) :
  (0x80 <= code c)%N -> (0x80 <=? code c)%N = true.
Proof. apply N.leb_le. Qed.

Lemma some_triple_inj {A B C : Type} (a a' : A) (b b' : B) (c c' : C) :
  Some (a, b, c) = Some (a', b', c') -> a = a' /\ b = b' /\ c = c'.
Proof. intros H. injection H. auto. Qed.

(** The bytes taken for the first code point are a prefix of the string, they
    are a code point by themselves, and they are one byte of the ASCII
    range or bytes above it. *)
Lemma first_code_point_shape (s : string) (cp : N) (bytes rest : string) :
  first_code_point s = Some (cp, bytes, rest) ->
  s = bytes ++ rest /\
  first_code_point bytes = Some (cp, bytes, "") /\
  (((cp < 0x80)%N /\ exists b, bytes = String b "" /\ code b = cp) \/
   ((0x80 <= cp)%N /\ above_ascii bytes = true)).
Proof.
  intros H. unfold first_code_point in H.
  destruct s as [|b1 s1]; [discriminate |]. cbv zeta in H.
  repeat match type of H with
         | context [if ?b then _ else _] => destruct b eqn:?
         | context [match ?s with
                    | EmptyString => _
                    | String _ _ => _
                    end] => destruct s
         end;
    apply some_triple_inj in H; destruct H as (<- & <- & <-);
    (split; [reflexivity |]);
    (split;
     [ unfold first_code_point;
       repeat match goal with
              | H : ?b = _ |- context [?b] => rewrite H
              end; reflexivity
     | ]);
    props;
    first [ left; split; [assumption | eexists; split; reflexivity]
          | right; split; [lia |]; cbn [above_ascii];
            rewrite ?above_ascii_byte by assumption; reflexivity ].
Qed.

Lemma first_code_point_none (s : string) :
  first_code_point s = None -> s = "".
Proof.
  destruct s as [|b1 s1]; [reflexivity |]. unfold first_code_point.
  cbv zeta.
  repeat match goal with
         | |- context [if ?b then _ else _] => destruct b
         | |- context [match ?s with
                       | EmptyString => _
                       | String _ _ => _
                       end] => destruct s
         end; intros H; exfalso; revert H; generalize 0x110000%N;
    intros; discriminate.
Qed.

Lemma first_code_point_shorter (s : string) (cp : N) (bytes rest : string) :
  first_code_point s = Some (cp, bytes, rest) ->
  (String.length rest < String.length s)%nat.
Proof.
  intros H. apply first_code_point_shape in H.
  destruct H as (-> & F & _). rewrite length_append.
  destruct bytes; [cbn in F; discriminate F | simpl; lia].
Qed.

Lemma first_code_point_ascii (c : ascii) (s : string) :
  (code c <? 0x80)%N = true ->
  first_code_point (String c s) = Some (code c, String c "", s).
Proof. intros H. unfold first_code_point. now rewrite H. Qed.

Lemma encode_low (n : N) : (n < 0x80)%N -> encode n = String (byte n) "".
Proof. intros H. unfold encode. apply N.ltb_lt in H. now rewrite H. Qed.

Lemma high_byte (m : N) :
  (0x80 <= m)%N -> (m < 256)%N -> (0x80 <=? code (byte m))%N = true.
Proof. intros L H. rewrite code_byte by exact H. now apply N.leb_le. Qed.

Lemma encode_above (n : N) :
  (0x80 <= n)%N -> (n < 0x200000)%N -> above_ascii (encode n) = true.
Proof.
  intros Hlo Hhi. unfold encode.
  assert (M : forall m, (m mod 0x40 < 0x40)%N)
    by (intros m; now apply N.mod_lt).
  pose proof (M n) as M0. pose proof (M (n / 0x40)%N) as M1.
  pose proof (M (n / 0x1000)%N) as M2.
  destruct (n <? 0x80)%N eqn:E1; [apply N.ltb_lt in E1; lia |].
  destruct (n <? 0x800)%N eqn:E2; [| destruct (n <? 0x10000)%N eqn:E3].
  - apply N.ltb_lt in E2.
    assert (D : (n / 0x40 < 0x20)%N)
      by (apply N.Div0.div_lt_upper_bound; lia).
    revert M0 D. generalize (n mod 0x40)%N (n / 0x40)%N. intros r q M0 D.
    cbn [above_ascii]. now rewrite !high_byte by lia.
  - apply N.ltb_lt in E3.
    assert (D : (n / 0x1000 < 0x10)%N)
      by (apply N.Div0.div_lt_upper_bound; lia).
    revert M0 M1 D.
    generalize (n mod 0x40)%N ((n / 0x40) mod 0x40)%N (n / 0x1000)%N.
    intros r0 r1 q M0 M1 D.
    cbn [above_ascii]. now rewrite !high_byte by lia.
  - assert (D : (n / 0x40000 < 0x8)%N)
      by (apply N.Div0.div_lt_upper_bound; lia).
    revert M0 M1 M2 D.
    generalize (n mod 0x40)%N ((n / 0x40) mod 0x40)%N
      ((n / 0x1000) mod 0x40)%N (n / 0x40000)%N.
    intros r0 r1 r2 q M0 M1 M2 D.
    cbn [above_ascii]. now rewrite !high_byte by lia.
Qed.

Lemma no_capital_app (a b : string) :
  no_capital (a ++ b) = no_capital a && no_capital b.
Proof.
  induction a as [|c a IH]; [reflexivity |]. cbn. rewrite IH.
  now rewrite andb_assoc.
Qed.

Lemma above_ascii_no_capital (s : string) :
  above_ascii s = true -> no_capital s = true.
Proof.
  induction s as [|c s IH]; [reflexivity |]. cbn. intros H.
  apply andb_true_iff in H. destruct H as [Hc Hs]. rewrite (IH Hs).
  rewrite is_upper_code. apply N.leb_le in Hc.
  destruct (N.leb_spec (code c) 0x5A); [lia |]. now rewrite andb_false_r.
Qed.

Lemma above_ascii_not_space (c : ascii) :
  (0x80 <=? code c)%N = true -> is_space c = false.
Proof.
  intros H. apply N.leb_le in H. destruct (is_space c) eqn:E; [| reflexivity].
  apply is_space_ascii, N.ltb_lt in E. lia.
Qed.

Lemma above_ascii_last (s : string) (c : ascii) :
  above_ascii s = true -> lastChar s = Some c -> is_space c = false.
Proof.
  induction s as [|x s IH]; [discriminate |]. cbn [above_ascii lastChar].
  intros H. apply andb_true_iff in H. destruct H as [Hx Hs].
  destruct s as [|y s].
  - intros E. injection E as <-. now apply above_ascii_not_space.
  - now apply IH.
Qed.

(** A string that is not empty and has no white space of one byte at its
    start or at its end. *)
Lemma edges_bytes (c : ascii) :
  is_space c = false ->
  (forall x t, String c "" = String x t -> is_space x = false) /\
  exists d, lastChar (String c "") = Some d /\ is_space d = false.
Proof.
  intros H. split.
  - intros x t E. now injection E as <- _.
  - now exists c.
Qed.

Lemma encode_edges (n : N) :
  (0x20 < n)%N -> (n < 0x200000)%N ->
  (forall x t, encode n = String x t -> is_space x = false) /\
  exists d, lastChar (encode n) = Some d /\ is_space d = false.
Proof.
  intros Hlo Hhi. destruct (N.lt_ge_cases n 0x80) as [L | G].
  - rewrite (encode_low _ L). apply edges_bytes.
    rewrite is_space_code, code_byte by lia.
    destruct (N.leb_spec n 0x0D); [lia |]. rewrite andb_false_r.
    apply N.eqb_neq. lia.
  - pose proof (encode_above n G Hhi) as A. split.
    + intros x t E. rewrite E in A. cbn in A.
      apply andb_true_iff in A. now apply above_ascii_not_space.
    + destruct (lastChar (encode n)) as [d|] eqn:E.
      * exists d. split; [reflexivity |]. now apply (above_ascii_last _ _ A).
      * apply lastChar_none in E. unfold encode in E.
        repeat match type of E with
               | context [if ?b then _ else _] => destruct b
               end; discriminate.
Qed.

Lemma encode_no_capital (n : N) :
  (0x5A < n)%N -> (n < 0x200000)%N -> no_capital (encode n) = true.
Proof.
  intros Hlo Hhi. destruct (N.lt_ge_cases n 0x80) as [L | G].
  - rewrite (encode_low _ L). cbn. rewrite is_upper_code, code_byte by lia.
    destruct (N.leb_spec n 0x5A); [lia |]. now rewrite andb_false_r.
  - now apply above_ascii_no_capital, encode_above.
Qed.

(** Where a mapping comes from. *)
Lemma mapping_cases (runs : list (N * N * N * N))
  (special : list (N * list N)) (cp : N) (l : list N) :
  mapping runs special cp = Some l ->
  (exists e, In e special /\ snd e = l) \/
  (exists r, In r runs /\ in_run cp r = true /\ l = [run_target cp r]).
Proof.
  unfold mapping.
  destruct (find _ special) as [e|] eqn:F.
  - intros H. injection H as <-. left. exists e.
    apply find_some in F. tauto.
  - destruct (find (in_run cp) runs) as [r|] eqn:G; [| discriminate].
    intros H. injection H as <-. right. exists r.
    apply find_some in G. tauto.
Qed.

Lemma run_target_bounds (cp first last stride target : N) :
  in_run cp (first, last, stride, target) = true ->
  (target <= run_target cp (first, last, stride, target))%N /\
  (run_target cp (first, last, stride, target) <= target + (last - first))%N.
Proof.
  unfold in_run, run_target. intros H.
  apply andb_true_iff in H. destruct H as [H _].
  apply andb_true_iff in H. destruct H as [H1 H2].
  apply N.leb_le in H1, H2. lia.
Qed.

Lemma lower_tables_checked :
  forallb (fun r : N * N * N * N =>
             let '(first, last, _, target) := r in
             (0x5A <? target)%N && (target + (last - first) <? 0x200000)%N)
    lower_runs = true /\
  forallb (fun e : N * list N => no_capital (encode_all (snd e)))
    lower_special = true.
Proof. split; vm_compute; reflexivity. Qed.

Lemma upper_tables_checked :
  forallb (fun r : N * N * N * N =>
             let '(first, last, _, target) := r in
             (0x20 <? target)%N && (target + (last - first) <? 0x200000)%N)
    upper_runs = true /\
  forallb (fun e : N * list N =>
             match encode_all (snd e) with
             | EmptyString => false
             | String x _ =>
                 negb (is_space x)
                 && match lastChar (encode_all (snd e)) with
                    | Some d => negb (is_space d)
                    | None => false
                    end
             end)
    upper_special = true.
Proof. split; vm_compute; reflexivity. Qed.

(** No lower-case mapping gives a capital letter of the ASCII range. *)
Lemma lower_code_point_no_capital (cp : N) (l : list N) :
  lower_code_point cp = Some l -> no_capital (encode_all l) = true.
Proof.
  unfold lower_code_point. destruct (cp <? 0x80)%N eqn:E.
  - destruct (_ && _) eqn:R; [| discriminate]. intros H. injection H as <-.
    apply andb_true_iff in R. destruct R as [R1 R2].
    apply N.leb_le in R1, R2. cbn [encode_all]. rewrite append_empty_r.
    apply encode_no_capital; lia.
  - intros H. apply mapping_cases in H.
    destruct lower_tables_checked as [Cr Cs].
    destruct H as [(e & Hin & <-) | (r & Hin & Hr & ->)].
    + rewrite forallb_forall in Cs. now apply Cs.
    + rewrite forallb_forall in Cr. specialize (Cr r Hin).
      destruct r as [[[first last] stride] target].
      apply andb_true_iff in Cr. destruct Cr as [C1 C2].
      apply N.ltb_lt in C1, C2.
      destruct (run_target_bounds _ _ _ _ _ Hr) as [B1 B2].
      cbn [encode_all]. rewrite append_empty_r.
      apply encode_no_capital; lia.
Qed.

(** No upper-case mapping is empty, or starts or ends with white space of
    one byte. *)
Lemma upper_code_point_edges (cp : N) (l : list N) :
  upper_code_point cp = Some l ->
  (forall x t, encode_all l = String x t -> is_space x = false) /\
  exists d, lastChar (encode_all l) = Some d /\ is_space d = false.
Proof.
  unfold upper_code_point. destruct (cp <? 0x80)%N eqn:E.
  - destruct (_ && _) eqn:R; [| discriminate]. intros H. injection H as <-.
    apply andb_true_iff in R. destruct R as [R1 R2].
    apply N.leb_le in R1, R2. cbn [encode_all]. rewrite append_empty_r.
    apply encode_edges; lia.
  - intros H. apply mapping_cases in H.
    destruct upper_tables_checked as [Cr Cs].
    destruct H as [(e & Hin & <-) | (r & Hin & Hr & ->)].
    + rewrite forallb_forall in Cs. specialize (Cs e Hin).
      destruct (encode_all (snd e)) as [|x t] eqn:Ee; [discriminate |].
      apply andb_true_iff in Cs. destruct Cs as [Cx Cd].
      apply negb_true_iff in Cx. split.
      * intros x' t' E'. now injection E' as <- _.
      * destruct (lastChar (String x t)) as [d|]; [| discriminate].
        exists d. split; [reflexivity |]. now apply negb_true_iff.
    + rewrite forallb_forall in Cr. specialize (Cr r Hin).
      destruct r as [[[first last] stride] target].
      apply andb_true_iff in Cr. destruct Cr as [C1 C2].
      apply N.ltb_lt in C1, C2.
      destruct (run_target_bounds _ _ _ _ _ Hr) as [B1 B2].
      cbn [encode_all]. rewrite append_empty_r.
      apply encode_edges; lia.
Qed.

Lemma lower_from_no_capital (fuel : nat) (after_cased : bool) (s : string) :
  no_capital (lower_from fuel after_cased s) = true.
Proof.
  revert after_cased s. induction fuel as [|fuel IH]; intros ctx s;
    [reflexivity |].
  cbn [lower_from].
  destruct (first_code_point s) as [[[cp bytes] rest]|] eqn:F;
    [| reflexivity].
  rewrite no_capital_app, IH, andb_true_r.
  destruct (cp =? 0x3A3)%N; [now destruct (_ && _) |].
  destruct (lower_code_point cp) as [l|] eqn:L.
  - now apply (lower_code_point_no_capital cp).
  - apply first_code_point_shape in F.
    destruct F as (_ & _ & [(Hlow & b & -> & Hb) | (_ & Hhigh)]).
    + cbn. rewrite andb_true_r, is_upper_code, Hb.
      unfold lower_code_point in L. apply N.ltb_lt in Hlow. rewrite Hlow in L.
      destruct (_ && _); [discriminate | reflexivity].
    + now apply above_ascii_no_capital.
Qed.

(** The normalised transcript has no capital letter of the ASCII range. *)
Lemma normalised_no_capital (s : string) :
  no_capital (trim (toLowerCase s)) = true.
Proof.
  pose proof (lower_from_no_capital (String.length s) false s) as H.
  fold (toLowerCase s) in H.
  destruct (trim_piece (toLowerCase s)) as (p & q & E).
  rewrite E, !no_capital_app in H.
  apply andb_true_iff in H. destruct H as [_ H].
  apply andb_true_iff in H. tauto.
Qed.

End CodePoints.

(** *** The first code unit in upper case *)

Section Capital.

Lemma upper_from_empty (fuel : nat) : upper_from fuel "" = "".
Proof. now destruct fuel. Qed.

(** Upper-casing the bytes of one code point. *)
Lemma toUpperCase_code_point (s : string) (cp : N) (bytes rest : string) :
  first_code_point s = Some (cp, bytes, rest) ->
  toUpperCase bytes = match upper_code_point cp with
                      | Some l => encode_all l
                      | None => bytes
                      end.
Proof.
  intros H. apply first_code_point_shape in H.
  destruct H as (_ & F & _). unfold toUpperCase.
  destruct bytes as [|b bytes]; [cbn in F; discriminate F |].
  cbn [String.length upper_from]. rewrite F, upper_from_empty.
  apply append_empty_r.
Qed.

(** What the dictation branch appends at the start of a sentence: the rest
    of the string after its first code unit in upper case. *)
Lemma capital_edges (T : string) :
  T <> "" ->
  (forall x t, T = String x t -> is_space x = false) ->
  (forall d, lastChar T = Some d -> is_space d = false) ->
  (forall x t, toUpperCase (charAt0 T) ++ slice1 T = String x t ->
               is_space x = false) /\
  exists d, lastChar (toUpperCase (charAt0 T) ++ slice1 T) = Some d /\
            is_space d = false.
Proof.
  intros Hne Hfirst Hlast.
  assert (Hsame : (forall x t, T = String x t -> is_space x = false) /\
                  exists d, lastChar T = Some d /\ is_space d = false).
  { split; [exact Hfirst |]. destruct (lastChar T) as [d|] eqn:E.
    - exists d. auto.
    - now apply lastChar_none in E. }
  unfold charAt0, slice1.
  destruct (first_code_point T) as [[[cp bytes] rest]|] eqn:F.
  2:{ apply first_code_point_none in F. congruence. }
  destruct (two_units cp); [exact Hsame |].
  rewrite (toUpperCase_code_point _ _ _ _ F).
  apply first_code_point_shape in F. destruct F as (ET & F & _).
  assert (Hb : bytes <> "") by (intros ->; cbn in F; discriminate F).
  destruct (upper_code_point cp) as [l|] eqn:U.
  2:{ now rewrite <- ET. }
  destruct (upper_code_point_edges _ _ U) as (Ux & d & Ud & Sd).
  assert (Hl : encode_all l <> "") by (intros E; rewrite E in Ud; discriminate).
  split.
  - intros x t E. destruct (encode_all l) as [|y u]; [congruence |].
    cbn in E. injection E as <- _. now apply (Ux y u).
  - destruct rest as [|r rest].
    + rewrite append_empty_r. now exists d.
    + rewrite lastChar_append by discriminate.
      destruct Hsame as (_ & e & He & Se). exists e. split; [| exact Se].
      rewrite ET in He. now rewrite lastChar_append in He by discriminate.
Qed.

End Capital.

(** *** Strings of ASCII characters *)

Section AsciiRange.

Lemma ascii_only_app (a b : string) :
  ascii_only (a ++ b) = ascii_only a && ascii_only b.
Proof.
  induction a as [|c a IH]; [reflexivity |]. cbn. rewrite IH.
  now rewrite andb_assoc.
Qed.

Lemma all_space_ascii_only (w : string) :
  all_space w = true -> ascii_only w = true.
Proof.
  induction w as [|c w IH]; [reflexivity |]. cbn. intros H.
  apply andb_true_iff in H. destruct H as [Hc Hw].
  now rewrite (is_space_ascii _ Hc), IH.
Qed.

Lemma lower_char_code (c : ascii) :
  (code c <? 0x80)%N = true ->
  match lower_code_point (code c) with
  | Some l => encode_all l
  | None => String c ""
  end = String (lower_char c) "".
Proof.
  destruct c as [[] [] [] [] [] [] [] []]; intros H;
    first [discriminate H | reflexivity].
Qed.

Lemma upper_char_code (c : ascii) :
  (code c <? 0x80)%N = true ->
  match upper_code_point (code c) with
  | Some l => encode_all l
  | None => String c ""
  end = String (upper_char c) "".
Proof.
  destruct c as [[] [] [] [] [] [] [] []]; intros H;
    first [discriminate H | reflexivity].
Qed.

Lemma lower_from_ascii (s : string) (after_cased : bool) :
  ascii_only s = true ->
  lower_from (String.length s) after_cased s = lower_ascii s.
Proof.
  revert after_cased. induction s as [|c s IH]; intros ctx H;
    [reflexivity |].
  cbn [ascii_only] in H. apply andb_true_iff in H. destruct H as [Hc Hs].
  cbn [String.length lower_from lower_ascii].
  rewrite (first_code_point_ascii _ _ Hc), (IH _ Hs).
  assert (E : (code c =? 0x3A3)%N = false).
  { apply N.eqb_neq. apply N.ltb_lt in Hc. lia. }
  rewrite E, (lower_char_code _ Hc). reflexivity.
Qed.

(** On strings of ASCII characters the case mappings work byte by byte. *)
Lemma toLowerCase_ascii (s : string) :
  ascii_only s = true -> toLowerCase s = lower_ascii s.
Proof. apply lower_from_ascii. Qed.

Lemma toUpperCase_ascii (s : string) :
  ascii_only s = true -> toUpperCase s = upper_ascii s.
Proof.
  unfold toUpperCase. induction s as [|c s IH]; intros H; [reflexivity |].
  cbn [ascii_only] in H. apply andb_true_iff in H. destruct H as [Hc Hs].
  cbn [String.length upper_from upper_ascii].
  rewrite (first_code_point_ascii _ _ Hc), (IH Hs), (upper_char_code _ Hc).
  reflexivity.
Qed.

Lemma lower_char_ascii (c : ascii) :
  (code c <? 0x80)%N = true -> (code (lower_char c) <? 0x80)%N = true.
Proof.
  destruct c as [[] [] [] [] [] [] [] []]; intros H;
    first [discriminate H | reflexivity].
Qed.

Lemma upper_char_ascii (c : ascii) :
  (code c <? 0x80)%N = true -> (code (upper_char c) <? 0x80)%N = true.
Proof.
  destruct c as [[] [] [] [] [] [] [] []]; intros H;
    first [discriminate H | reflexivity].
Qed.

Lemma lower_ascii_only (s : string) :
  ascii_only s = true -> ascii_only (lower_ascii s) = true.
Proof.
  induction s as [|c s IH]; [reflexivity |]. cbn. intros H.
  apply andb_true_iff in H. destruct H as [Hc Hs].
  now rewrite (lower_char_ascii _ Hc), IH.
Qed.

Lemma upper_ascii_only (s : string) :
  ascii_only s = true -> ascii_only (upper_ascii s) = true.
Proof.
  induction s as [|c s IH]; [reflexivity |]. cbn. intros H.
  apply andb_true_iff in H. destruct H as [Hc Hs].
  now rewrite (upper_char_ascii _ Hc), IH.
Qed.

Lemma trimStart_ascii_eq (s : string) :
  ascii_only s = true -> trimStart s = trimStart_ascii s.
Proof.
  induction s as [|c s IH]; [reflexivity |]. intros H.
  cbn [ascii_only] in H. apply andb_true_iff in H. destruct H as [Hc Hs].
  cbn [trimStart trimStart_ascii].
  destruct (is_space c); [now apply IH |].
  destruct s as [|b2 s2]; [reflexivity |].
  rewrite (is_space2_ascii _ _ Hc).
  destruct s2 as [|b3 s3]; [reflexivity |].
  now rewrite (is_space3_ascii _ _ _ Hc).
Qed.

Lemma trimStart_ascii_empty (s : string) :
  (trimStart_ascii s =? "") = all_space s.
Proof.
  induction s as [|c s IH]; [reflexivity |]. cbn.
  destruct (is_space c); [exact IH | reflexivity].
Qed.

Lemma blank_ascii (s : string) :
  ascii_only s = true -> blank s = all_space s.
Proof.
  intros H. unfold blank. rewrite (trimStart_ascii_eq _ H).
  apply trimStart_ascii_empty.
Qed.

Lemma trimEnd_ascii_empty (s : string) :
  (trimEnd_ascii s =? "") = all_space s.
Proof.
  induction s as [|c s IH]; [reflexivity |]. cbn.
  destruct (trimEnd_ascii s); cbn in IH; rewrite <- IH.
  - now destruct (is_space c).
  - now rewrite andb_false_r.
Qed.

Lemma trimEnd_ascii_eq (s : string) :
  ascii_only s = true -> trimEnd s = trimEnd_ascii s.
Proof.
  induction s as [|c s IH]; [reflexivity |]. intros H.
  pose proof (blank_ascii _ H) as B.
  cbn [ascii_only] in H. apply andb_true_iff in H. destruct H as [Hc Hs].
  cbn [trimEnd trimEnd_ascii]. rewrite B, (IH Hs).
  pose proof (trimEnd_ascii_empty s) as E. cbn [all_space].
  destruct (trimEnd_ascii s); cbn in E; rewrite <- E.
  - rewrite andb_true_r. now destruct (is_space c).
  - now rewrite andb_false_r.
Qed.

Lemma trimStart_ascii_only (s : string) :
  ascii_only s = true -> ascii_only (trimStart_ascii s) = true.
Proof.
  induction s as [|c s IH]; [reflexivity |]. cbn [trimStart_ascii].
  destruct (is_space c); [| auto]. cbn. intros H.
  apply andb_true_iff in H. now apply IH.
Qed.

(** On strings of ASCII characters [trim] works byte by byte. *)
Lemma trim_ascii_eq (s : string) :
  ascii_only s = true -> trim s = trim_ascii s.
Proof.
  intros H. unfold trim, trim_ascii. rewrite (trimStart_ascii_eq _ H).
  apply trimEnd_ascii_eq. now apply trimStart_ascii_only.
Qed.

End AsciiRange.

Section AsciiTrim.

Lemma trimStart_ascii_first (s : string) (c : ascii) (t : string) :
  trimStart_ascii s = String c t -> is_space c = false.
Proof.
  induction s as [|x s IH]; simpl; [discriminate |].
  destruct (is_space x) eqn:Hx; [exact IH |].
  intros H. now injection H as <- _.
Qed.

Lemma trimEnd_ascii_first (s : string) (c : ascii) (t : string) :
  trimEnd_ascii s = String c t -> exists t', s = String c t'.
Proof.
  destruct s as [|x s]; simpl; [discriminate |].
  destruct (trimEnd_ascii s).
  - destruct (is_space x); [discriminate |].
    intros H. injection H as <- _. now exists s.
  - intros H. injection H as <- _. now exists s.
Qed.

Lemma trimStart_ascii_fixed (s : string) :
  (forall c t, s = String c t -> is_space c = false) -> trimStart_ascii s = s.
Proof.
  destruct s as [|x s]; [reflexivity |]. intros H. simpl.
  now rewrite (H x s eq_refl).
Qed.

Lemma lower_ascii_append (a b : string) :
  lower_ascii (a ++ b) = lower_ascii a ++ lower_ascii b.
Proof. induction a as [|c a IH]; simpl; [reflexivity | now rewrite IH]. Qed.

Lemma all_space_lower (w : string) :
  all_space w = true -> all_space (lower_ascii w) = true.
Proof.
  induction w as [|c w IH]; simpl; [reflexivity |].
  rewrite space_lower_char. intros H. apply andb_true_iff in H.
  destruct H as [-> H]. now apply IH.
Qed.

Lemma trimStart_ascii_blank (w s : string) :
  all_space w = true -> trimStart_ascii (w ++ s) = trimStart_ascii s.
Proof.
  induction w as [|c w IH]; simpl; [reflexivity |]. intros H.
  apply andb_true_iff in H. destruct H as [-> H]. now apply IH.
Qed.

Lemma trimEnd_ascii_all_space (w : string) :
  all_space w = true -> trimEnd_ascii w = "".
Proof.
  induction w as [|c w IH]; simpl; [reflexivity |]. intros H.
  apply andb_true_iff in H. destruct H as [Hc H]. now rewrite IH, Hc.
Qed.

Lemma trimEnd_ascii_blank (s w : string) :
  all_space w = true -> trimEnd_ascii (s ++ w) = trimEnd_ascii s.
Proof.
  intros H. induction s as [|c s IH]; simpl.
  - now apply trimEnd_ascii_all_space.
  - now rewrite IH.
Qed.

(** Padding a trimmed, non-empty string with white space does not survive
    trimming. *)
Lemma trim_ascii_padded (w1 w2 s : string) :
  all_space w1 = true -> all_space w2 = true ->
  s <> "" -> trim_ascii s = s -> trim_ascii (w1 ++ s ++ w2) = s.
Proof.
  intros H1 H2 Hne Hs. unfold trim_ascii.
  rewrite (trimStart_ascii_blank _ _ H1).
  assert (Hfirst : trimStart_ascii s = s).
  { apply trimStart_ascii_fixed. intros c t E. rewrite <- Hs in E.
    unfold trim_ascii in E. apply trimEnd_ascii_first in E.
    destruct E as [t' E]. now apply trimStart_ascii_first in E. }
  destruct s as [|c t]; [congruence |].
  assert (Hc : is_space c = false).
  { simpl in Hfirst. destruct (is_space c) eqn:E; [| reflexivity].
    exfalso. clear - Hfirst.
    assert (L : forall u, (String.length (trimStart_ascii u)
                           <= String.length u)%nat).
    { induction u as [|x u IH]; simpl; [lia |].
      destruct (is_space x); simpl; lia. }
    specialize (L t). rewrite Hfirst in L. simpl in L. lia. }
  change (String c t ++ w2) with (String c (t ++ w2)).
  cbn [trimStart_ascii]. rewrite Hc.
  change (String c (t ++ w2)) with (String c t ++ w2).
  rewrite (trimEnd_ascii_blank _ _ H2).
  unfold trim_ascii in Hs. now rewrite Hfirst in Hs.
Qed.

(** White space of the ASCII range around a string of ASCII characters does
    not survive the normaliser. *)
Lemma normalise_padded (w1 w2 s key : string) :
  all_space w1 = true -> all_space w2 = true -> ascii_only s = true ->
  key <> "" -> trim_ascii key = key -> lower_ascii s = key ->
  trim (toLowerCase (w1 ++ s ++ w2)) = key.
Proof.
  intros H1 H2 Hs Hne Ht Hl.
  assert (A : ascii_only (w1 ++ s ++ w2) = true).
  { rewrite !ascii_only_app, Hs.
    now rewrite !all_space_ascii_only by assumption. }
  rewrite (toLowerCase_ascii _ A).
  rewrite (trim_ascii_eq _ (lower_ascii_only _ A)).
  rewrite !lower_ascii_append, Hl.
  apply trim_ascii_padded; auto using all_space_lower.
Qed.

End AsciiTrim.

(** ** Facts about the command table *)

Section CommandTable.

Lemma own_property_In (o : list (string * string)) (key v : string) :
  own_property o key = Some v -> In (key, v) o.
Proof.
  induction o as [|[k w] o IH]; simpl; [discriminate |].
  destruct (String.eqb_spec k key) as [-> | _].
  - intros H. injection H as ->. now left.
  - intros H. right. now apply IH.
Qed.

(** The keys of the table are pairwise distinct. *)
Lemma DICTATION_COMMANDS_keys : NoDup (map fst DICTATION_COMMANDS).
Proof.
  repeat (constructor; [simpl; intuition discriminate |]). constructor.
Qed.

Lemma In_own_property (key v : string) :
  In (key, v) DICTATION_COMMANDS ->
  own_property DICTATION_COMMANDS key = Some v.
Proof.
  simpl. intros H.
  repeat (destruct H as [H | H];
          [injection H as <- <-; reflexivity |]).
  contradiction.
Qed.

(** Every substitution of the table is non-empty, is not a lone space, and
    neither starts nor ends with a space. *)
Lemma substitution_shape (key v : string) :
  own_property DICTATION_COMMANDS key = Some v ->
  truthy v = true /\ (v =? " ") = false /\
  String.get 0 v <> Some " "%char /\ lastChar v <> Some " "%char /\
  (startsWith v nl = true -> lastChar v = Some LF).
Proof.
  intros H. apply own_property_In in H. simpl in H.
  repeat (destruct H as [H | H];
          [injection H as <- <-; repeat split; try discriminate; reflexivity
          |]).
  contradiction.
Qed.

(** Where the lookup is decided by the table alone. *)
Lemma get_property_own (key v : string) :
  own_property DICTATION_COMMANDS key = Some v ->
  get_property DICTATION_COMMANDS key = Str v.
Proof. unfold get_property. now intros ->. Qed.

Lemma get_property_cases (key : string) :
  (exists v, own_property DICTATION_COMMANDS key = Some v /\
             get_property DICTATION_COMMANDS key = Str v) \/
  (own_property DICTATION_COMMANDS key = None /\
   In key Object_prototype /\
   get_property DICTATION_COMMANDS key = Builtin key) \/
  (own_property DICTATION_COMMANDS key = None /\
   ~ In key Object_prototype /\
   get_property DICTATION_COMMANDS key = Undefined).
Proof.
  unfold get_property.
  destruct (own_property DICTATION_COMMANDS key) as [v|] eqn:E.
  - left. now exists v.
  - right.
    destruct (existsb (String.eqb key) Object_prototype) eqn:X.
    + left. split; [reflexivity |]. split; [| reflexivity].
      apply existsb_exists in X. destruct X as (k & Hk & Ek).
      apply String.eqb_eq in Ek. now subst.
    + right. split; [reflexivity |]. split; [| reflexivity].
      intros Hin. apply not_true_iff_false in X. apply X.
      apply existsb_exists. exists key. split; [exact Hin |].
      apply String.eqb_refl.
Qed.

(** Away from the inherited names, a phrase is taken for a command exactly
    when it is a key of the table. *)
Lemma command_iff_key (key : string) :
  ~ In key Object_prototype ->
  (truthy_value (get_property DICTATION_COMMANDS key) = true <->
   exists v, own_property DICTATION_COMMANDS key = Some v).
Proof.
  intros Hp.
  destruct (get_property_cases key)
    as [(v & Ho & ->) | [(Ho & Hin & ->) | (Ho & _ & ->)]].
  - cbn [truthy_value]. split; [now exists v |]. intros _.
    now apply substitution_shape in Ho.
  - contradiction.
  - cbn [truthy_value]. split; [discriminate |]. intros [v Hv]. congruence.
Qed.

End CommandTable.

(** ** Facts about the handler *)

Section Handler.

Lemma map_outcome_done {A B} (f : A -> B) (l : list A) :
  map_outcome (fun x => Done (f x)) l = Done (map f l).
Proof. induction l as [|x l IH]; simpl; [reflexivity | now rewrite IH]. Qed.

Lemma map_outcome_ext {A B} (f g : A -> Outcome B) (l : list A) :
  (forall x, f x = g x) -> map_outcome f l = map_outcome g l.
Proof.
  intros H. induction l as [|x l IH]; simpl; [reflexivity |].
  now rewrite H, IH.
Qed.

(** A completed [map] has transformed every element in place. *)
Lemma map_outcome_nth {A B} (f : A -> Outcome B) (l : list A) (l' : list B) :
  map_outcome f l = Done l' ->
  List.length l' = List.length l /\
  forall i x, nth_error l i = Some x ->
              exists y, nth_error l' i = Some y /\ f x = Done y.
Proof.
  revert l'. induction l as [|a l IH]; simpl; intros l' H.
  - injection H as <-. split; [reflexivity |]. intros [|i] x; discriminate.
  - destruct (f a) as [b|] eqn:Fa; simpl in H; [| discriminate].
    destruct (map_outcome f l) as [bs|] eqn:Fl; simpl in H; [| discriminate].
    injection H as <-. destruct (IH bs eq_refl) as [Hlen Hnth].
    split; [simpl; now rewrite Hlen |].
    intros [|i] x Hx; simpl in *.
    + injection Hx as <-. now exists b.
    + now apply Hnth.
Qed.

(** A [map] throws only where its callback does. *)
Lemma map_outcome_throws {A B} (f : A -> Outcome B) (l : list A) :
  map_outcome f l = TypeError -> exists x, In x l /\ f x = TypeError.
Proof.
  induction l as [|a l IH]; simpl; [discriminate |].
  destruct (f a) as [b|] eqn:Fa; simpl.
  - destruct (map_outcome f l) as [bs|] eqn:Fl; simpl; [discriminate |].
    intros _. destruct (IH eq_refl) as (x & Hx & E). exists x. auto.
  - intros _. exists a. auto.
Qed.

(** The handler applies [merge] to the tabs that carry the active id and
    leaves the other tabs as they are. *)
Lemma onresult_merge (captured : list Tab) (ref : option string)
  (transcript : string) (prevTabs : list Tab) :
  onresult captured ref transcript prevTabs =
  match find (id_is ref) captured with
  | None => Done prevTabs
  | Some currentTab =>
      map_outcome
        (fun tab =>
           if id_is ref tab then
             bind (merge (content currentTab) (content tab)
                     (trim (toLowerCase transcript)))
                  (fun newContent => Done (with_content tab newContent))
           else Done tab)
        prevTabs
  end.
Proof.
  unfold onresult, merge.
  destruct (find (id_is ref) captured) as [cur|]; [| reflexivity].
  destruct (truthy_value _); [reflexivity |].
  rewrite <- map_outcome_done. apply map_outcome_ext.
  intros tab. now destruct (id_is ref tab).
Qed.

(** The first rule of the command branch, where it applies. *)
Lemma line_break_after_word (seen content key v : string) :
  own_property DICTATION_COMMANDS key = Some v ->
  startsWith v nl = true ->
  content <> "" -> endsWith content " " = false ->
  merge seen content key = Done (content ++ " " ++ v).
Proof.
  intros Ho Hs Hc He. unfold merge.
  rewrite (get_property_own _ _ Ho). cbn [truthy_value].
  destruct (substitution_shape _ _ Ho) as (-> & _).
  cbn [command_content]. apply truthy_true in Hc.
  now rewrite Hs, Hc, He.
Qed.

End Handler.

(** ** The two branches of the merge *)

Section MergeRules.

Lemma merge_dictated (seen content T : string) :
  truthy_value (get_property DICTATION_COMMANDS T) = false ->
  merge seen content T =
  Done (dictation_content (processedText seen T) content).
Proof. unfold merge. now intros ->. Qed.

Lemma merge_command (seen content key v : string) :
  own_property DICTATION_COMMANDS key = Some v ->
  merge seen content key = command_content (Str v) content.
Proof.
  intros Ho. unfold merge. rewrite (get_property_own _ _ Ho).
  cbn [truthy_value]. now destruct (substitution_shape _ _ Ho) as (-> & _).
Qed.

Lemma sentence_start_decide (content : string) :
  endsWith content ". " || endsWith content "! " || endsWith content "? "
  || negb (truthy content) = true <-> sentence_start content.
Proof.
  unfold sentence_start.
  rewrite !orb_true_iff, negb_true_iff, truthy_false, !endsWith_spec.
  tauto.
Qed.

Lemma capitalized_unique (T P : string) :
  capitalized T P -> P = toUpperCase (charAt0 T) ++ slice1 T.
Proof. intros H. exact H. Qed.

End MergeRules.

(** ** The rules of the merge *)

(** C1.  A line-break command spoken when the content ends with a space, or
    is empty, does not append the substitution directly: the handler falls
    through to the punctuation rules, which drop the trailing space of the
    content and add a space after the line break.  Content ["Hello "] with
    "new line" becomes ["Hello\n "] and empty content becomes ["\n "]; only
    content ["Hello"] gives ["Hello \n"]. *)
Theorem new_line_falls_through_to_punctuation :
  merge "Hello " "Hello " "new line" = Done ("Hello" ++ nl ++ " ") /\
  merge "" "" "new line" = Done (nl ++ " ") /\
  merge "" "" "new paragraph" = Done (nl ++ nl ++ " ") /\
  merge "Hello" "Hello" "new line" = Done ("Hello " ++ nl) /\
  onresult [mkTab "1" "Untitled 1" "Hello "] (Some "1") "New line"
    [mkTab "1" "Untitled 1" "Hello "]
  = Done [mkTab "1" "Untitled 1" ("Hello" ++ nl ++ " ")] /\
  onresult [mkTab "1" "Untitled 1" ""] (Some "1") "new line"
    [mkTab "1" "Untitled 1" ""]
  = Done [mkTab "1" "Untitled 1" (nl ++ " ")].
Proof. repeat split; reflexivity. Qed.

(** The capitalisation rule of the dictation branch.  For a dictated phrase
    [T] (one the lookup does not take for a command), with [seen] the
    content of the tab the handler found in its captured tabs and [content]
    the content of the tab being updated: when [seen] is at the start of a
    sentence the text appended is [T] with its first character in upper
    case, otherwise it is [T] as received; a separating space comes first
    when [content] is non-empty and does not end with a space, and one space
    follows. *)
Lemma capitalization_on_captured_content (seen content T : string) :
  truthy_value (get_property DICTATION_COMMANDS T) = false ->
  let separator :=
    if truthy content && negb (endsWith content " ") then " " else "" in
  (sentence_start seen ->
   forall P, capitalized T P ->
             merge seen content T = Done (content ++ separator ++ P ++ " ")) /\
  (~ sentence_start seen ->
   merge seen content T = Done (content ++ separator ++ T ++ " ")).
Proof.
  intros Hd separator. rewrite (merge_dictated _ _ _ Hd).
  unfold dictation_content, processedText. fold separator. split.
  - intros Hs P HP. apply capitalized_unique in HP. subst P.
    apply sentence_start_decide in Hs. now rewrite Hs.
  - intros Hn.
    destruct (endsWith seen ". " || endsWith seen "! "
              || endsWith seen "? " || negb (truthy seen)) eqn:E;
      [| reflexivity].
    now apply sentence_start_decide in E.
Qed.

(** With the captured tabs equal to the tabs being updated, "hello world"
    dictated into an empty document gives ["Hello world "], and dictated
    again appends ["hello world "] in lower case. *)
Example dictation_with_current_capture :
  onresult [mkTab "1" "Untitled 1" ""] (Some "1") " Hello world"
    [mkTab "1" "Untitled 1" ""]
  = Done [mkTab "1" "Untitled 1" "Hello world "] /\
  onresult [mkTab "1" "Untitled 1" "Hello world "] (Some "1") "hello world"
    [mkTab "1" "Untitled 1" "Hello world "]
  = Done [mkTab "1" "Untitled 1" "Hello world hello world "].
Proof. split; reflexivity. Qed.

Lemma run_reachable (evs : list Event) (s0 st st' : App) :
  reachable s0 st -> trace_enabled evs st -> run evs st = Done st' ->
  reachable s0 st'.
Proof.
  revert st. induction evs as [|ev evs IH]; simpl; intros st Hr Hen Hrun.
  - now injection Hrun as <-.
  - destruct Hen as [Hen Hrest].
    destruct (step ev st) as [mid|] eqn:E; simpl in Hrun; [| discriminate].
    apply (IH mid); [| exact Hrest | exact Hrun].
    now apply (reachable_step s0 st mid ev).
Qed.

(** C2.  The recognition object that listens keeps the handler it was given
    before listening started, and that handler decides the capitalisation on
    the tabs it captured then.  On a fresh page, listening is started and
    "hello world" is recognised twice: the first utterance gives
    ["Hello world "], and the second one, decided on the empty content the
    handler still sees, is capitalised again instead of being appended in
    lower case. *)
Theorem capitalization_decided_on_stale_tabs :
  (exists st,
     run [ToggleListening 0;
          RecognitionResult first_recognition 1000 "hello world"]
       fresh_page = Done st /\
     tabs st = [mkTab "1" "Untitled 1" "Hello world "] /\
     started st = [first_recognition] /\
     recognition st
     = Some (mkRecognition 1 [mkTab "1" "Untitled 1" "Hello world "])) /\
  (exists st,
     run dictated_twice fresh_page = Done st /\
     reachable fresh_page st /\
     tabs st = [mkTab "1" "Untitled 1" "Hello world Hello world "]).
Proof.
  split.
  - eexists. split; [vm_compute; reflexivity |]. repeat split.
  - eexists. split; [vm_compute; reflexivity |]. split; [| reflexivity].
    apply (run_reachable dictated_twice fresh_page fresh_page).
    + apply reachable_start.
    + vm_compute. repeat split; auto.
    + vm_compute. reflexivity.
Qed.

(** C3.  For a command of the table whose substitution [v] does not start
    with a line break: content ending with a space loses that space, then
    receives [v] and one space; any other content receives [v] and one space
    directly.  In both cases the character where [v] begins and the one
    before it are not both spaces. *)
Theorem punctuation_attaches (seen content key v : string) :
  own_property DICTATION_COMMANDS key = Some v ->
  startsWith v nl = false ->
  (forall q, content = q ++ " " ->
             merge seen content key = Done (q ++ v ++ " ") /\
             ~ double_space_before (String.length q) (q ++ v ++ " ")) /\
  ((forall q, content <> q ++ " ") ->
   merge seen content key = Done (content ++ v ++ " ") /\
   ~ double_space_before (String.length content) (content ++ v ++ " ")).
Proof.
  intros Ho Hs. rewrite (merge_command _ _ _ _ Ho). cbn [command_content].
  rewrite Hs. cbn [andb].
  destruct (substitution_shape _ _ Ho) as (_ & Hsp & Hfirst & _).
  assert (Hj : forall p, ~ double_space_before (String.length p)
                           (p ++ v ++ " ")).
  { intros p (j & _ & _ & Hg).
    rewrite <- (Nat.add_0_r (String.length p)) in Hg.
    rewrite get_append_right in Hg.
    destruct v as [|c v']; simpl in Hg, Hfirst; [| congruence].
    apply substitution_shape in Ho. destruct Ho as [Ho _]. discriminate. }
  split.
  - intros q ->. split; [| apply Hj].
    assert (Ht : truthy (q ++ " ") = true).
    { apply truthy_true. intros E. apply append_eq_empty in E.
      destruct E; discriminate. }
    rewrite Ht, endsWith_append, Hsp. cbn [andb negb].
    now rewrite dropLast_snoc.
  - intros Hq. split; [| apply Hj].
    destruct (endsWith content " ") eqn:E.
    + apply endsWith_spec in E. destruct E as [q E]. now apply Hq in E.
    + now rewrite andb_false_r.
Qed.

(** Content ["Hello world "] with the command "period" becomes
    ["Hello world. "]. *)
Lemma punctuation_attaches_witness :
  merge "" "Hello world " "period" = Done "Hello world. " /\
  ~ double_space_before 11 "Hello world. ".
Proof.
  exact (proj1 (punctuation_attaches "" "Hello world " "period" "."
                  eq_refl eq_refl) "Hello world" eq_refl).
Defined.

(** C4.  The phrase "constructor" is not a key of the command table, yet the
    lookup finds the property every object literal inherits, the handler
    takes it for a command, and the tab update throws when it calls
    [startsWith] on it: the phrase is neither dictated nor substituted. *)
Theorem inherited_property_taken_for_command :
  own_property DICTATION_COMMANDS "constructor" = None /\
  get_property DICTATION_COMMANDS "constructor" = Builtin "constructor" /\
  truthy_value (get_property DICTATION_COMMANDS "constructor") = true /\
  merge "" "" "constructor" = TypeError /\
  onresult [mkTab "1" "Untitled 1" ""] (Some "1") "Constructor"
    [mkTab "1" "Untitled 1" ""]
  = TypeError.
Proof. repeat split; reflexivity. Qed.

(** A phrase that only contains a key of the table is dictated as it is. *)
Example phrase_containing_a_key_is_dictated :
  get_property DICTATION_COMMANDS "period please" = Undefined /\
  merge "" "" "period please" = Done "Period please ".
Proof. split; reflexivity. Qed.

(** C9.  A dictated utterance whose normalised transcript is empty still
    appends: one space when the content is empty or already ends with a
    space, a separating space and one more otherwise. *)
Theorem empty_transcript_appends_space (seen content : string) :
  ((content = "" \/ exists q, content = q ++ " ") ->
   merge seen content "" = Done (content ++ " ")) /\
  ((content <> "" /\ forall q, content <> q ++ " ") ->
   merge seen content "" = Done (content ++ "  ")).
Proof.
  rewrite (merge_dictated seen content "" eq_refl).
  unfold dictation_content.
  assert (Hp : processedText seen "" = "")
    by (unfold processedText; now destruct (_ || _)).
  rewrite Hp. split.
  - intros [-> | [q ->]]; [reflexivity |].
    now rewrite endsWith_append, andb_false_r.
  - intros [Hc Hq]. apply truthy_true in Hc. rewrite Hc.
    destruct (endsWith content " ") eqn:E; [| reflexivity].
    apply endsWith_spec in E. destruct E as [q E]. now apply Hq in E.
Qed.

Lemma empty_transcript_appends_space_witness :
  merge "" "" "" = Done " " /\ merge "Hello" "Hello" "" = Done "Hello  ".
Proof.
  split.
  - apply (proj1 (empty_transcript_appends_space "" "")). now left.
  - apply (proj2 (empty_transcript_appends_space "Hello" "Hello")).
    split; [discriminate |]. intros q H.
    apply (f_equal lastChar) in H. rewrite lastChar_snoc in H. discriminate.
Defined.

(** The content does change: a transcript of spaces only, merged into
    ["Hello"], leaves ["Hello  "]. *)
Lemma empty_transcript_is_not_a_noop :
  onresult [mkTab "1" "Untitled 1" "Hello"] (Some "1") "  "
    [mkTab "1" "Untitled 1" "Hello"]
  = Done [mkTab "1" "Untitled 1" "Hello  "] /\
  merge "Hello" "Hello" "" <> Done "Hello".
Proof. split; [reflexivity | discriminate]. Qed.

Section TrailingCharacter.

Lemma ends_with_single_space (x : string) :
  lastChar x <> Some " "%char ->
  endsWith (x ++ " ") " " = true /\ endsWith (x ++ " ") "  " = false.
Proof.
  intros H. split; [apply endsWith_append |].
  destruct (endsWith (x ++ " ") "  ") eqn:E; [| reflexivity].
  apply endsWith_snoc2 in E. now destruct E.
Qed.

Lemma lastChar_not_space (s : string) (c : ascii) :
  lastChar s = Some c -> is_space c = false -> lastChar s <> Some " "%char.
Proof. intros -> Hc E. injection E as ->. discriminate. Qed.

(** The text appended for a trimmed, non-empty transcript is non-empty and
    does not end with white space. *)
Lemma processedText_last (seen T : string) :
  T <> "" ->
  (forall c, lastChar T = Some c -> is_space c = false) ->
  exists c, lastChar (processedText seen T) = Some c /\ is_space c = false.
Proof.
  intros Hne Hlast. unfold processedText.
  destruct (_ || _).
  - unfold charAt0, slice1.
    destruct (first_code_point T) as [[[cp bytes] rest]|] eqn:F.
    2:{ apply first_code_point_none in F. congruence. }
    assert (Hsame : exists c, lastChar T = Some c /\ is_space c = false).
    { destruct (lastChar T) as [c|] eqn:E.
      - exists c. auto.
      - now apply lastChar_none in E. }
    destruct (two_units cp).
    { exact Hsame. }
    rewrite (toUpperCase_code_point _ _ _ _ F).
    apply first_code_point_shape in F. destruct F as (ET & F & _).
    destruct rest as [|r rest].
    + rewrite append_empty_r. rewrite append_empty_r in ET.
      destruct (upper_code_point cp) as [l|] eqn:U.
      * now destruct (upper_code_point_edges _ _ U) as (_ & E).
      * now rewrite <- ET.
    + rewrite lastChar_append by discriminate.
      destruct Hsame as (c & Hc & Sc). exists c. split; [| exact Sc].
      rewrite ET in Hc. now rewrite lastChar_append in Hc by discriminate.
  - destruct (lastChar T) as [c|] eqn:E.
    + exists c. auto.
    + now apply lastChar_none in E.
Qed.

Lemma append_nonempty_r (a b : string) : b <> "" -> a ++ b <> "".
Proof. intros Hb E. apply append_eq_empty in E. tauto. Qed.

End TrailingCharacter.

(** C10.  For a transcript whose normalised form [T] is non-empty, the merge
    either produces content or, for the names inherited from
    [Object.prototype] only, throws.  Content it produces is non-empty; it
    ends with a line break when [T] is a line-break command and the prior
    content is non-empty and does not end with a space, and with exactly one
    space in every other case. *)
Theorem merged_content_ending (seen content transcript : string) :
  let T := trim (toLowerCase transcript) in
  T <> "" ->
  match merge seen content T with
  | Done r =>
      r <> "" /\
      (line_break_command T /\ content <> "" /\ endsWith content " " = false ->
       endsWith r nl = true) /\
      (~ (line_break_command T /\ content <> "" /\
          endsWith content " " = false) ->
       endsWith r " " = true /\ endsWith r "  " = false)
  | TypeError =>
      own_property DICTATION_COMMANDS T = None /\ In T Object_prototype
  end.
Proof.
  intros T HT.
  destruct (get_property_cases T)
    as [(v & Ho & Hg) | [(Ho & Hin & Hg) | (Ho & _ & Hg)]].
  - (* a command of the table *)
    rewrite (merge_command _ _ _ _ Ho). cbn [command_content].
    destruct (substitution_shape _ _ Ho) as (Hv & Hsp & _ & Hlast & Hnl).
    apply truthy_true in Hv.
    destruct (startsWith v nl && truthy content && negb (endsWith content " "))
      eqn:C1.
    + apply andb_true_iff in C1. destruct C1 as [C1 Hends].
      apply andb_true_iff in C1. destruct C1 as [Hstart Hc].
      apply negb_true_iff in Hends. apply truthy_true in Hc.
      split; [| split].
      * apply append_nonempty_r. discriminate.
      * intros _. apply endsWith_char. rewrite <- append_assoc.
        rewrite lastChar_append by exact Hv. now apply Hnl.
      * intros Hn. exfalso. apply Hn. split; [now exists v | now split].
    + assert (Hcase : ~ (line_break_command T /\ content <> "" /\
                         endsWith content " " = false)).
      { intros ((v' & Ho' & Hstart) & Hc & Hends).
        rewrite Ho in Ho'. injection Ho' as <-. apply truthy_true in Hc.
        now rewrite Hstart, Hc, Hends in C1. }
      assert (Hx : forall x r, r = x ++ v ++ " " ->
                     r <> "" /\
                     (line_break_command T /\ content <> "" /\
                      endsWith content " " = false -> endsWith r nl = true) /\
                     (~ (line_break_command T /\ content <> "" /\
                         endsWith content " " = false) ->
                      endsWith r " " = true /\ endsWith r "  " = false)).
      { intros x r ->. split; [| split].
        - apply append_nonempty_r, append_nonempty_r. discriminate.
        - intros H. now apply Hcase in H.
        - intros _. rewrite <- append_assoc. apply ends_with_single_space.
          now rewrite lastChar_append by exact Hv. }
      destruct (truthy content && endsWith content " " && negb (v =? " "));
        eapply Hx; reflexivity.
  - (* an inherited property *)
    unfold merge. rewrite Hg. cbn. now split.
  - (* dictated text *)
    assert (Hd : truthy_value (get_property DICTATION_COMMANDS T) = false)
      by now rewrite Hg.
    rewrite (merge_dictated _ _ _ Hd). unfold dictation_content.
    destruct (processedText_last seen T HT (trim_last _)) as (c & Hc & Hsp).
    set (P := processedText seen T) in *.
    assert (HP : P <> "") by (intros E; rewrite E in Hc; discriminate).
    split; [| split].
    + apply append_nonempty_r, append_nonempty_r, append_nonempty_r.
      discriminate.
    + intros ((v & Hv & _) & _). congruence.
    + intros _. rewrite <- !append_assoc. apply ends_with_single_space.
      rewrite lastChar_append by exact HP.
      now apply (lastChar_not_space P c).
Qed.

Lemma merged_content_ending_witness :
  trim (toLowerCase " New Line ") <> "" /\
  match merge "Hello" "Hello" (trim (toLowerCase " New Line ")) with
  | Done r =>
      r <> "" /\
      (line_break_command (trim (toLowerCase " New Line ")) /\
       "Hello" <> "" /\ endsWith "Hello" " " = false ->
       endsWith r nl = true) /\
      (~ (line_break_command (trim (toLowerCase " New Line ")) /\
          "Hello" <> "" /\ endsWith "Hello" " " = false) ->
       endsWith r " " = true /\ endsWith r "  " = false)
  | TypeError =>
      own_property DICTATION_COMMANDS (trim (toLowerCase " New Line ")) = None
      /\ In (trim (toLowerCase " New Line ")) Object_prototype
  end.
Proof.
  split; [discriminate |].
  apply (merged_content_ending "Hello" "Hello" " New Line ").
  discriminate.
Defined.

(** ** Facts about the tab list *)

Section TabList.

Local Open Scope list_scope.


(** The first tab carrying a given id. *)
Lemma split_at_id (tabId : string) (l : list Tab) :
  In tabId (map id l) ->
  exists before closed after,
    l = before ++ closed :: after /\ id closed = tabId /\
    ~ In tabId (map id before).
Proof.
  induction l as [|tab l IH]; simpl; [contradiction |].
  destruct (String.eqb_spec (id tab) tabId) as [E | N].
  - intros _. exists [], tab, l. auto.
  - intros [E | Hin]; [contradiction |].
    destruct (IH Hin) as (b & c & a & -> & Hc & Hb).
    exists (tab :: b), c, a. repeat split; [exact Hc |].
    simpl. intros [E | H]; auto.
Qed.

Lemma filter_other_ids (tabId : string) (l : list Tab) :
  ~ In tabId (map id l) ->
  filter (fun tab => negb (id tab =? tabId)) l = l.
Proof.
  induction l as [|tab l IH]; simpl; [reflexivity |]. intros H.
  destruct (String.eqb_spec (id tab) tabId) as [E | N]; simpl.
  - exfalso. apply H. now left.
  - rewrite IH; [reflexivity |]. intros Hin. apply H. now right.
Qed.

Lemma filter_removes_one (tabId : string) (before after : list Tab)
  (closed : Tab) :
  id closed = tabId ->
  ~ In tabId (map id before) -> ~ In tabId (map id after) ->
  filter (fun tab => negb (id tab =? tabId)) (before ++ closed :: after)
  = before ++ after.
Proof.
  intros Hc Hb Ha. rewrite filter_app. cbn [filter].
  apply String.eqb_eq in Hc. rewrite Hc. cbn [negb].
  now rewrite !filter_other_ids.
Qed.

Lemma findIndex_nonneg_or_absent (p : Tab -> bool) (l : list Tab) :
  (findIndex p l = -1 \/ 0 <= findIndex p l)%Z.
Proof.
  induction l as [|tab l IH]; simpl; [now left |].
  destruct (p tab); [right; lia |].
  destruct (findIndex p l <? 0)%Z eqn:E; [now left |].
  apply Z.ltb_ge in E. right. lia.
Qed.

Lemma findIndex_first (tabId : string) (before after : list Tab)
  (closed : Tab) :
  id closed = tabId -> ~ In tabId (map id before) ->
  findIndex (fun tab => id tab =? tabId) (before ++ closed :: after)
  = Z.of_nat (List.length before).
Proof.
  intros Hc. induction before as [|tab before IH]; intros Hb.
  - simpl. apply String.eqb_eq in Hc. now rewrite Hc.
  - cbn [app findIndex].
    destruct (String.eqb_spec (id tab) tabId) as [E | N].
    + exfalso. apply Hb. now left.
    + rewrite IH by (intros H; apply Hb; now right).
      destruct (Z.of_nat (List.length before) <? 0)%Z eqn:E.
      * apply Z.ltb_lt in E. lia.
      * cbn [List.length]. lia.
Qed.

Lemma id_at_nat (l : list Tab) (n : nat) :
  id_at l (Z.of_nat n) = option_map id (nth_error l n).
Proof.
  unfold id_at. destruct (Z.of_nat n <? 0)%Z eqn:E.
  - apply Z.ltb_lt in E. lia.
  - now rewrite Nat2Z.id.
Qed.

Lemma id_at_negative (l : list Tab) (i : Z) : (i < 0)%Z -> id_at l i = None.
Proof. intros H. unfold id_at. apply Z.ltb_lt in H. now rewrite H. Qed.

(** With distinct ids, looking a tab up by its id finds that tab. *)
Lemma find_by_id (l : list Tab) (tab : Tab) :
  NoDup (map id l) -> In tab l -> find (id_is (Some (id tab))) l = Some tab.
Proof.
  induction l as [|x l IH]; simpl; [contradiction |].
  intros Hnd [-> | Hin].
  - now rewrite String.eqb_refl.
  - inversion Hnd as [|? ? Hx Hl]; subst.
    destruct (String.eqb_spec (id x) (id tab)) as [E | N].
    + exfalso. apply Hx. rewrite E. now apply in_map.
    + now apply IH.
Qed.

Lemma NoDup_ids_split (before after : list Tab) (closed : Tab) :
  NoDup (map id (before ++ closed :: after)) ->
  ~ In (id closed) (map id before) /\ ~ In (id closed) (map id after) /\
  NoDup (map id (before ++ after)).
Proof.
  rewrite !map_app. cbn [map]. intros H.
  pose proof (NoDup_remove_1 _ _ _ H) as H1.
  pose proof (NoDup_remove_2 _ _ _ H) as H2.
  rewrite in_app_iff in H2. tauto.
Qed.


End TabList.

(** ** Closing a tab *)

Section CloseTab.

Local Open Scope list_scope.

Lemma closeTab_tabs (tabId : string) (st : App) :
  List.length (tabs st) <> 1%nat ->
  tabs (closeTab tabId st)
  = filter (fun tab => negb (id tab =? tabId)) (tabs st).
Proof.
  intros H. unfold closeTab. apply Nat.eqb_neq in H. rewrite H.
  destruct (activeTabId st) as [a|]; [destruct (a =? tabId) |]; reflexivity.
Qed.

Lemma closeTab_other_active (tabId : string) (st : App) :
  activeTabId st <> Some tabId ->
  activeTabId (closeTab tabId st) = activeTabId st.
Proof.
  intros H. unfold closeTab.
  destruct (List.length (tabs st) =? 1)%nat; [reflexivity |].
  destruct (activeTabId st) as [a|] eqn:Ea; [| exact Ea].
  destruct (String.eqb_spec a tabId) as [-> | _]; [congruence | exact Ea].
Qed.

Lemma closeTab_active (tabId : string) (st : App) :
  List.length (tabs st) <> 1%nat ->
  activeTabId st = Some tabId ->
  activeTabId (closeTab tabId st)
  = let tabIndex := findIndex (fun tab => id tab =? tabId) (tabs st) in
    or_else (id_at (tabs st) (tabIndex - 1)) (id_at (tabs st) (tabIndex + 1)).
Proof.
  intros H Ha. unfold closeTab. apply Nat.eqb_neq in H. rewrite H, Ha.
  now rewrite String.eqb_refl.
Qed.

Lemma activeTab_by_id (st : App) (tab : Tab) :
  NoDup (map id (tabs st)) -> In tab (tabs st) ->
  activeTabId st = Some (id tab) -> activeTab st = Some tab.
Proof.
  intros Hnd Hin Ha. unfold activeTab. rewrite Ha.
  now rewrite (find_by_id _ _ Hnd Hin).
Qed.

End CloseTab.

Section CloseTabShape.

Local Open Scope list_scope.

(** What [closeTab] does to a store with distinct, non-empty ids and more
    than one tab. *)
Lemma closeTab_decompose (tabId : string) (st : App) :
  List.length (tabs st) <> 1%nat ->
  wf_tabs (tabs st) -> In tabId (map id (tabs st)) ->
  exists before closed after,
    tabs st = before ++ closed :: after /\ id closed = tabId /\
    tabs (closeTab tabId st) = before ++ after /\
    (activeTabId st <> Some tabId ->
     activeTabId (closeTab tabId st) = activeTabId st) /\
    (activeTabId st = Some tabId ->
     (forall b left, before = b ++ [left] ->
        activeTabId (closeTab tabId st) = Some (id left) /\
        activeTab (closeTab tabId st) = Some left) /\
     (before = [] ->
      exists right a, after = right :: a /\
        activeTabId (closeTab tabId st) = Some (id right) /\
        activeTab (closeTab tabId st) = Some right)).
Proof.
  intros Hlen (_ & Hnd & Hne) Hin.
    destruct (split_at_id _ _ Hin) as (before & closed & after & E & Hc & Hb).
    exists before, closed, after.
    pose proof Hnd as Hnd'. rewrite E in Hnd'.
    apply NoDup_ids_split in Hnd'. rewrite Hc in Hnd'.
    destruct Hnd' as (_ & Ha & Hnd').
    assert (Htabs : tabs (closeTab tabId st) = (before ++ after)%list).
    { rewrite closeTab_tabs by exact Hlen. rewrite E.
      now apply filter_removes_one. }
    split; [exact E |]. split; [exact Hc |]. split; [exact Htabs |].
    split; [apply closeTab_other_active |].
    intros Hact.
    pose proof (closeTab_active _ _ Hlen Hact) as Hnext. cbn zeta in Hnext.
    rewrite E in Hnext. rewrite (findIndex_first _ _ _ _ Hc Hb) in Hnext.
    split.
    + intros b left ->.
      assert (Hid : activeTabId (closeTab tabId st) = Some (id left)).
      { rewrite Hnext. rewrite length_app. cbn [List.length].
        replace (Z.of_nat (List.length b + 1) - 1)%Z
          with (Z.of_nat (List.length b)) by lia.
        rewrite id_at_nat. rewrite <- !app_assoc.
        rewrite nth_error_app2 by lia. rewrite Nat.sub_diag. cbn.
        assert (Hl : truthy (id left) = true).
        { apply truthy_true. intros El. apply Hne. rewrite E, <- El.
          apply in_map. rewrite !in_app_iff. left. right. now left. }
        now rewrite Hl. }
      split; [exact Hid |].
      apply activeTab_by_id; [now rewrite Htabs | | exact Hid].
      rewrite Htabs, !in_app_iff. left. right. now left.
    + intros ->. cbn [app List.length] in *.
      destruct after as [|right a]; [now rewrite E in Hlen |].
      exists right, a. split; [reflexivity |].
      assert (Hid : activeTabId (closeTab tabId st) = Some (id right)).
      { rewrite Hnext. reflexivity. }
      split; [exact Hid |].
      apply activeTab_by_id; [now rewrite Htabs | | exact Hid].
      rewrite Htabs. now left.
Qed.

End CloseTabShape.

(** C5.  Closing a tab when it is the only one changes nothing.  Otherwise,
    in a store whose ids are distinct and non-empty, closing the tab with a
    given id removes that one tab and keeps the others in order; when the
    closed tab was the active one, the tab on its left becomes active, or the
    tab on its right when it was the first; when another tab was active it
    stays active. *)
Theorem closeTab_removes_one (tabId : string) (st : App) :
  (List.length (tabs st) = 1%nat -> closeTab tabId st = st) /\
  (List.length (tabs st) <> 1%nat ->
   wf_tabs (tabs st) -> In tabId (map id (tabs st)) ->
   exists before closed after,
     tabs st = (before ++ closed :: after)%list /\ id closed = tabId /\
     tabs (closeTab tabId st) = (before ++ after)%list /\
     (activeTabId st <> Some tabId ->
      activeTabId (closeTab tabId st) = activeTabId st) /\
     (activeTabId st = Some tabId ->
      (forall b left, before = (b ++ [left])%list ->
         activeTabId (closeTab tabId st) = Some (id left) /\
         activeTab (closeTab tabId st) = Some left) /\
      (before = [] ->
       exists right a, after = right :: a /\
         activeTabId (closeTab tabId st) = Some (id right) /\
         activeTab (closeTab tabId st) = Some right))).
Proof.
  split.
  - intros H. unfold closeTab. now rewrite H.
  - apply closeTab_decompose.
Qed.

Example closeTab_middle :
  tabs (closeTab "17" three_tabs)
  = [mkTab "1" "Untitled 1" "a"; mkTab "23" "Untitled 3" "c"] /\
  activeTabId (closeTab "17" three_tabs) = Some "1".
Proof. split; reflexivity. Qed.

(** Closing the active middle tab of three. *)
Lemma closeTab_removes_one_witness :
  exists before closed after,
    tabs three_tabs = (before ++ closed :: after)%list /\ id closed = "17" /\
    tabs (closeTab "17" three_tabs) = (before ++ after)%list /\
    (activeTabId three_tabs <> Some "17" ->
     activeTabId (closeTab "17" three_tabs) = activeTabId three_tabs) /\
    (activeTabId three_tabs = Some "17" ->
     (forall b left, before = (b ++ [left])%list ->
        activeTabId (closeTab "17" three_tabs) = Some (id left) /\
        activeTab (closeTab "17" three_tabs) = Some left) /\
     (before = [] ->
      exists right a, after = right :: a /\
        activeTabId (closeTab "17" three_tabs) = Some (id right) /\
        activeTab (closeTab "17" three_tabs) = Some right)).
Proof.
  apply (proj2 (closeTab_removes_one "17" three_tabs)).
  - discriminate.
  - split; [discriminate |]. split.
    + repeat (constructor; [simpl; intuition discriminate |]). constructor.
    + simpl. intuition discriminate.
  - simpl. auto.
Defined.

(** Without distinct ids the close button takes more than one tab: two
    tabs opened at the same clock value carry the same id and are both
    closed.  Without non-empty ids the left neighbour is passed over: an
    empty id is falsy, and the id of the right neighbour becomes the active
    id. *)
Lemma closeTab_takes_every_tab_with_the_id :
  (exists st,
     run [AddNewTab 1700; AddNewTab 1700] fresh_page = Done st /\
     map id (tabs st) = ["1"; "1700"; "1700"] /\
     map id (tabs (closeTab "1700" st)) = ["1"]) /\
  (let st :=
     mount (Some (Parsed [mkTab "" "Untitled 1" "a"; mkTab "5" "Untitled 2" "b";
                          mkTab "7" "Untitled 3" "c"]))
       (Some "5") false 0 in
   map id (tabs (closeTab "5" st)) = [""; "7"] /\
   activeTabId (closeTab "5" st) = Some "7").
Proof.
  split.
  - eexists. split; [vm_compute; reflexivity |]. split; reflexivity.
  - split; reflexivity.
Qed.

(** ** What an event does to the ids and to the active id *)

Section Frames.

Local Open Scope list_scope.

Ltac branches :=
  repeat match goal with
         | |- context [if ?b then _ else _] => destruct b
         | |- context [match ?x with _ => _ end] => destruct x
         end.


Lemma map_outcome_ids (f : Tab -> Outcome Tab) (l l' : list Tab) :
  (forall x y, f x = Done y -> id y = id x) ->
  map_outcome f l = Done l' -> map id l' = map id l.
Proof.
  intros Hf. revert l'. induction l as [|a l IH]; simpl; intros l' H.
  - now injection H as <-.
  - destruct (f a) as [b|] eqn:Fa; simpl in H; [| discriminate].
    destruct (map_outcome f l) as [bs|]; simpl in H; [| discriminate].
    injection H as <-. simpl. now rewrite (Hf _ _ Fa), (IH bs).
Qed.

Lemma onresult_ids (captured : list Tab) (ref : option string)
  (transcript : string) (prevTabs next : list Tab) :
  onresult captured ref transcript prevTabs = Done next ->
  map id next = map id prevTabs.
Proof.
  rewrite onresult_merge.
  destruct (find (id_is ref) captured) as [cur|].
  - apply map_outcome_ids. intros x y.
    destruct (id_is ref x).
    + destruct (merge _ _ _); simpl; [| discriminate].
      now intros H; injection H as <-.
    + now intros H; injection H as <-.
  - now intros H; injection H as <-.
Qed.





Lemma handleTabClick_frame (tabId : string) (st : App) :
  tabs (handleTabClick tabId st) = tabs st /\
  activeTabId (handleTabClick tabId st) = Some tabId.
Proof. unfold handleTabClick. branches; now split. Qed.

Lemma recognition_effect_frame (st : App) :
  tabs (recognition_effect st) = tabs st /\
  activeTabId (recognition_effect st) = activeTabId st /\
  activeTabRef (recognition_effect st) = activeTabRef st.
Proof. unfold recognition_effect. branches; now repeat split. Qed.

Lemma listening_frame (now : Z) (st : App) :
  tabs (listening_effect (toggleListening now st)) = tabs st /\
  activeTabId (listening_effect (toggleListening now st)) = activeTabId st.
Proof. unfold listening_effect, toggleListening. branches; now split. Qed.

Lemma onerror_frame (e : string) (st : App) :
  tabs (listening_effect (onerror e st)) = tabs st /\
  activeTabId (listening_effect (onerror e st)) = activeTabId st.
Proof. now split. Qed.

Lemma checkSpeechDetection_frame (now : Z) (st : App) :
  tabs (checkSpeechDetection now st) = tabs st /\
  activeTabId (checkSpeechDetection now st) = activeTabId st.
Proof. unfold checkSpeechDetection. branches; now split. Qed.

Lemma hide_timeout_frame (st : App) :
  tabs (hide_timeout st) = tabs st /\
  activeTabId (hide_timeout st) = activeTabId st.
Proof. unfold hide_timeout. branches; now split. Qed.

Lemma copyToClipboard_frame (available : bool) (st : App) :
  tabs (copyToClipboard available st) = tabs st /\
  activeTabId (copyToClipboard available st) = activeTabId st.
Proof. unfold copyToClipboard. branches; now split. Qed.

Lemma clipboard_settled_frame (now : Z) (written : bool) (st : App) :
  tabs (clipboard_settled now written st) = tabs st /\
  activeTabId (clipboard_settled now written st) = activeTabId st.
Proof. unfold clipboard_settled. branches; now split. Qed.

Lemma copied_timeout_frame (st : App) :
  tabs (copied_timeout st) = tabs st /\
  activeTabId (copied_timeout st) = activeTabId st.
Proof. unfold copied_timeout. branches; now split. Qed.






End Frames.

Section Reachable.


Lemma mount_frame (savedTabs : option Saved)
  (savedActiveTab : option string) (speech : bool) (now : Z) :
  tabs (mount savedTabs savedActiveTab speech now) = initial_tabs savedTabs
  /\
  activeTabId (mount savedTabs savedActiveTab speech now)
  = initial_activeTabId savedActiveTab.
Proof. unfold mount, recognition_effect. now destruct speech. Qed.



End Reachable.




(** ** The utterance and the active tab *)

Section ActiveTab.

(** The merge throws on inherited property names only. *)
Lemma merge_throws (seen content T : string) :
  merge seen content T = TypeError ->
  own_property DICTATION_COMMANDS T = None /\ In T Object_prototype.
Proof.
  destruct (get_property_cases T)
    as [(v & Ho & Hg) | [(Ho & Hin & Hg) | (Ho & _ & Hg)]].
  - rewrite (merge_command _ _ _ _ Ho). cbn [command_content].
    now repeat destruct (_ && _).
  - now split.
  - rewrite merge_dictated by now rewrite Hg. discriminate.
Qed.

(** Content the merge produces is longer than the content it started
    from. *)
Lemma merge_grows (seen content T r : string) :
  merge seen content T = Done r ->
  (String.length content < String.length r)%nat.
Proof.
  destruct (get_property_cases T)
    as [(v & Ho & Hg) | [(Ho & Hin & Hg) | (Ho & _ & Hg)]].
  - rewrite (merge_command _ _ _ _ Ho). cbn [command_content].
    destruct (substitution_shape _ _ Ho) as (Hv & _).
    apply truthy_true in Hv.
    assert (Hlen : (0 < String.length v)%nat)
      by (destruct v; [congruence | simpl; lia]).
    destruct (startsWith v nl && truthy content
              && negb (endsWith content " ")).
    { intros H. injection H as <-. rewrite !length_append. simpl. lia. }
    destruct (truthy content && endsWith content " " && negb (v =? " "))
      eqn:C2.
    + apply andb_true_iff in C2. destruct C2 as [C2 _].
      apply andb_true_iff in C2. destruct C2 as [_ C2].
      apply endsWith_spec in C2. destruct C2 as [q ->].
      intros H. injection H as <-. rewrite dropLast_snoc.
      rewrite !length_append. simpl. lia.
    + intros H. injection H as <-. rewrite !length_append. simpl. lia.
  - unfold merge. rewrite Hg. discriminate.
  - rewrite merge_dictated by now rewrite Hg.
    intros H. injection H as <-. unfold dictation_content.
    rewrite !length_append. simpl. lia.
Qed.

Lemma find_id_is_some (x : string) (l : list Tab) :
  In x (map id l) -> exists tab, find (id_is (Some x)) l = Some tab.
Proof.
  induction l as [|t l IH]; simpl; [contradiction |].
  destruct (String.eqb_spec (id t) x) as [E | N].
  - intros _. now exists t.
  - intros [E | H]; [contradiction | now apply IH].
Qed.

Lemma find_id_is_in (x : string) (l : list Tab) (tab : Tab) :
  find (id_is (Some x)) l = Some tab -> In x (map id l).
Proof.
  intros H. apply find_some in H. destruct H as [Hin E].
  simpl in E. apply String.eqb_eq in E. subst x. now apply in_map.
Qed.

End ActiveTab.

Section Session.

Ltac cases :=
  repeat match goal with
         | |- context [if ?b then _ else _] => destruct b
         | |- context [match ?x with _ => _ end] => destruct x
         end.

Lemma result_event_started (captured : list Tab) (now : Z)
  (transcript : string) (st st' : App) :
  result_event captured now transcript st = Done st' ->
  started st' = started st.
Proof.
  unfold result_event. destruct (find _ _).
  - destruct (onresult _ _ _ _); simpl; [| discriminate].
    now intros H; injection H as <-.
  - now intros H; injection H as <-.
Qed.

Lemma recognition_effect_started (st : App) :
  started (recognition_effect st) = started st.
Proof. unfold recognition_effect. now destruct (supported st). Qed.

(** A recognition object that listens goes on listening, with the handler
    and the tabs it was created with, through every event but the toggle of
    the microphone button and an error of its own: tabs may be set and new
    recognition objects created meanwhile. *)
Lemma started_recognition_keeps_its_handler (ev : Event) (st st' : App)
  (r : Recognition) :
  In r (started st) -> step ev st = Done st' ->
  match ev with
  | ToggleListening _ | RecognitionError _ _ => True
  | _ => In r (started st')
  end.
Proof.
  intros Hin H. destruct ev; try exact I; simpl in H.
  - injection H as <-. now rewrite recognition_effect_started.
  - destruct (_ =? _)%nat; injection H as <-; [exact Hin |].
    rewrite recognition_effect_started. simpl.
    unfold closeTab. cases; exact Hin.
  - injection H as <-. unfold handleTabClick. cases; exact Hin.
  - destruct (find _ _); injection H as <-; exact Hin.
  - injection H as <-. exact Hin.
  - destruct (_ && _); injection H as <-;
      rewrite ?recognition_effect_started;
      unfold handleTitleKeyDown, finishEditingTitle; cases; exact Hin.
  - destruct (editing st); injection H as <-;
      rewrite ?recognition_effect_started;
      unfold finishEditingTitle; cases; exact Hin.
  - injection H as <-. now rewrite recognition_effect_started.
  - destruct (find _ _); [| injection H as <-; exact Hin].
    destruct (result_event _ _ _ _) as [mid|] eqn:E; simpl in H;
      [| discriminate].
    injection H as <-. rewrite recognition_effect_started.
    now rewrite (result_event_started _ _ _ _ _ E).
  - injection H as <-. unfold checkSpeechDetection. cases; exact Hin.
  - injection H as <-. unfold hide_timeout. cases; exact Hin.
  - injection H as <-. unfold copyToClipboard. cases; exact Hin.
  - injection H as <-. unfold clipboard_settled. cases; exact Hin.
  - injection H as <-. unfold copied_timeout. cases; exact Hin.
Qed.

End Session.

(** After a tab is selected and the ref cell has followed, the handler
    works on the tab with the selected id, whatever tab list its closure
    captured and whatever tab was active before.  When it completes, the tab
    list keeps its length, every tab keeps its id and title in place, and
    every tab with another id keeps its content; when the captured list knows
    the selected id, the selected tab receives the merged text and so grows;
    when it does not, nothing changes.  It throws only when the captured list
    knows the selected id, a tab with that id exists and the transcript is an
    inherited property name. *)
Lemma result_follows_activeTabRef (captured : list Tab) (st : App)
  (tabId : string) (now : Z) (transcript : string) :
  let switched := sync_activeTabRef (handleTabClick tabId st) in
  let T := trim (toLowerCase transcript) in
  activeTabRef switched = Some tabId /\ tabs switched = tabs st /\
  match result_event captured now transcript switched with
  | Done st' =>
      List.length (tabs st') = List.length (tabs st) /\
      forall i tab,
        nth_error (tabs st) i = Some tab ->
        exists tab',
          nth_error (tabs st') i = Some tab' /\
          id tab' = id tab /\ title tab' = title tab /\
          (id tab <> tabId -> content tab' = content tab) /\
          (id tab = tabId -> In tabId (map id captured) ->
           (String.length (content tab) < String.length (content tab'))%nat /\
           exists currentTab,
             find (id_is (Some tabId)) captured = Some currentTab /\
             merge (content currentTab) (content tab) T
             = Done (content tab'))
  | TypeError =>
      In tabId (map id captured) /\ In tabId (map id (tabs st)) /\
      own_property DICTATION_COMMANDS T = None /\ In T Object_prototype
  end.
Proof.
  intros switched T.
  assert (Href : activeTabRef switched = Some tabId)
    by (unfold switched, sync_activeTabRef; simpl;
        apply handleTabClick_frame).
  assert (Htabs : tabs switched = tabs st)
    by (unfold switched; simpl; apply handleTabClick_frame).
  split; [exact Href |]. split; [exact Htabs |].
  unfold result_event. rewrite Href, Htabs.
  destruct (find (id_is (Some tabId)) captured) as [cur|] eqn:Ecur.
  - rewrite onresult_merge, Ecur. fold T.
    set (f := fun tab : Tab =>
                if id_is (Some tabId) tab
                then bind (merge (content cur) (content tab) T)
                          (fun newContent => Done (with_content tab newContent))
                else Done tab).
    destruct (map_outcome f (tabs st)) as [next|] eqn:E; cbn [bind].
    + apply map_outcome_nth in E. destruct E as [Hlen Hnth].
      cbn [tabs setShowNoSpeechDetected set_lastSpeechDetected setTabs].
      split; [exact Hlen |].
      intros i tab Hi. destruct (Hnth i tab Hi) as (tab' & Hi' & Hf).
      exists tab'. split; [exact Hi' |].
      unfold f in Hf. cbn [id_is] in Hf.
      destruct (String.eqb_spec (id tab) tabId) as [Eid | Nid].
      * destruct (merge (content cur) (content tab) T) as [r|] eqn:Em;
          cbn [bind] in Hf; [| discriminate].
        injection Hf as <-. cbn [id title content with_content].
        split; [reflexivity |]. split; [reflexivity |].
        split; [congruence |].
        intros _ _. split; [now apply (merge_grows _ _ _ _ Em) |].
        now exists cur.
      * injection Hf as <-.
        split; [reflexivity |]. split; [reflexivity |].
        split; [reflexivity |]. intros Eid. contradiction.
    + apply map_outcome_throws in E. destruct E as (tab & Hin & Hf).
      unfold f in Hf. cbn [id_is] in Hf.
      destruct (String.eqb_spec (id tab) tabId) as [Eid | Nid];
        [| discriminate].
      destruct (merge (content cur) (content tab) T) eqn:Em;
        cbn [bind] in Hf; [discriminate |].
      apply merge_throws in Em. destruct Em as [Ho Hp].
      split; [now apply (find_id_is_in _ _ cur) |].
      split; [rewrite <- Eid; now apply in_map |]. now split.
  - rewrite Htabs. split; [reflexivity |].
    intros i tab Hi. exists tab. split; [exact Hi |].
    split; [reflexivity |]. split; [reflexivity |].
    split; [reflexivity |]. intros _ Hin.
    apply find_id_is_some in Hin. destruct Hin as [t Ht]. congruence.
Qed.

(** Two tabs are open when listening starts on tab ["1"]; tab ["17"] is
    selected; the next utterance lands in tab ["17"]. *)
Example utterance_after_switch :
  let captured :=
    [mkTab "1" "Untitled 1" "One. "; mkTab "17" "Untitled 2" ""] in
  let st :=
    mkApp captured (Some "1") (Some "1") None ""
      (Some (mkRecognition 0 captured)) true "" false 0 [] true 1
      [mkRecognition 0 captured] false [] None [] in
  match result_event captured 10 "hello"
          (sync_activeTabRef (handleTabClick "17" st)) with
  | Done st' =>
      tabs st'
      = [mkTab "1" "Untitled 1" "One. "; mkTab "17" "Untitled 2" "Hello "]
  | TypeError => False
  end.
Proof. reflexivity. Qed.

(** C8.  The handler reads the active id from the ref cell, but looks the tab
    up in the tab list it captured before listening started, and returns when
    the tab is not there.  On a fresh page, listening is started, then a new
    tab is opened, which makes it the active one, then "hello" is recognised:
    the ref cell holds the id of the new tab, and the utterance changes no
    tab, the new one included. *)
Theorem utterance_for_new_tab_is_dropped :
  exists st,
    run dictated_into_new_tab fresh_page = Done st /\
    reachable fresh_page st /\
    activeTabId st = Some "1700" /\ activeTabRef st = Some "1700" /\
    started st = [first_recognition] /\
    tabs st = [mkTab "1" "Untitled 1" ""; mkTab "1700" "Untitled 2" ""].
Proof.
  eexists. split; [vm_compute; reflexivity |]. split; [| repeat split].
  apply (run_reachable dictated_into_new_tab fresh_page fresh_page).
  - apply reachable_start.
  - vm_compute. repeat split; auto. intros [H | []]. discriminate.
  - vm_compute. reflexivity.
Qed.

(** ** The silence watchdog *)

(** C7.  A tick of the interval more than 5000 ms after the last utterance
    shows the notice and schedules one more hide 3000 ms later, whether or
    not the notice is already shown; a tick at most 5000 ms after the last
    utterance changes nothing; each scheduled hide, when it runs, hides the
    notice and leaves the later hides pending. *)
Theorem watchdog_tick (now : Z) (st : App) :
  ((now - lastSpeechDetected st > 5000)%Z ->
   showNoSpeechDetected (checkSpeechDetection now st) = true /\
   hideTimeouts (checkSpeechDetection now st)
   = (hideTimeouts st ++ [(now + 3000)%Z])%list /\
   lastSpeechDetected (checkSpeechDetection now st) = lastSpeechDetected st /\
   isListening (checkSpeechDetection now st) = isListening st /\
   tabs (checkSpeechDetection now st) = tabs st) /\
  ((now - lastSpeechDetected st <= 5000)%Z ->
   checkSpeechDetection now st = st) /\
  (forall due pending,
     hideTimeouts st = due :: pending ->
     showNoSpeechDetected (hide_timeout st) = false /\
     hideTimeouts (hide_timeout st) = pending /\
     lastSpeechDetected (hide_timeout st) = lastSpeechDetected st).
Proof.
  unfold checkSpeechDetection, hide_timeout. split; [| split].
  - intros H. apply Z.gtb_gt in H. rewrite H. now repeat split.
  - intros H. destruct (now - lastSpeechDetected st >? 5000)%Z eqn:E;
      [| reflexivity].
    apply Z.gtb_gt in E. lia.
  - intros due pending ->. now repeat split.
Qed.

Lemma watchdog_tick_witness :
  showNoSpeechDetected (checkSpeechDetection 6000 silent_session) = true /\
  hideTimeouts (checkSpeechDetection 6000 silent_session) = [9000%Z] /\
  checkSpeechDetection 5000 silent_session = silent_session /\
  showNoSpeechDetected
    (hide_timeout (checkSpeechDetection 6000 silent_session)) = false.
Proof.
  destruct (proj1 (watchdog_tick 6000 silent_session)) as (H1 & H2 & _);
    [reflexivity |].
  split; [exact H1 |]. split; [exact H2 |]. split.
  - apply (proj1 (proj2 (watchdog_tick 5000 silent_session))). discriminate.
  - apply (proj2 (proj2 (watchdog_tick 6000
                           (checkSpeechDetection 6000 silent_session)))
             9000%Z []).
    reflexivity.
Defined.

(** A tick while the notice is shown does raise it again: it schedules a
    second hide.  The hides left over from such ticks cut later notices
    short: after ticks at 6000, 7000, 8000 and 9000 ms and the first hide,
    the notice is off; the tick at 10000 ms shows it again, and the oldest
    pending hide, due at 10000 ms already, takes it away at once. *)
Lemma tick_while_shown_schedules_again :
  let shown := checkSpeechDetection 6000 silent_session in
  showNoSpeechDetected shown = true /\
  checkSpeechDetection 7000 shown <> shown /\
  hideTimeouts (checkSpeechDetection 7000 shown) = [9000; 10000]%Z /\
  exists st,
    run [IntervalTick 6000; IntervalTick 7000; IntervalTick 8000;
         IntervalTick 9000; HideTimeout] silent_session = Done st /\
    showNoSpeechDetected st = false /\
    showNoSpeechDetected (checkSpeechDetection 10000 st) = true /\
    hideTimeouts (checkSpeechDetection 10000 st)
    = [10000; 11000; 12000; 13000]%Z /\
    showNoSpeechDetected (hide_timeout (checkSpeechDetection 10000 st))
    = false.
Proof.
  cbv zeta. split; [reflexivity |]. split; [discriminate |].
  split; [reflexivity |].
  eexists. split; [reflexivity |]. repeat split.
Qed.

(** ** Further properties of the transcript pipeline *)


(** X2.  Every phrase of the command table is in normal form, so it can be
    matched: spoken in lower or in upper case, with any white space around
    it, it is normalised to the key and merged as its substitution. *)
Theorem spoken_command_is_recognised (key v w1 w2 : string) :
  own_property DICTATION_COMMANDS key = Some v ->
  all_space w1 = true -> all_space w2 = true ->
  trim (toLowerCase (w1 ++ key ++ w2)) = key /\
  trim (toLowerCase (w1 ++ toUpperCase key ++ w2)) = key /\
  forall seen content,
    merge seen content (trim (toLowerCase (w1 ++ toUpperCase key ++ w2)))
    = command_content (Str v) content.
Proof.
  intros Ho H1 H2.
  assert (Hkey : key <> "" /\ trim_ascii key = key /\
                 ascii_only key = true /\ lower_ascii key = key /\
                 ascii_only (toUpperCase key) = true /\
                 lower_ascii (toUpperCase key) = key).
  { apply own_property_In in Ho. simpl in Ho.
    repeat (destruct Ho as [Ho | Ho];
            [injection Ho as <- <-;
             repeat split; try discriminate; reflexivity |]).
    contradiction. }
  destruct Hkey as (Hne & Ht & Ha & Hl & Hau & Hu).
  assert (E1 : trim (toLowerCase (w1 ++ key ++ w2)) = key)
    by now apply normalise_padded.
  assert (E2 : trim (toLowerCase (w1 ++ toUpperCase key ++ w2)) = key)
    by now apply normalise_padded.
  split; [exact E1 |]. split; [exact E2 |].
  intros seen content. rewrite E2. now apply merge_command.
Qed.

Lemma spoken_command_is_recognised_witness :
  trim (toLowerCase (" " ++ "question mark" ++ "  ")) = "question mark" /\
  trim (toLowerCase (" " ++ toUpperCase "question mark" ++ "  "))
  = "question mark" /\
  forall seen content,
    merge seen content
      (trim (toLowerCase (" " ++ toUpperCase "question mark" ++ "  ")))
    = command_content (Str "?") content.
Proof.
  apply (spoken_command_is_recognised "question mark" "?" " " "  ");
    reflexivity.
Defined.

(** X3.  The merge throws for exactly two normalised transcripts,
    "constructor" and "__proto__": the other names an object literal
    inherits have an upper-case letter and cannot come out of the
    normaliser. *)
Theorem merge_throws_on_two_transcripts_only
  (seen content transcript : string) :
  let T := trim (toLowerCase transcript) in
  merge seen content T = TypeError <-> T = "constructor" \/ T = "__proto__".
Proof.
  intros T. pose proof (normalised_no_capital transcript) as Hlow.
  fold T in Hlow. clearbody T. split.
  - intros H. apply merge_throws in H. destruct H as [_ Hin].
    simpl in Hin.
    repeat (destruct Hin as [Hin | Hin];
            [subst T; first [now left | now right | discriminate Hlow] |]).
    contradiction.
  - intros [-> | ->]; reflexivity.
Qed.

(** X4.  The merge only appends: the content it produces is the prior
    content followed by added text, except that a command spoken after
    content that ends with a space takes that one space away before its
    substitution.  Nothing else of the prior content is ever removed or
    changed. *)
Theorem merge_only_appends (seen content T r : string) :
  merge seen content T = Done r ->
  exists kept added,
    r = kept ++ added /\ added <> "" /\
    (kept = content \/
     (content = kept ++ " " /\
      exists v, own_property DICTATION_COMMANDS T = Some v /\
                added = v ++ " ")).
Proof.
  destruct (get_property_cases T)
    as [(v & Ho & Hg) | [(Ho & Hin & Hg) | (Ho & _ & Hg)]].
  - rewrite (merge_command _ _ _ _ Ho). cbn [command_content].
    destruct (startsWith v nl && truthy content
              && negb (endsWith content " ")).
    { intros H. injection H as <-. exists content, (" " ++ v).
      split; [reflexivity |]. split; [discriminate | now left]. }
    destruct (truthy content && endsWith content " " && negb (v =? " "))
      eqn:C2.
    + apply andb_true_iff in C2. destruct C2 as [C2 _].
      apply andb_true_iff in C2. destruct C2 as [_ C2].
      apply endsWith_spec in C2. destruct C2 as [q ->].
      intros H. injection H as <-. rewrite dropLast_snoc.
      exists q, (v ++ " "). split; [reflexivity |].
      split; [apply append_nonempty_r; discriminate |].
      right. split; [reflexivity |]. now exists v.
    + intros H. injection H as <-. exists content, (v ++ " ").
      split; [reflexivity |].
      split; [apply append_nonempty_r; discriminate | now left].
  - unfold merge. rewrite Hg. discriminate.
  - rewrite merge_dictated by now rewrite Hg.
    intros H. injection H as <-. unfold dictation_content.
    eexists content, _. split; [reflexivity |].
    split; [| now left].
    apply append_nonempty_r, append_nonempty_r. discriminate.
Qed.

Lemma merge_only_appends_witness :
  exists kept added,
    "Wait. " = kept ++ added /\ added <> "" /\
    (kept = "Wait " \/
     ("Wait " = kept ++ " " /\
      exists v, own_property DICTATION_COMMANDS "period" = Some v /\
                added = v ++ " ")).
Proof.
  apply (merge_only_appends "Wait " "Wait " "period" "Wait. "). reflexivity.
Defined.

(** X5.  Dictated text is set off by single spaces.  For a dictated
    utterance whose normalised transcript [T] is non-empty, the text
    appended is [T], with or without its first code unit in upper case by
    the Unicode mapping; it neither starts nor ends with a space, a tab or a
    line break; it follows the content directly when the content is empty or
    ends with a space, and after one space otherwise; and one space follows
    it. *)
Theorem dictation_is_set_off_by_single_spaces
  (seen content transcript : string) :
  let T := trim (toLowerCase transcript) in
  T <> "" ->
  truthy_value (get_property DICTATION_COMMANDS T) = false ->
  exists P,
    (P = T \/ capitalized T P) /\
    (forall c t, P = String c t -> is_space c = false) /\
    (forall c, lastChar P = Some c -> is_space c = false) /\
    ((content = "" \/ exists q, content = q ++ " ") ->
     merge seen content T = Done (content ++ P ++ " ")) /\
    ((content <> "" /\ forall q, content <> q ++ " ") ->
     merge seen content T = Done (content ++ " " ++ P ++ " ")).
Proof.
  intros T HT Hd. exists (processedText seen T).
  assert (Hfirst : forall c t, T = String c t -> is_space c = false)
    by (intros c t; apply trim_first).
  destruct (capital_edges T HT Hfirst (trim_last _)) as [Cfirst _].
  split; [| split; [| split; [| split]]].
  - unfold processedText. destruct (_ || _); [now right | now left].
  - unfold processedText. destruct (_ || _); [exact Cfirst | exact Hfirst].
  - destruct (processedText_last seen T HT (trim_last _)) as (c & Hc & Hsp).
    intros c' Hc'. congruence.
  - intros Hc. rewrite (merge_dictated _ _ _ Hd). unfold dictation_content.
    destruct Hc as [-> | [q ->]]; [reflexivity |].
    now rewrite endsWith_append, andb_false_r.
  - intros [Hc Hq]. rewrite (merge_dictated _ _ _ Hd).
    unfold dictation_content. apply truthy_true in Hc. rewrite Hc.
    destruct (endsWith content " ") eqn:E; [| reflexivity].
    apply endsWith_spec in E. destruct E as [q E]. now apply Hq in E.
Qed.

Lemma dictation_is_set_off_by_single_spaces_witness :
  exists P,
    (P = "école" \/ capitalized "école" P) /\
    (forall c t, P = String c t -> is_space c = false) /\
    (forall c, lastChar P = Some c -> is_space c = false) /\
    (("Fin." = "" \/ exists q, "Fin." = q ++ " ") ->
     merge "Fin. " "Fin." "école" = Done ("Fin." ++ P ++ " ")) /\
    (("Fin." <> "" /\ forall q, "Fin." <> q ++ " ") ->
     merge "Fin. " "Fin." "école" = Done ("Fin." ++ " " ++ P ++ " ")).
Proof.
  apply (dictation_is_set_off_by_single_spaces "Fin. " "Fin." " ÉCOLE ").
  - discriminate.
  - reflexivity.
Defined.

(** Transcripts with characters outside the ASCII range: accented capitals
    are lower-cased and a no-break space (U+00A0) is trimmed; at the start
    of a sentence an accented first letter is capitalised, a sharp s becomes
    two capitals, and a capital sigma at the end of a word is lower-cased to
    the final sigma. *)
Example transcripts_outside_ascii :
  let nbsp := String (byte 0xC2) (String (byte 0xA0) "") in
  trim (toLowerCase (nbsp ++ "ÉCOLE Élémentaire" ++ nbsp))
  = "école élémentaire" /\
  merge "Fin. " "Fin. " "école" = Done "Fin. École " /\
  merge "fin" "fin" "école" = Done "fin école " /\
  merge "" "" "ßa" = Done "SSa " /\
  toLowerCase "ΟΔΟΣ ΣΟΦΙΑΣ" = "οδος σοφιας".
Proof. cbv zeta. repeat split; vm_compute; reflexivity. Qed.

(** X6.  The handler never adds, removes, reorders or renames a tab, and it
    leaves alone every tab whose id is not the one in the ref cell.  When no
    captured tab carries the id of the ref cell, or the ref cell is
    undefined, it returns the tab list as it is. *)
Theorem onresult_keeps_the_tab_list (captured : list Tab)
  (ref : option string) (transcript : string) (prevTabs : list Tab) :
  (find (id_is ref) captured = None ->
   onresult captured ref transcript prevTabs = Done prevTabs) /\
  (ref = None -> onresult captured ref transcript prevTabs = Done prevTabs) /\
  forall next,
    onresult captured ref transcript prevTabs = Done next ->
    map id next = map id prevTabs /\
    map title next = map title prevTabs /\
    forall i tab,
      nth_error prevTabs i = Some tab -> id_is ref tab = false ->
      nth_error next i = Some tab.
Proof.
  assert (Hnone : find (id_is ref) captured = None ->
                  onresult captured ref transcript prevTabs = Done prevTabs).
  { intros H. unfold onresult. now rewrite H. }
  split; [exact Hnone |]. split.
  - intros ->. apply Hnone. clear. induction captured; simpl; auto.
  - intros next H. split; [now apply onresult_ids in H |].
    rewrite onresult_merge in H.
    destruct (find (id_is ref) captured) as [cur|];
      [| injection H as <-; now split].
    apply map_outcome_nth in H. destruct H as [Hlen Hnth]. split.
    + apply nth_error_ext. intros i. rewrite !nth_error_map.
      destruct (nth_error prevTabs i) as [tab|] eqn:E.
      * destruct (Hnth i tab E) as (tab' & -> & Hf). simpl.
        destruct (id_is ref tab).
        -- destruct (merge _ _ _); simpl in Hf; [| discriminate].
           now injection Hf as <-.
        -- now injection Hf as <-.
      * apply nth_error_None in E. rewrite <- Hlen in E.
        apply nth_error_None in E. now rewrite E.
    + intros i tab E Hid. destruct (Hnth i tab E) as (tab' & -> & Hf).
      rewrite Hid in Hf. now injection Hf as <-.
Qed.

(** ** Further properties of the tab store *)

Section TabUpdates.

Local Open Scope list_scope.

Lemma nth_error_map_tab (f : Tab -> Tab) (l : list Tab) (i : nat) (tab : Tab) :
  nth_error l i = Some tab -> nth_error (map f l) i = Some (f tab).
Proof. intros H. now rewrite nth_error_map, H. Qed.

Lemma find_none_absent (x : option string) (l : list Tab) (tab : Tab) :
  find (id_is x) l = None -> In tab l -> id_is x tab = false.
Proof. intros H Hin. now apply (find_none _ _ H). Qed.

Lemma map_unless_found (x : option string) (f : Tab -> Tab) (l : list Tab) :
  find (id_is x) l = None ->
  map (fun tab => if id_is x tab then f tab else tab) l = l.
Proof.
  intros H. rewrite <- (map_id l) at 2. apply map_ext_in.
  intros tab Hin. now rewrite (find_none_absent _ _ _ H Hin).
Qed.

Lemma findIndex_absent (tabId : string) (l : list Tab) :
  ~ In tabId (map id l) ->
  findIndex (fun tab => id tab =? tabId) l = (-1)%Z.
Proof.
  induction l as [|tab l IH]; simpl; [reflexivity |]. intros H.
  destruct (String.eqb_spec (id tab) tabId) as [E | N].
  - exfalso. apply H. now left.
  - rewrite IH by (intros Hin; apply H; now right). reflexivity.
Qed.

Lemma find_fresh_last (x : string) (l : list Tab) (tab : Tab) :
  ~ In x (map id l) -> id tab = x ->
  find (id_is (Some x)) (l ++ [tab]) = Some tab.
Proof.
  intros H E. induction l as [|t l IH]; simpl.
  - apply String.eqb_eq in E. now rewrite E.
  - destruct (String.eqb_spec (id t) x) as [Et | N].
    + exfalso. apply H. now left.
    + apply IH. intros Hin. apply H. now right.
Qed.

End TabUpdates.

(** X7.  Renaming.  [finishEditingTitle] ends the editing and changes
    nothing but titles: the tab whose (non-empty) id is being edited gets the
    typed title without the white space around it, or ["Untitled"] when
    nothing but white space was typed, so its title is never empty; every
    other tab is left as it is, and ids, contents, order and the active id
    are kept. *)
Theorem finishEditingTitle_renames (st : App) :
  let st' := finishEditingTitle st in
  let typed := trim (editingTitleValue st) in
  isEditingTitle st' = None /\ editingTitleValue st' = "" /\
  activeTabId st' = activeTabId st /\
  map id (tabs st') = map id (tabs st) /\
  map content (tabs st') = map content (tabs st) /\
  forall i tab,
    nth_error (tabs st) i = Some tab ->
    exists tab',
      nth_error (tabs st') i = Some tab' /\
      (isEditingTitle st = Some (id tab) /\ id tab <> "" ->
       title tab' <> "" /\
       (typed <> "" -> title tab' = typed) /\
       (typed = "" -> title tab' = "Untitled")) /\
      (~ (isEditingTitle st = Some (id tab) /\ id tab <> "") -> tab' = tab).
Proof.
  intros st' typed. unfold st', finishEditingTitle.
  destruct (isEditingTitle st) as [e|] eqn:Ee.
  2:{ repeat split; try reflexivity. intros i tab Hi. exists tab.
      split; [exact Hi |]. split; [intros [H _]; discriminate | reflexivity]. }
  destruct (truthy e) eqn:Et.
  2:{ apply truthy_false in Et. subst e.
      repeat split; try reflexivity. intros i tab Hi. exists tab.
      split; [exact Hi |]. split; [| reflexivity].
      intros [H N]. injection H as H. congruence. }
  apply truthy_true in Et. cbn.
  split; [reflexivity |]. split; [reflexivity |]. split; [reflexivity |].
  split; [| split].
  - rewrite map_map. apply map_ext. intros tab. now destruct (id tab =? e).
  - rewrite map_map. apply map_ext. intros tab. now destruct (id tab =? e).
  - intros i tab Hi. eexists.
    split; [rewrite nth_error_map, Hi; reflexivity |].
    destruct (String.eqb_spec (id tab) e) as [E | N].
    + split; [| intros H; exfalso; apply H; split; congruence].
      intros _. fold typed. cbn [title with_title].
      destruct (truthy typed) eqn:Ty.
      * apply truthy_true in Ty. repeat split; congruence.
      * apply truthy_false in Ty. repeat split; congruence.
    + split; [| reflexivity]. intros [H _]. congruence.
Qed.

(** A title of white space only, be it a no-break space (U+00A0), is
    replaced by ["Untitled"]. *)
Example blank_title_becomes_Untitled :
  let nbsp := String (byte 0xC2) (String (byte 0xA0) "") in
  map title
    (tabs (finishEditingTitle
             (handleTitleChange (" " ++ nbsp)
                (startEditingTitle "17" "Untitled 2" three_tabs))))
  = ["Untitled 1"; "Untitled"; "Untitled 3"]%list.
Proof. vm_compute. reflexivity. Qed.

(** X8.  A new tab.  With an id no tab carries yet, [addNewTab] puts one tab
    at the end and leaves the tabs before it as they are; the new tab has
    the clock value as its id, the title ["Untitled n"] with [n] the new
    number of tabs, and empty content; it is the active tab, and its title is
    open for editing. *)
Theorem addNewTab_opens_an_empty_active_tab (now : Z) (st : App) :
  ~ In (String_of_Z now) (map id (tabs st)) ->
  let st' := addNewTab now st in
  exists newTab,
    tabs st' = (tabs st ++ [newTab])%list /\
    id newTab = String_of_Z now /\
    title newTab
    = "Untitled " ++ String_of_Z (Z.of_nat (List.length (tabs st')))
    /\ content newTab = "" /\
    activeTabId st' = Some (id newTab) /\ activeTab st' = Some newTab /\
    isEditingTitle st' = Some (id newTab) /\
    editingTitleValue st' = title newTab.
Proof.
  intros Hfresh st'.
  exists (mkTab (String_of_Z now)
            ("Untitled "
             ++ String_of_Z (Z.of_nat (List.length (tabs st)) + 1)) "").
  split; [reflexivity |]. split; [reflexivity |]. split.
  - cbn. rewrite length_app. cbn [List.length].
    now rewrite Nat2Z.inj_add.
  - split; [reflexivity |]. split; [reflexivity |].
    split; [| split; reflexivity].
    unfold activeTab. cbn [activeTabId tabs st' addNewTab
      setEditingTitleValue setIsEditingTitle setActiveTabId setTabs].
    erewrite find_fresh_last; [reflexivity | exact Hfresh | reflexivity].
Qed.

Lemma addNewTab_opens_an_empty_active_tab_witness :
  exists newTab,
    tabs (addNewTab 1700 three_tabs) = (tabs three_tabs ++ [newTab])%list /\
    id newTab = String_of_Z 1700 /\
    title newTab
    = "Untitled "
      ++ String_of_Z (Z.of_nat (List.length (tabs (addNewTab 1700 three_tabs))))
    /\ content newTab = "" /\
    activeTabId (addNewTab 1700 three_tabs) = Some (id newTab) /\
    activeTab (addNewTab 1700 three_tabs) = Some newTab /\
    isEditingTitle (addNewTab 1700 three_tabs) = Some (id newTab) /\
    editingTitleValue (addNewTab 1700 three_tabs) = title newTab.
Proof.
  apply (addNewTab_opens_an_empty_active_tab 1700 three_tabs).
  simpl. intuition discriminate.
Defined.

(** X9.  Typed text.  [handleTextChange] replaces the content of the tabs
    that carry the active id by the typed value and keeps everything else;
    the last value typed wins; and when no tab carries the active id the
    typed value is lost: the tab list stays as it is, although the first tab
    is shown as the active one. *)
Theorem handleTextChange_writes_the_active_tab (value : string) (st : App) :
  let st' := handleTextChange value st in
  activeTabId st' = activeTabId st /\
  map id (tabs st') = map id (tabs st) /\
  map title (tabs st') = map title (tabs st) /\
  (forall i tab,
     nth_error (tabs st) i = Some tab ->
     nth_error (tabs st') i
     = Some (if id_is (activeTabId st) tab then with_content tab value
             else tab)) /\
  (forall other,
     tabs (handleTextChange other st') = tabs (handleTextChange other st)) /\
  (find (id_is (activeTabId st)) (tabs st) = None ->
   tabs st' = tabs st /\ activeTab st' = nth_error (tabs st) 0).
Proof.
  intros st'. unfold st', handleTextChange, updateActiveTabContent.
  cbn [tabs setTabs activeTabId].
  split; [reflexivity |]. split; [| split; [| split; [| split]]].
  - rewrite map_map. apply map_ext. intros tab. now destruct (id_is _ tab).
  - rewrite map_map. apply map_ext. intros tab. now destruct (id_is _ tab).
  - intros i tab Hi. now rewrite nth_error_map, Hi.
  - intros other. rewrite map_map. apply map_ext. intros tab.
    destruct (id_is (activeTabId st) tab) eqn:E; [| now rewrite E].
    assert (E' : id_is (activeTabId st) (with_content tab value) = true)
      by exact E.
    now rewrite E'.
  - intros Hnone.
    pose proof (map_unless_found _ (fun tab => with_content tab value) _
                  Hnone) as E.
    split; [exact E |]. unfold activeTab. cbn [tabs setTabs activeTabId].
    now rewrite E, Hnone.
Qed.

(** X10.  Selecting a tab.  [handleTabClick] makes the clicked id the active
    id and never touches the tabs; in a tab list with distinct ids the
    clicked tab becomes the active tab; a click on the tab that is active
    already opens its title for editing, with its current title as the
    value; a click on another tab leaves the title editor as it is. *)
Theorem handleTabClick_selects (tabId : string) (st : App) :
  let st' := handleTabClick tabId st in
  tabs st' = tabs st /\ activeTabId st' = Some tabId /\
  (forall tab, NoDup (map id (tabs st)) -> In tab (tabs st) ->
               id tab = tabId -> activeTab st' = Some tab) /\
  (forall tab, activeTabId st = Some tabId ->
               find (fun t => id t =? tabId) (tabs st) = Some tab ->
               isEditingTitle st' = Some tabId /\
               editingTitleValue st' = title tab) /\
  (activeTabId st <> Some tabId ->
   isEditingTitle st' = isEditingTitle st /\
   editingTitleValue st' = editingTitleValue st).
Proof.
  intros st'.
  destruct (handleTabClick_frame tabId st) as [Ht Ha]. fold st' in Ht, Ha.
  split; [exact Ht |]. split; [exact Ha |]. split; [| split].
  - intros tab Hnd Hin <-. apply activeTab_by_id; rewrite ?Ht; auto.
  - intros tab Hact Hfind. unfold st', handleTabClick. rewrite Hact.
    rewrite String.eqb_refl, Hfind. now split.
  - intros Hact. unfold st', handleTabClick.
    destruct (activeTabId st) as [a|]; [| now split].
    destruct (String.eqb_spec tabId a) as [-> | N]; [congruence | now split].
Qed.

(** X11.  Closing an id that no tab carries removes nothing.  If that id
    was the active id, which then named no tab, the first tab's id becomes
    the active id (when there is more or less than one tab); otherwise the
    active id is kept. *)
Theorem closeTab_unknown_id (tabId : string) (st : App) :
  ~ In tabId (map id (tabs st)) ->
  tabs (closeTab tabId st) = tabs st /\
  (activeTabId st <> Some tabId ->
   activeTabId (closeTab tabId st) = activeTabId st) /\
  (activeTabId st = Some tabId -> List.length (tabs st) <> 1%nat ->
   activeTabId (closeTab tabId st) = option_map id (nth_error (tabs st) 0)).
Proof.
  intros Habs. split; [| split].
  - unfold closeTab. destruct (List.length (tabs st) =? 1)%nat;
      [reflexivity |].
    assert (E : tabs (setTabs (filter (fun tab => negb (id tab =? tabId))
                                (tabs st)) st) = tabs st)
      by (cbn; now apply filter_other_ids).
    destruct (activeTabId st) as [a|]; [destruct (a =? tabId) |]; exact E.
  - apply closeTab_other_active.
  - intros Hact Hlen. rewrite (closeTab_active _ _ Hlen Hact). cbn zeta.
    rewrite (findIndex_absent _ _ Habs).
    rewrite id_at_negative by lia.
    change (-1 + 1)%Z with (Z.of_nat 0). rewrite id_at_nat.
    reflexivity.
Qed.

Lemma closeTab_unknown_id_witness :
  tabs (closeTab "99" three_tabs) = tabs three_tabs /\
  (activeTabId three_tabs <> Some "99" ->
   activeTabId (closeTab "99" three_tabs) = activeTabId three_tabs) /\
  (activeTabId three_tabs = Some "99" ->
   List.length (tabs three_tabs) <> 1%nat ->
   activeTabId (closeTab "99" three_tabs)
   = option_map id (nth_error (tabs three_tabs) 0)).
Proof.
  apply (closeTab_unknown_id "99" three_tabs). simpl. intuition discriminate.
Defined.

(** ** Invariants of the reachable states *)

Section Invariants.

Local Open Scope list_scope.

(** What a result event leaves behind: the state as it was, when the
    captured tabs do not know the id of the ref cell, or the merged tabs with
    the watchdog reset and a new recognition object. *)
Lemma step_result_cases (r : Recognition) (now : Z) (transcript : string)
  (st st' : App) :
  step (RecognitionResult r now transcript) st = Done st' ->
  (find (id_is (activeTabRef st)) (handler_tabs r) = None /\ st' = st) \/
  (exists currentTab next,
     find (id_is (activeTabRef st)) (handler_tabs r) = Some currentTab /\
     onresult (handler_tabs r) (activeTabRef st) transcript (tabs st)
     = Done next /\
     st' = recognition_effect
             (setShowNoSpeechDetected false
                (set_lastSpeechDetected now (setTabs next st)))).
Proof.
  cbn [step]. unfold result_event.
  destruct (find (id_is (activeTabRef st)) (handler_tabs r)) as [cur|] eqn:E.
  - destruct (onresult _ _ _ _) as [next|] eqn:O; cbn [bind];
      [| discriminate].
    intros H. injection H as <-. right. now exists cur, next.
  - intros H. injection H as <-. now left.
Qed.

End Invariants.

Ltac handlers :=
  unfold recognition_effect, sync_activeTabRef, listening_effect,
    toggleListening, onerror, checkSpeechDetection, hide_timeout,
    copyToClipboard, clipboard_settled, copied_timeout,
    handleTitleKeyDown, finishEditingTitle, handleTitleChange,
    startEditingTitle, handleTabClick, handleTextChange,
    updateActiveTabContent, closeTab, addNewTab in *.

Ltac branch_goal :=
  repeat match goal with
         | |- context [if ?b then _ else _] => destruct b eqn:?
         | |- context [match ?x with _ => _ end] => destruct x eqn:?
         end.

Ltac open_step H :=
  cbn [step] in H;
  repeat match type of H with
         | context [if ?b then _ else _] => destruct b eqn:?
         | context [match ?x with _ => _ end] => destruct x eqn:?
         end;
  try discriminate H; injection H as <-.

Section RefCell.

Lemma step_ref (ev : Event) (st st' : App) :
  activeTabRef st = activeTabId st -> step ev st = Done st' ->
  activeTabRef st' = activeTabId st'.
Proof.
  intros Inv H. destruct ev;
    try (open_step H; handlers; branch_goal; cbn; congruence).
  apply step_result_cases in H.
  destruct H as [[_ ->] | (cur & next & _ & _ & ->)]; [exact Inv |].
  handlers. branch_goal; cbn; exact Inv.
Qed.

End RefCell.

(** X12.  Between events the ref cell holds the active id: in every state
    the page reaches after it is mounted, [activeTabRef.current] equals
    [activeTabId], so a handler that reads the ref cell reads the id of the
    tab that is active now. *)
Theorem ref_cell_follows_active_id (savedTabs : option Saved)
  (savedActiveTab : option string) (speech : bool) (now : Z) (st : App) :
  reachable (mount savedTabs savedActiveTab speech now) st ->
  activeTabRef st = activeTabId st.
Proof.
  intros Hr. induction Hr as [| st st' ev _ IH _ Hstep].
  - unfold mount. handlers. now destruct speech.
  - now apply (step_ref ev st st').
Qed.

Lemma ref_cell_follows_active_id_witness :
  activeTabRef opened_then_closed = activeTabId opened_then_closed.
Proof.
  apply (ref_cell_follows_active_id None None true 0).
  apply reachable_step
    with (st := recognition_effect
                  (sync_activeTabRef (addNewTab 1700 fresh_page)))
         (ev := CloseTab "1").
  - apply reachable_step with (st := fresh_page) (ev := AddNewTab 1700).
    + apply reachable_start.
    + simpl. intuition discriminate.
    + reflexivity.
  - split; [simpl; auto | simpl; lia].
  - vm_compute. reflexivity.
Defined.

Section Watchdog.

Local Open Scope list_scope.

Lemma opened_then_closed_reachable : reachable fresh_page opened_then_closed.
Proof.
  apply reachable_step
    with (st := recognition_effect
                  (sync_activeTabRef (addNewTab 1700 fresh_page)))
         (ev := CloseTab "1").
  - apply reachable_step with (st := fresh_page) (ev := AddNewTab 1700).
    + apply reachable_start.
    + simpl. intuition discriminate.
    + reflexivity.
  - split; [simpl; auto | simpl; lia].
  - vm_compute. reflexivity.
Qed.

Lemma silent_session_reachable : reachable fresh_page silent_session.
Proof.
  apply reachable_step with (st := fresh_page) (ev := ToggleListening 0);
    [apply reachable_start | exact I | reflexivity].
Qed.

Lemma step_notice (ev : Event) (st st' : App) :
  notice_is_backed st -> enabled ev st -> step ev st = Done st' ->
  notice_is_backed st'.
Proof.
  unfold notice_is_backed. intros Inv Hen H. destruct ev;
    try (open_step H; handlers; branch_goal; cbn in *;
         try solve [intuition congruence]).
  - (* a result *)
    apply step_result_cases in H.
    destruct H as [[_ ->] | (cur & next & _ & _ & ->)]; [exact Inv |].
    handlers. branch_goal; cbn; discriminate.
  - (* a tick that shows the notice *)
    intros _. split; [exact Hen |]. intros E.
    now apply app_eq_nil in E.
Qed.

End Watchdog.

(** X13.  The silence notice is shown only while listening, and whenever it
    is shown a callback that hides it is pending: the notice cannot stay on
    after listening ends, and it cannot stay on for ever. *)
Theorem notice_is_shown_only_while_listening (savedTabs : option Saved)
  (savedActiveTab : option string) (speech : bool) (now : Z) (st : App) :
  reachable (mount savedTabs savedActiveTab speech now) st ->
  showNoSpeechDetected st = true ->
  isListening st = true /\ hideTimeouts st <> []%list.
Proof.
  intros Hr. change (notice_is_backed st).
  induction Hr as [| st st' ev _ IH Hen Hstep].
  - unfold mount, notice_is_backed. handlers.
    destruct speech; cbn; discriminate.
  - now apply (step_notice ev st st').
Qed.

Lemma notice_is_shown_only_while_listening_witness :
  isListening (checkSpeechDetection 6000 silent_session) = true /\
  hideTimeouts (checkSpeechDetection 6000 silent_session) <> []%list.
Proof.
  apply (notice_is_shown_only_while_listening None None true 0).
  - apply reachable_step with (st := silent_session)
                              (ev := IntervalTick 6000).
    + apply silent_session_reachable.
    + reflexivity.
    + reflexivity.
  - reflexivity.
Defined.

(** X14.  An utterance that is merged, and the start of listening, reset
    the watchdog: the notice is hidden, the time of the last speech is the
    time of the event, and a tick up to 5000 ms later changes nothing.  An
    utterance that is dropped, because the captured tabs do not know the id
    of the ref cell, resets nothing: the state stays as it is. *)
Theorem merged_utterance_resets_the_watchdog (r : Recognition) (now later : Z)
  (transcript : string) (st st' : App) :
  (step (RecognitionResult r now transcript) st = Done st' ->
   find (id_is (activeTabRef st)) (handler_tabs r) <> None ->
   showNoSpeechDetected st' = false /\ lastSpeechDetected st' = now /\
   ((later - now <= 5000)%Z -> checkSpeechDetection later st' = st')) /\
  (step (RecognitionResult r now transcript) st = Done st' ->
   find (id_is (activeTabRef st)) (handler_tabs r) = None -> st' = st) /\
  (recognition st <> None -> isListening st = false ->
   let listening := listening_effect (toggleListening now st) in
   isListening listening = true /\
   showNoSpeechDetected listening = false /\
   lastSpeechDetected listening = now /\
   ((later - now <= 5000)%Z ->
    checkSpeechDetection later listening = listening)).
Proof.
  assert (Hquiet : forall s, lastSpeechDetected s = now ->
                     (later - now <= 5000)%Z ->
                     checkSpeechDetection later s = s).
  { intros s Hs Hl. unfold checkSpeechDetection. rewrite Hs.
    destruct (later - now >? 5000)%Z eqn:E; [| reflexivity].
    apply Z.gtb_gt in E. lia. }
  split; [| split].
  - intros H Hfound. apply step_result_cases in H.
    destruct H as [[Hn _] | (cur & next & _ & _ & ->)]; [contradiction |].
    assert (Hl : lastSpeechDetected
                   (recognition_effect
                      (setShowNoSpeechDetected false
                         (set_lastSpeechDetected now (setTabs next st))))
                 = now)
      by (handlers; branch_goal; reflexivity).
    split; [handlers; branch_goal; reflexivity |].
    split; [exact Hl |]. now apply Hquiet.
  - intros H Hnone. apply step_result_cases in H.
    destruct H as [[_ ->] | (cur & next & Hf & _)]; [reflexivity |].
    congruence.
  - intros Hrec Hidle listening. unfold listening, toggleListening.
    destruct (recognition st) as [held|]; [| congruence].
    rewrite Hidle. unfold listening_effect. cbn -[checkSpeechDetection].
    repeat split. intros Hl. apply Hquiet; [reflexivity | exact Hl].
Qed.

Section NoSpeech.

Lemma step_without_speech (ev : Event) (st st' : App) :
  without_speech st -> enabled ev st -> step ev st = Done st' ->
  without_speech st'.
Proof.
  unfold without_speech.
  intros (Hs & Hl & Hr & Hst & Hsh & He) Hen H. destruct ev;
    try (open_step H; handlers; branch_goal; cbn in *;
         try solve [intuition congruence]).
  - cbn in Hen. rewrite Hst in Hen. contradiction.
  - cbn in Hen. rewrite Hst in Hen. contradiction.
Qed.

End NoSpeech.

(** X15.  On a page without speech recognition nothing ever listens: in
    every reachable state listening is off, no recognition object is held or
    started and the silence notice is hidden.  An error is always shown: the
    notice that speech recognition is not supported, or, after a copy that
    failed and until the tabs are set again, the notice of the failed
    copy. *)
Theorem page_without_speech_never_listens (savedTabs : option Saved)
  (savedActiveTab : option string) (now : Z) (st : App) :
  reachable (mount savedTabs savedActiveTab false now) st ->
  isListening st = false /\ recognition st = None /\
  started st = []%list /\ showNoSpeechDetected st = false /\
  (error st = "Speech recognition is not supported in this browser." \/
   error st = "Failed to copy text to clipboard").
Proof.
  intros Hr. cut (without_speech st); [unfold without_speech; tauto |].
  induction Hr as [| st st' ev _ IH Hen Hstep].
  - unfold without_speech. repeat split. now left.
  - now apply (step_without_speech ev st st').
Qed.

Lemma page_without_speech_never_listens_witness :
  let st :=
    clipboard_settled 7 false
      (copyToClipboard true
         (listening_effect (toggleListening 5 (mount None None false 0)))) in
  isListening st = false /\ recognition st = None /\
  started st = []%list /\ showNoSpeechDetected st = false /\
  (error st = "Speech recognition is not supported in this browser." \/
   error st = "Failed to copy text to clipboard").
Proof.
  apply (page_without_speech_never_listens None None 0).
  apply reachable_step
    with (st := copyToClipboard true
                  (listening_effect
                     (toggleListening 5 (mount None None false 0))))
         (ev := ClipboardSettled 7 false);
    [| discriminate | reflexivity].
  apply reachable_step
    with (st := listening_effect (toggleListening 5 (mount None None false 0)))
         (ev := CopyToClipboard true); [| exact I | reflexivity].
  apply reachable_step with (st := mount None None false 0)
                            (ev := ToggleListening 5);
    [apply reachable_start | exact I | reflexivity].
Defined.

Section Titles.

Local Open Scope list_scope.

Lemma onresult_titles (captured : list Tab) (ref : option string)
  (transcript : string) (prevTabs next : list Tab) :
  onresult captured ref transcript prevTabs = Done next ->
  map title next = map title prevTabs.
Proof.
  rewrite onresult_merge.
  destruct (find (id_is ref) captured) as [cur|];
    [| now intros H; injection H as <-].
  revert next. induction prevTabs as [|a l IH]; simpl; intros next H.
  - now injection H as <-.
  - destruct (id_is ref a).
    + destruct (merge _ _ _) as [c|]; simpl in H; [| discriminate].
      destruct (map_outcome _ l) as [bs|]; simpl in H; [| discriminate].
      injection H as <-. simpl. now rewrite (IH bs).
    + simpl in H.
      destruct (map_outcome _ l) as [bs|]; simpl in H; [| discriminate].
      injection H as <-. simpl. now rewrite (IH bs).
Qed.

Lemma titles_after_filter (p : Tab -> bool) (l : list Tab) (t : string) :
  In t (map title (filter p l)) -> In t (map title l).
Proof.
  rewrite !in_map_iff. intros (tab & E & Hin). exists tab.
  apply filter_In in Hin. tauto.
Qed.

Lemma titles_after_rename (st : App) :
  ~ In "" (map title (tabs st)) ->
  ~ In "" (map title (tabs (finishEditingTitle st))).
Proof.
  intros Inv. unfold finishEditingTitle.
  destruct (isEditingTitle st) as [e|]; [| exact Inv].
  destruct (truthy e); [| exact Inv]. cbn.
  rewrite in_map_iff. intros (tab' & E & Hin).
  apply in_map_iff in Hin. destruct Hin as (tab & <- & Hin).
  destruct (id tab =? e).
  - cbn in E. destruct (truthy (trim (editingTitleValue st))) eqn:Ty;
      [| discriminate].
    apply truthy_true in Ty. congruence.
  - apply Inv. rewrite <- E. now apply in_map.
Qed.

Lemma titles_after_text (value : string) (st : App) :
  map title (tabs (handleTextChange value st)) = map title (tabs st).
Proof.
  cbn. rewrite map_map. apply map_ext. intros tab.
  now destruct (id_is _ tab).
Qed.

Lemma step_titles (ev : Event) (st st' : App) :
  ~ In "" (map title (tabs st)) -> step ev st = Done st' ->
  ~ In "" (map title (tabs st')).
Proof.
  intros Inv H. destruct ev; cbn [step] in H.
  - (* a new tab *)
    injection H as <-.
    destruct (recognition_effect_frame
                (sync_activeTabRef (addNewTab now st))) as (-> & _).
    cbn. rewrite map_app, in_app_iff. cbn.
    intros [Hin | [E | []]]; [contradiction | discriminate].
  - (* a closed tab *)
    destruct (_ =? _)%nat; injection H as <-; [exact Inv |].
    destruct (recognition_effect_frame
                (sync_activeTabRef (closeTab tabId st))) as (-> & _).
    intros Hin. apply Inv.
    assert (E : tabs (sync_activeTabRef (closeTab tabId st)) = tabs st
                \/ tabs (sync_activeTabRef (closeTab tabId st))
                   = filter (fun tab => negb (id tab =? tabId)) (tabs st)).
    { unfold closeTab. branch_goal; cbn; auto. }
    destruct E as [E | E]; rewrite E in Hin; [exact Hin |].
    now apply titles_after_filter in Hin.
  - injection H as <-. cbn [tabs sync_activeTabRef set_activeTabRef].
    now destruct (handleTabClick_frame tabId st) as [-> _].
  - destruct (find _ _); injection H as <-; exact Inv.
  - injection H as <-. exact Inv.
  - assert (E : ~ In "" (map title (tabs (handleTitleKeyDown key st)))).
    { unfold handleTitleKeyDown.
      destruct (key =? "Enter"); [now apply titles_after_rename |].
      now destruct (key =? "Escape"). }
    destruct (_ && _); injection H as <-; [| exact E].
    now destruct (recognition_effect_frame (handleTitleKeyDown key st))
      as (-> & _).
  - apply titles_after_rename in Inv.
    destruct (editing st); injection H as <-; [| exact Inv].
    now destruct (recognition_effect_frame (finishEditingTitle st))
      as (-> & _).
  - injection H as <-.
    destruct (recognition_effect_frame (handleTextChange value st))
      as (-> & _).
    now rewrite titles_after_text.
  - injection H as <-. now destruct (listening_frame now st) as [-> _].
  - apply step_result_cases in H.
    destruct H as [[_ ->] | (cur & next & _ & O & ->)]; [exact Inv |].
    destruct (recognition_effect_frame
                (setShowNoSpeechDetected false
                   (set_lastSpeechDetected now (setTabs next st))))
      as (-> & _).
    cbn. now rewrite (onresult_titles _ _ _ _ _ O).
  - injection H as <-. exact Inv.
  - injection H as <-.
    now destruct (checkSpeechDetection_frame now st) as [-> _].
  - injection H as <-. now destruct (hide_timeout_frame st) as [-> _].
  - injection H as <-.
    now destruct (copyToClipboard_frame available st) as [-> _].
  - injection H as <-.
    now destruct (clipboard_settled_frame now written st) as [-> _].
  - injection H as <-. now destruct (copied_timeout_frame st) as [-> _].
Qed.

End Titles.

(** X16.  No tab ever has an empty title: when the tabs present at
    initialisation have non-empty titles, so have the tabs of every
    reachable state, whatever is typed into the title editor. *)
Theorem titles_are_never_empty (savedTabs : option Saved)
  (savedActiveTab : option string) (speech : bool) (now : Z) (st : App) :
  ~ In "" (map title (initial_tabs savedTabs)) ->
  reachable (mount savedTabs savedActiveTab speech now) st ->
  ~ In "" (map title (tabs st)).
Proof.
  intros H0 Hr. induction Hr as [| st st' ev _ IH _ Hstep].
  - now destruct (mount_frame savedTabs savedActiveTab speech now)
      as [-> _].
  - now apply (step_titles ev st st').
Qed.

Lemma titles_are_never_empty_witness :
  ~ In "" (map title (tabs opened_then_closed)).
Proof.
  apply (titles_are_never_empty None None true 0).
  - simpl. intuition discriminate.
  - apply opened_then_closed_reachable.
Defined.

Section Serials.

Local Open Scope list_scope.

Ltac bound Hs1 Hs2 :=
  intros;
  repeat match goal with
         | H : In _ (_ ++ _) |- _ =>
             apply in_app_iff in H; destruct H as [H | H]
         | H : In _ (without _ _) |- _ =>
             apply filter_In in H; destruct H as [H _]
         | H : In _ (filter _ _) |- _ =>
             apply filter_In in H; destruct H as [H _]
         | H : In _ [_] |- _ => destruct H as [<- | []]
         | H : Some _ = Some _ |- _ => injection H as <-
         | H : None = Some _ |- _ => discriminate H
         end;
  try match goal with
      | H : In _ (started _) |- _ => apply Hs1 in H
      end;
  try match goal with
      | H : recognition _ = Some _ |- _ => apply Hs2 in H
      end;
  cbn in *; try lia; try congruence; try (apply Hs2; congruence).

Lemma step_serials (ev : Event) (st st' : App) :
  serials_in_order st -> step ev st = Done st' -> serials_in_order st'.
Proof.
  unfold serials_in_order. intros (Hs & Hs1 & Hs2) H.
  destruct ev;
    try solve [open_step H; handlers; rewrite ?Hs; branch_goal; cbn in *;
               (split; [exact Hs || congruence |]);
               split; bound Hs1 Hs2].
  apply step_result_cases in H.
  destruct H as [[_ ->] | (cur & next & _ & _ & ->)]; [now repeat split |].
  handlers. cbn. rewrite Hs. cbn.
  split; [exact Hs |]. split; bound Hs1 Hs2.
Qed.

Lemma reachable_serials (savedTabs : option Saved)
  (savedActiveTab : option string) (now : Z) (st : App) :
  reachable (mount savedTabs savedActiveTab true now) st ->
  serials_in_order st.
Proof.
  intros Hr. induction Hr as [| st st' ev _ IH _ Hstep].
  - unfold serials_in_order, mount. handlers. cbn.
    split; [reflexivity |]. split; [intros r [] |].
    intros r H. injection H as <-. cbn. lia.
  - now apply (step_serials ev st st').
Qed.

End Serials.

(** X17.  Once an utterance has been merged, the microphone button no longer
    reaches the recognition object that delivered it.  The merge sets the
    tabs, so a new recognition object replaces the one held in React state;
    [toggleListening] then calls [stop] (or [start]) on the new object, and
    the object that listens stays started, whatever the button does to
    [isListening]. *)
Theorem microphone_button_misses_the_listening_object
  (savedTabs : option Saved) (savedActiveTab : option string)
  (loaded now later : Z) (r : Recognition) (transcript : string)
  (st st' : App) :
  reachable (mount savedTabs savedActiveTab true loaded) st ->
  In r (started st) ->
  find (id_is (activeTabRef st)) (handler_tabs r) <> None ->
  step (RecognitionResult r now transcript) st = Done st' ->
  recognition st' = Some (mkRecognition (created st) (tabs st')) /\
  recognition st' <> Some r /\
  In r (started (toggleListening later st')) /\
  isListening (toggleListening later st') = negb (isListening st').
Proof.
  intros Hr Hin Hfound H.
  destruct (reachable_serials _ _ _ _ Hr) as (Hs & Hs1 & _).
  apply Hs1 in Hin as Hlt.
  apply step_result_cases in H.
  destruct H as [[Hn _] | (cur & next & _ & _ & ->)]; [contradiction |].
  unfold recognition_effect.
  cbn [supported setShowNoSpeechDetected set_lastSpeechDetected setTabs].
  rewrite Hs. cbn [recognition set_created setRecognition tabs created
                   setShowNoSpeechDetected set_lastSpeechDetected setTabs].
  split; [reflexivity |]. split.
  - intros E. injection E as E. rewrite <- E in Hlt. cbn in Hlt. lia.
  - unfold toggleListening. cbn. destruct (isListening st); cbn.
    + split; [| reflexivity]. apply filter_In. split; [exact Hin |].
      cbn. apply negb_true_iff, Nat.eqb_neq. lia.
    + split; [| reflexivity]. apply in_app_iff. now left.
Qed.

Lemma microphone_button_misses_the_listening_object_witness :
  let st := listening_effect (toggleListening 0 fresh_page) in
  let st' :=
    recognition_effect
      (setShowNoSpeechDetected false
         (set_lastSpeechDetected 1000
            (setTabs [mkTab "1" "Untitled 1" "Hello world "] st))) in
  recognition st' = Some (mkRecognition (created st) (tabs st')) /\
  recognition st' <> Some first_recognition /\
  In first_recognition (started (toggleListening 2000 st')) /\
  isListening (toggleListening 2000 st') = negb (isListening st').
Proof.
  apply (microphone_button_misses_the_listening_object None None 0 1000 2000
           first_recognition "hello world"
           (listening_effect (toggleListening 0 fresh_page))).
  - apply silent_session_reachable.
  - now left.
  - discriminate.
  - vm_compute. reflexivity.
Defined.

Section SavedActiveId.

Local Open Scope list_scope.

Lemma before_equals_fixed (s : string) :
  no_equals s = true -> before_equals s = s.
Proof.
  induction s as [|c s IH]; simpl; [reflexivity |].
  destruct (c =? "=")%char; simpl; [discriminate |].
  intros H. now rewrite IH.
Qed.

Lemma split_equals_1_row (a : string) :
  split_equals_1 (activeTab_row (Some a)) = Some (before_equals a).
Proof. reflexivity. Qed.

Lemma activeTab_row_starts (a : option string) :
  startsWith (activeTab_row a) "activeTab=" = true.
Proof. destruct a as [s |]; [destruct s |]; reflexivity. Qed.

Lemma find_after_misses {A : Type} (p : A -> bool) (l1 l2 : list A) (x : A) :
  (forall y, In y l1 -> p y = false) -> p x = true ->
  find p (l1 ++ x :: l2) = Some x.
Proof.
  intros H Hx. induction l1 as [|y l1 IH]; simpl.
  - now rewrite Hx.
  - rewrite (H y) by now left. apply IH. intros z Hz. apply H. now right.
Qed.

Lemma no_equals_digits (d : Decimal.uint) :
  no_equals (NilEmpty.string_of_uint d) = true.
Proof. induction d; simpl; auto. Qed.

Lemma no_equals_String_of_Z (n : Z) : no_equals (String_of_Z n) = true.
Proof.
  unfold String_of_Z, NilZero.string_of_int, NilZero.string_of_uint.
  destruct (Z.to_int n) as [d | d]; destruct d; simpl;
    auto using no_equals_digits.
Qed.

Lemma String_of_Z_inj (a b : Z) : String_of_Z a = String_of_Z b -> a = b.
Proof.
  unfold String_of_Z. intros E. apply DecimalZ.to_int_inj.
  assert (N : forall n, Z.to_int n <> Decimal.Pos Decimal.Nil /\
                        Z.to_int n <> Decimal.Neg Decimal.Nil).
  { intros [|p|p]; simpl; split; try discriminate; intros H;
      injection H as H; now apply DecimalPos.Unsigned.to_uint_nonnil in H. }
  destruct (N a) as [Pa Na]. destruct (N b) as [Pb Nb].
  pose proof (NilZero.isi _ Pa Na) as Ia.
  pose proof (NilZero.isi _ Pb Nb) as Ib.
  rewrite E in Ia. congruence.
Qed.

End SavedActiveId.

(** X18.  The saved active id is read back.  When the cookie rows hold the
    row the saving effect wrote for the active id, and no row before it
    starts with ["activeTab="], the initialiser of [activeTabId] returns the
    saved id up to its first ['=']: an id without ['='] comes back as it
    was saved, whatever rows surround it. *)
Theorem saved_active_id_is_read_back (before after : list string)
  (saved : string) :
  (forall row, In row before -> startsWith row "activeTab=" = false) ->
  saved_activeTabId (before ++ activeTab_row (Some saved) :: after)%list
  = Some (before_equals saved) /\
  (no_equals saved = true ->
   saved_activeTabId (before ++ activeTab_row (Some saved) :: after)%list
   = Some saved).
Proof.
  intros H.
  assert (E : saved_activeTabId
                (before ++ activeTab_row (Some saved) :: after)%list
              = Some (before_equals saved)).
  { unfold saved_activeTabId.
    rewrite (find_after_misses _ before after _ H);
      [| apply activeTab_row_starts].
    apply split_equals_1_row. }
  split; [exact E |]. intros N. rewrite E. now rewrite before_equals_fixed.
Qed.

Lemma saved_active_id_is_read_back_witness :
  saved_activeTabId ["tabs=%5B%5D"; "activeTab=1700"; "theme=dark"]%list
  = Some "1700".
Proof.
  assert (H : forall row, In row ["tabs=%5B%5D"]%list ->
                startsWith row "activeTab=" = false)
    by (intros row [<- | []]; reflexivity).
  exact (proj2 (saved_active_id_is_read_back ["tabs=%5B%5D"]%list
                  ["theme=dark"]%list "1700" H) eq_refl).
Defined.

(** X19.  The id of a new tab survives a reload.  [addNewTab] makes the new
    tab active under an id printed from the clock; the row the saving effect
    writes for it is read back by the initialiser of [activeTabId] as that
    same id, and no row is needed for the default, since without a saved row
    the initialiser returns ["1"]. *)
Theorem new_active_id_survives_reload (now : Z) (st : App)
  (before after : list string) :
  (forall row, In row before -> startsWith row "activeTab=" = false) ->
  saved_activeTabId
    (before ++ activeTab_row (activeTabId (addNewTab now st)) :: after)%list
  = activeTabId (addNewTab now st) /\
  saved_activeTabId before = Some "1".
Proof.
  intros H. split.
  - cbn [addNewTab activeTabId setEditingTitleValue setIsEditingTitle
         setActiveTabId].
    unfold saved_activeTabId.
    rewrite (find_after_misses _ before after _ H);
      [| apply activeTab_row_starts].
    rewrite split_equals_1_row.
    now rewrite (before_equals_fixed _ (no_equals_String_of_Z now)).
  - unfold saved_activeTabId.
    destruct (find _ before) as [row|] eqn:F; [| reflexivity].
    apply find_some in F. destruct F as [Hin Hrow].
    rewrite (H row Hin) in Hrow. discriminate.
Qed.

Lemma new_active_id_survives_reload_witness :
  saved_activeTabId
    (["tabs=%5B%5D"]
     ++ activeTab_row (activeTabId (addNewTab 1700 fresh_page)) :: [])%list
  = activeTabId (addNewTab 1700 fresh_page) /\
  saved_activeTabId ["tabs=%5B%5D"]%list = Some "1".
Proof.
  apply (new_active_id_survives_reload 1700 fresh_page
           ["tabs=%5B%5D"]%list []%list).
  intros row [<- | []]. reflexivity.
Defined.

(** X20.  Tabs opened at different clock values get different ids: the id
    of a new tab is the clock value printed in decimal, printing is
    injective, and so a second [addNewTab] at another clock value finds its
    id unused whenever the list did not hold it before, and the ids stay
    distinct. *)
Theorem tabs_opened_at_different_times_differ (now1 now2 : Z) (st : App) :
  now1 <> now2 ->
  NoDup (map id (tabs st)) ->
  ~ In (String_of_Z now1) (map id (tabs st)) ->
  ~ In (String_of_Z now2) (map id (tabs st)) ->
  enabled (AddNewTab now2) (addNewTab now1 st) /\
  NoDup (map id (tabs (addNewTab now2 (addNewTab now1 st)))).
Proof.
  intros Hne Hnd H1 H2.
  assert (F : ~ In (String_of_Z now2) (map id (tabs (addNewTab now1 st)))).
  { cbn. rewrite map_app, in_app_iff. cbn.
    intros [Hin | [E | []]]; [contradiction |].
    apply String_of_Z_inj in E. contradiction. }
  split; [exact F |].
  assert (G : forall now s, NoDup (map id (tabs s)) ->
                ~ In (String_of_Z now) (map id (tabs s)) ->
                NoDup (map id (tabs (addNewTab now s)))).
  { intros now s Nd Fr. cbn. rewrite map_app. cbn.
    apply NoDup_app; [exact Nd | repeat constructor; intros [] |].
    intros x Hx [<- | []]. contradiction. }
  apply G; [apply G |]; assumption.
Qed.

Lemma tabs_opened_at_different_times_differ_witness :
  enabled (AddNewTab 1701) (addNewTab 1700 fresh_page) /\
  NoDup (map id (tabs (addNewTab 1701 (addNewTab 1700 fresh_page)))).
Proof.
  apply (tabs_opened_at_different_times_differ 1700 1701 fresh_page).
  - discriminate.
  - vm_compute. repeat constructor. intros [].
  - vm_compute. intros [E | []]. discriminate.
  - vm_compute. intros [E | []]. discriminate.
Defined.

Section Rename.

Local Open Scope list_scope.

Lemma same_id_same_tab (l : list Tab) (a b : Tab) :
  NoDup (map id l) -> In a l -> In b l -> id a = id b -> a = b.
Proof.
  induction l as [|x l IH]; simpl; [contradiction |].
  intros Hnd Ha Hb E. inversion Hnd as [|? ? Hx Hl]; subst.
  destruct Ha as [-> | Ha], Hb as [-> | Hb]; [reflexivity | | |].
  - exfalso. apply Hx. rewrite E. now apply in_map.
  - exfalso. apply Hx. rewrite <- E. now apply in_map.
  - now apply IH.
Qed.

Lemma with_own_title (tab : Tab) : with_title tab (title tab) = tab.
Proof. now destruct tab. Qed.

End Rename.

(** X21.  Opening the title editor and pressing Enter without typing changes
    no tab.  A click on the active tab puts its title into the editor; when
    that title is not empty and has no white space around it, Enter writes
    the same title back: the tab list is as before, the editor is closed and
    the tab is still active. *)
Theorem enter_without_typing_keeps_the_tabs (tab : Tab) (st : App) :
  NoDup (map id (tabs st)) ->
  In tab (tabs st) ->
  activeTabId st = Some (id tab) ->
  trim (title tab) = title tab ->
  title tab <> "" ->
  let st' := handleTitleKeyDown "Enter" (handleTabClick (id tab) st) in
  tabs st' = tabs st /\ isEditingTitle st' = None /\
  editingTitleValue st' = "" /\ activeTabId st' = Some (id tab).
Proof.
  intros Hnd Hin Ha Ht Hne st'. unfold st', handleTabClick.
  rewrite Ha, String.eqb_refl.
  change (find (fun t => id t =? id tab) (tabs st))
    with (find (id_is (Some (id tab))) (tabs st)).
  rewrite (find_by_id _ _ Hnd Hin).
  unfold handleTitleKeyDown, finishEditingTitle, startEditingTitle. cbn.
  change (trimEnd (trimStart (title tab))) with (trim (title tab)).
  rewrite Ht. apply truthy_true in Hne. rewrite Hne.
  destruct (truthy (id tab)); cbn; [| now repeat split].
  repeat split. rewrite <- (map_id (tabs st)) at 2. apply map_ext_in.
  intros t Hint. destruct (String.eqb_spec (id t) (id tab)) as [E | _];
    [| reflexivity].
  rewrite <- (same_id_same_tab _ _ _ Hnd Hin Hint (eq_sym E)).
  apply with_own_title.
Qed.

Lemma enter_without_typing_keeps_the_tabs_witness :
  let st' :=
    handleTitleKeyDown "Enter" (handleTabClick "17" three_tabs) in
  tabs st' = tabs three_tabs /\ isEditingTitle st' = None /\
  editingTitleValue st' = "" /\ activeTabId st' = Some "17".
Proof.
  apply (enter_without_typing_keeps_the_tabs
           (mkTab "17" "Untitled 2" "b") three_tabs).
  - vm_compute. repeat constructor; simpl; intuition discriminate.
  - simpl. auto.
  - reflexivity.
  - reflexivity.
  - discriminate.
Defined.

(** ** The conditional parts of the properties above, at sample inputs *)

(** The handler of a recognition object that captured the first of two tabs,
    with the ref cell on that tab: "hello" goes into the first tab, and the
    second tab stays as it is. *)
Lemma onresult_keeps_the_tab_list_witness :
  let prevTabs := [mkTab "1" "Untitled 1" ""; mkTab "17" "Notes" "b"]%list in
  let next := [mkTab "1" "Untitled 1" "Hello "; mkTab "17" "Notes" "b"]%list in
  map id next = map id prevTabs /\
  map title next = map title prevTabs /\
  nth_error next 1 = Some (mkTab "17" "Notes" "b").
Proof.
  intros prevTabs next.
  destruct (onresult_keeps_the_tab_list [mkTab "1" "Untitled 1" ""]%list
              (Some "1") "hello" prevTabs) as (_ & _ & H).
  destruct (H next) as (A & B & C); [vm_compute; reflexivity |].
  split; [exact A |]. split; [exact B |].
  apply (C 1%nat (mkTab "17" "Notes" "b")); reflexivity.
Defined.

(** The second of three tabs is renamed to "  Notes ", typed with white
    space around it. *)
Lemma finishEditingTitle_renames_witness :
  let st := handleTitleChange "  Notes "
              (startEditingTitle "17" "Untitled 2" three_tabs) in
  exists tab',
    nth_error (tabs (finishEditingTitle st)) 1 = Some tab' /\
    title tab' = "Notes".
Proof.
  intros st.
  destruct (finishEditingTitle_renames st) as (_ & _ & _ & _ & _ & H).
  destruct (H 1%nat (mkTab "17" "Untitled 2" "b") eq_refl)
    as (tab' & Hn & Hr & _).
  exists tab'. split; [exact Hn |].
  destruct Hr as (_ & Ht & _);
    [split; [reflexivity | discriminate] |].
  apply Ht. discriminate.
Defined.

(** Text typed on a page whose active id names no tab is lost. *)
Lemma handleTextChange_writes_the_active_tab_witness :
  let st := mount None (Some "17") false 0 in
  tabs (handleTextChange "typed" st) = tabs st /\
  activeTab (handleTextChange "typed" st) = nth_error (tabs st) 0.
Proof.
  intros st.
  destruct (handleTextChange_writes_the_active_tab "typed" st)
    as (_ & _ & _ & _ & _ & H).
  apply H. reflexivity.
Defined.

(** A click on the active tab of three opens its title for editing. *)
Lemma handleTabClick_selects_witness :
  activeTab (handleTabClick "17" three_tabs)
  = Some (mkTab "17" "Untitled 2" "b") /\
  isEditingTitle (handleTabClick "17" three_tabs) = Some "17" /\
  editingTitleValue (handleTabClick "17" three_tabs) = "Untitled 2".
Proof.
  destruct (handleTabClick_selects "17" three_tabs) as (_ & _ & A & B & _).
  split.
  - apply A; [| simpl; auto | reflexivity].
    vm_compute. repeat constructor; simpl; intuition discriminate.
  - apply (B (mkTab "17" "Untitled 2" "b")); reflexivity.
Defined.

(** "hello" is merged at time 1000 in a session that listens since time 0:
    the tick at time 6000 leaves the notice hidden. *)
Lemma merged_utterance_resets_the_watchdog_witness :
  let st' :=
    recognition_effect
      (setShowNoSpeechDetected false
         (set_lastSpeechDetected 1000
            (setTabs [mkTab "1" "Untitled 1" "Hello "]%list
               silent_session))) in
  showNoSpeechDetected st' = false /\ lastSpeechDetected st' = 1000%Z /\
  checkSpeechDetection 6000 st' = st'.
Proof.
  intros st'.
  destruct (merged_utterance_resets_the_watchdog first_recognition 1000 6000
              "hello" silent_session st') as (H & _ & _).
  destruct H as (A & B & C);
    [vm_compute; reflexivity | discriminate |].
  split; [exact A |]. split; [exact B |]. apply C. lia.
Defined.

(** ** The copy button *)

Section CopyButton.

Local Open Scope list_scope.

Lemma step_copy_mark (ev : Event) (st st' : App) :
  copy_mark_is_backed st -> step ev st = Done st' ->
  copy_mark_is_backed st'.
Proof.
  unfold copy_mark_is_backed. intros Inv H. destruct ev;
    try (open_step H; handlers; branch_goal; cbn in *;
         try solve [intuition congruence]).
  - (* a result *)
    apply step_result_cases in H.
    destruct H as [[_ ->] | (cur & next & _ & _ & ->)]; [exact Inv |].
    handlers. branch_goal; cbn; exact Inv.
  - (* a write that succeeds *)
    intros _. split; [| discriminate]. intros E.
    now apply app_eq_nil in E.
Qed.

End CopyButton.

(** X22.  The copy mark is shown only after the page has written text to
    the clipboard, and whenever it is shown a callback that takes it back is
    pending: the mark cannot stay on for ever, and a copy that failed never
    shows it. *)
Theorem copy_mark_is_taken_back (savedTabs : option Saved)
  (savedActiveTab : option string) (speech : bool) (now : Z) (st : App) :
  reachable (mount savedTabs savedActiveTab speech now) st ->
  copied st = true ->
  copiedTimeouts st <> []%list /\ clipboard st <> None.
Proof.
  intros Hr. change (copy_mark_is_backed st).
  induction Hr as [| st st' ev _ IH _ Hstep].
  - unfold mount, copy_mark_is_backed. handlers.
    destruct speech; cbn; discriminate.
  - now apply (step_copy_mark ev st st').
Qed.

Lemma copy_mark_is_taken_back_witness :
  let st := clipboard_settled 5 true (copyToClipboard true fresh_page) in
  copiedTimeouts st = [2005%Z]%list /\ clipboard st = Some "" /\
  copiedTimeouts st <> []%list /\ clipboard st <> None.
Proof.
  cbv zeta. split; [reflexivity |]. split; [reflexivity |].
  apply (copy_mark_is_taken_back None None true 0).
  - apply reachable_step with (st := copyToClipboard true fresh_page)
                              (ev := ClipboardSettled 5 true);
      [| discriminate | reflexivity].
    apply reachable_step with (st := fresh_page) (ev := CopyToClipboard true);
      [apply reachable_start | exact I | reflexivity].
  - reflexivity.
Defined.
